(** * NASDAQ ITCH 5.0 trade parser and hourly VWAP: a shallow embedding

    This development embeds [ITCH_parser.py] (class [ITCH_trade]) and
    states the properties of its message dispatcher, of the two trade
    decoders and of the VWAP aggregation.

    - Python [bytes] are [list byte]; [str] is [string].
    - Python [int] is [Z]; Python [float] and the float64 columns of a
      DataFrame are IEEE 754 binary64 values, given by the Standard
      Library's [spec_float] with [prec = 53] and [emax = 1024].
    - Exceptions are an error type; statements that read the stream or
      touch DataFrames run in a state-and-exception monad over a [world]
      that holds the heap of DataFrames, the opened stream handles and
      the two attributes of the [ITCH_trade] object. *)

From Stdlib Require Import ZArith List Bool Lia.
From Stdlib.Strings Require Import Ascii String Byte.
From Stdlib.Floats Require Import SpecFloat.
From Stdlib Require Import DecimalString.
From stdpp Require Import base tactics option list gmap strings sorting.

Import ListNotations.
Local Open Scope Z_scope.
Local Open Scope list_scope.

(** ** Exceptions and results *)

(** The exceptions the program can raise.  [OutOfFuel] is not a Python
    exception: it is the answer of the bounded dispatcher loop when its
    iteration bound is used up, which never happens under the bound
    [get_trade_data] passes (lemma [while_loop_fuel]). *)
Inductive exn : Type :=
  | AssertionError      (* the [assert] on the message type *)
  | StructError         (* [struct.error]: wrong buffer size or argument *)
  | UnicodeDecodeError  (* [bytes.decode('ascii')] on a byte above 127 *)
  | ValueError          (* [int(...)] on a string that is no integer literal *)
  | OverflowError       (* a float that is infinite turned into an [int] *)
  | IndexError          (* a tuple index out of range *)
  | TypeError           (* a value of the wrong kind, [None] used as a DataFrame *)
  | OutOfFuel.

Inductive result (A : Type) : Type :=
  | Ok (a : A)
  | Err (e : exn).
Arguments Ok {A} a.
Arguments Err {A} e.

#[global] Instance result_ret : MRet result := fun _ a => Ok a.
#[global] Instance result_bind : MBind result := fun _ _ k r =>
  match r with
  | Ok a => k a
  | Err e => Err e
  end.

Definition is_Ok {A} (r : result A) : bool :=
  match r with Ok _ => true | Err _ => false end.

(** ** Bytes and big-endian integers *)

Definition bytes := list byte.

Definition byte_val (b : byte) : Z := Z.of_N (Byte.to_N b).

Definition byte_of_Z (z : Z) : byte :=
  match Byte.of_N (Z.to_N z) with
  | Some b => b
  | None => x00
  end.

(** [int.from_bytes(bs, 'big')]: the unsigned big-endian value. *)
Definition be_decode (bs : bytes) : Z :=
  fold_left (fun acc b => acc * 256 + byte_val b) bs 0.

(** The [w] low-order base-256 digits of [v], most significant first. *)
Fixpoint be_encode (w : nat) (v : Z) : bytes :=
  match w with
  | O => []
  | S w' => be_encode w' (v / 256) ++ [byte_of_Z (v mod 256)]
  end.

(** ** The [struct] module, for the big-endian formats the parser uses *)

(** One format character with its repeat count already expanded: ['8c']
    is eight [Fc] items, ['8s'] is the single item [Fs 8]. *)
Inductive fmt_item : Type :=
  | Fs (n : nat)  (* [ns]: a bytes object of length n *)
  | Fc            (* [c]: a bytes object of length 1 *)
  | FH            (* [H]: unsigned 16-bit integer *)
  | FI            (* [I]: unsigned 32-bit integer *)
  | FQ.           (* [Q]: unsigned 64-bit integer *)

Inductive value : Type :=
  | VBytes (b : bytes)
  | VInt (z : Z).

Definition item_size (it : fmt_item) : nat :=
  match it with
  | Fs n => n
  | Fc => 1
  | FH => 2
  | FI => 4
  | FQ => 8
  end.

Definition calcsize (f : list fmt_item) : nat :=
  list_sum (map item_size f).

Definition unpack_item (it : fmt_item) (b : bytes) : value :=
  match it with
  | Fs _ | Fc => VBytes b
  | FH | FI | FQ => VInt (be_decode b)
  end.

Fixpoint unpack_items (f : list fmt_item) (b : bytes) : list value :=
  match f with
  | [] => []
  | it :: f' =>
      unpack_item it (firstn (item_size it) b)
        :: unpack_items f' (skipn (item_size it) b)
  end.

(** [struct.unpack(fmt, buffer)]: the buffer must have exactly the size
    the format calls for. *)
Definition struct_unpack (f : list fmt_item) (b : bytes) : result (list value) :=
  if Nat.eqb (length b) (calcsize f) then Ok (unpack_items f b)
  else Err StructError.

(** [ns] copies the first [n] bytes of its argument and pads with zero
    bytes; [c] wants exactly one byte; an integer must fit its width. *)
Definition pack_item (it : fmt_item) (v : value) : result bytes :=
  match it, v with
  | Fs n, VBytes b => Ok (firstn n (b ++ repeat x00 n))
  | Fc, VBytes [b] => Ok [b]
  | (FH | FI | FQ), VInt z =>
      if (0 <=? z) && (z <? 256 ^ Z.of_nat (item_size it))
      then Ok (be_encode (item_size it) z)
      else Err StructError
  | _, _ => Err StructError
  end.

Fixpoint struct_pack (f : list fmt_item) (vs : list value) : result bytes :=
  match f, vs with
  | [], [] => Ok []
  | it :: f', v :: vs' =>
      b ← pack_item it v;
      rest ← struct_pack f' vs';
      Ok (b ++ rest)
  | _, _ => Err StructError
  end.

(** [b''.join(parts)] for parts that are bytes objects. *)
Fixpoint bytes_join (parts : list value) : result bytes :=
  match parts with
  | [] => Ok []
  | VBytes b :: rest => r ← bytes_join rest; Ok (b ++ r)
  | VInt _ :: _ => Err StructError
  end.

(** The formats of [trade_message]:
    ['>4s6sQcI8cIQ'], ['>4s2s6sQsI8sIQ'] and ['>HHQQsI8sIQ']. *)
Definition fmt_P_in : list fmt_item :=
  [Fs 4; Fs 6; FQ; Fc; FI; Fc; Fc; Fc; Fc; Fc; Fc; Fc; Fc; FI; FQ].
Definition fmt_P_pad : list fmt_item :=
  [Fs 4; Fs 2; Fs 6; FQ; Fs 1; FI; Fs 8; FI; FQ].
Definition fmt_P_out : list fmt_item :=
  [FH; FH; FQ; FQ; Fs 1; FI; Fs 8; FI; FQ].

(** The formats of [cross_trade_message]:
    ['>4s6sQ8cIQc'], ['>4s2s6sQ8sIQs'] and ['>HHQQ8sIQs']. *)
Definition fmt_Q_in : list fmt_item :=
  [Fs 4; Fs 6; FQ; Fc; Fc; Fc; Fc; Fc; Fc; Fc; Fc; FI; FQ; Fc].
Definition fmt_Q_pad : list fmt_item :=
  [Fs 4; Fs 2; Fs 6; FQ; Fs 8; FI; FQ; Fs 1].
Definition fmt_Q_out : list fmt_item :=
  [FH; FH; FQ; FQ; Fs 8; FI; FQ; Fs 1].

(** [t[i]] on a tuple and the two kinds of unpacked values. *)
Definition item (vs : list value) (i : nat) : result value :=
  match vs !! i with
  | Some v => Ok v
  | None => Err IndexError
  end.

Definition as_int (v : value) : result Z :=
  match v with
  | VInt z => Ok z
  | VBytes _ => Err TypeError
  end.

Definition as_bytes (v : value) : result bytes :=
  match v with
  | VBytes b => Ok b
  | VInt _ => Err TypeError
  end.

(** [t[i:j]] on a tuple. *)
Definition slice {A} (i j : nat) (l : list A) : list A :=
  firstn (j - i) (skipn i l).

(** ** Binary64 floating point *)

Definition float := spec_float.
Definition prec : Z := 53.
Definition emax : Z := 1024.

Definition fadd : float -> float -> float := SFadd prec emax.
Definition fmul : float -> float -> float := SFmul prec emax.
Definition fdiv : float -> float -> float := SFdiv prec emax.

(** [float(z)]: the binary64 nearest to the integer [z]. *)
Definition float_of_Z (z : Z) : float := binary_normalize prec emax z 0 false.

(** The binary64 nearest to the quotient [a / b] of two positive
    integers, ties to even: the division of the two integers taken as
    the mantissas of floats with exponent zero, rounded once. *)
Definition round_quotient (a b : positive) : float :=
  SFdiv prec emax (S754_finite false a 0) (S754_finite false b 0).

(** [a / b] on Python integers with [b > 0]: the correctly rounded
    quotient. *)
Definition int_truediv (a : Z) (b : positive) : float :=
  match a with
  | Z0 => S754_zero false
  | Zpos p => round_quotient p b
  | Zneg p => SFopp (round_quotient p b)
  end.

(** The integer nearest to [n / d] for [d > 0], ties to even. *)
Definition rne_div (n d : Z) : Z :=
  let q := n / d in
  match Z.compare (2 * (n mod d)) d with
  | Lt => q
  | Gt => q + 1
  | Eq => if Z.even q then q else q + 1
  end.

(** The integer nearest to [|x| * 10^3], ties to even, for a finite [x]:
    the decimal digits [round(x, 3)] keeps. *)
Definition scaled_digits3 (m : positive) (e : Z) : Z :=
  if 0 <=? e then Zpos m * 2 ^ e * 1000
  else rne_div (Zpos m * 1000) (2 ^ (- e)).

(** [round(x, 3)] on a Python float: [x] is rounded, exactly and with
    ties to even, to three decimal places, and the decimal result is
    converted back to the nearest binary64.  Zeros, infinities and NaN
    round to themselves. *)
Definition py_round3 (x : float) : float :=
  match x with
  | S754_finite s m e =>
      let r := int_truediv (scaled_digits3 m e) 1000 in
      if s then SFopp r else r
  | _ => x
  end.

(** [round(x)] with one argument: the nearest integer, ties to even.
    Only called on finite values. *)
Definition py_round_int (x : float) : Z :=
  match x with
  | S754_finite s m e =>
      let k := if 0 <=? e then Zpos m * 2 ^ e else rne_div (Zpos m) (2 ^ (- e)) in
      if s then - k else k
  | _ => 0
  end.

(** [math.modf(x)]: the integer part, as the integer [int(...)] makes of
    it, and the fractional part, which is exact and has the sign of [x]. *)
Definition modf_int (x : float) : Z :=
  match x with
  | S754_finite s m e =>
      let k := if 0 <=? e then Zpos m * 2 ^ e else Zpos m / 2 ^ (- e) in
      if s then - k else k
  | _ => 0
  end.

Definition modf_frac (x : float) : float :=
  match x with
  | S754_finite s m e =>
      if 0 <=? e then S754_zero s
      else
        let r := Zpos m mod 2 ^ (- e) in
        binary_normalize prec emax (if s then - r else r) e s
  | S754_infinity s => S754_zero s
  | _ => x
  end.

(** [numpy.rint] on a float64: the nearest integral float, ties to even. *)
Definition np_rint (x : float) : float :=
  match x with
  | S754_finite s m e =>
      if 0 <=? e then x
      else
        let k := rne_div (Zpos m) (2 ^ (- e)) in
        binary_normalize prec emax (if s then - k else k) 0 s
  | _ => x
  end.

(** [Series.round(3)], which pandas hands to [numpy.around]: multiply by
    [1000.0], round to an integral float, divide by [1000.0]. *)
Definition np_round3 (x : float) : float :=
  fdiv (np_rint (fmul x (float_of_Z 1000))) (float_of_Z 1000).

Definition is_finite (x : float) : bool :=
  match x with
  | S754_zero _ | S754_finite _ _ _ => true
  | _ => false
  end.

(** ** Text: ASCII decoding, [strip], [split], [int] and [%d] *)

(** [b.decode('ascii')] *)
Definition decode_ascii (b : bytes) : result string :=
  if forallb (fun c => byte_val c <? 128) b
  then Ok (string_of_list_ascii (map ascii_of_byte b))
  else Err UnicodeDecodeError.

Definition ascii_code (c : ascii) : Z := Z.of_N (N_of_ascii c).

(** The ASCII characters for which [str.isspace] holds: tab to carriage
    return, the four separators 0x1c to 0x1f, and the space. *)
Definition py_isspace (c : ascii) : bool :=
  let n := ascii_code c in
  ((9 <=? n) && (n <=? 13)) || ((28 <=? n) && (n <=? 32)).

Fixpoint lstrip (s : list ascii) : list ascii :=
  match s with
  | c :: s' => if py_isspace c then lstrip s' else s
  | [] => []
  end.

(** [s.strip()] *)
Definition strip (s : string) : string :=
  string_of_list_ascii (rev (lstrip (rev (lstrip (list_ascii_of_string s))))).

(** [s.split(sep)[0]] for a one-character separator: the text before the
    first separator, all of [s] when there is none. *)
Fixpoint split_first (sep : ascii) (s : string) : string :=
  match s with
  | EmptyString => EmptyString
  | String c s' => if Ascii.eqb c sep then EmptyString else String c (split_first sep s')
  end.

Definition is_digit (c : ascii) : bool :=
  (48 <=? ascii_code c) && (ascii_code c <=? 57).

(** Decimal digits with single underscores between digits. *)
Fixpoint parse_digits (s : list ascii) (acc : Z) (after_digit : bool) : option Z :=
  match s with
  | [] => if after_digit then Some acc else None
  | c :: s' =>
      if is_digit c then parse_digits s' (acc * 10 + (ascii_code c - 48)) true
      else if Ascii.eqb c "_" && after_digit then parse_digits s' acc false
      else None
  end.

(** [int(s)] on a string, base ten: surrounding whitespace is dropped, a
    sign is allowed, anything else than digits raises [ValueError]. *)
Definition py_int (s : string) : result Z :=
  let body := list_ascii_of_string (strip s) in
  let parsed :=
    match body with
    | "+"%char :: r => parse_digits r 0 false
    | "-"%char :: r => Z.opp <$> parse_digits r 0 false
    | _ => parse_digits body 0 false
    end in
  match parsed with
  | Some z => Ok z
  | None => Err ValueError
  end.

(** ['%d' % z] *)
Definition fmt_d (z : Z) : string := NilZero.string_of_int (Z.to_int z).

Fixpoint zeros (n : nat) : string :=
  match n with
  | O => EmptyString
  | S n' => String "0" (zeros n')
  end.

(** ['%0wd' % z]: padded with zeros to [w] characters, after the sign. *)
Definition fmt_0d (w : nat) (z : Z) : string :=
  if z <? 0
  then String "-" (zeros (w - 1 - String.length (fmt_d (- z))) +:+ fmt_d (- z))
  else zeros (w - String.length (fmt_d z)) +:+ fmt_d z.

(** ** [datetime.timedelta] *)

Record timedelta : Type := {
  td_days : Z;
  td_seconds : Z;
  td_microseconds : Z
}.

(** [timedelta(seconds = x)] for a float [x]: the whole seconds are
    split off with [modf], the fraction is scaled to microseconds in
    floating point and rounded to the nearest integer, ties to even; the
    three fields are then normalised by carrying. *)
Definition timedelta_of_seconds (x : float) : result timedelta :=
  match x with
  | S754_nan => Err ValueError
  | S754_infinity _ => Err OverflowError
  | _ =>
      let secondsfrac := modf_frac x in
      let seconds := modf_int x in
      let d := seconds / (24 * 3600) in
      let s := seconds mod (24 * 3600) in
      let usdouble := fmul secondsfrac (float_of_Z 1000000) in
      let microseconds := py_round_int (fadd (float_of_Z 0) usdouble) in
      let us := microseconds mod 1000000 in
      let s := s + microseconds / 1000000 in
      let d := d + s / (24 * 3600) in
      let s := s mod (24 * 3600) in
      if 999999999 <? Z.abs d then Err OverflowError
      else Ok {| td_days := d; td_seconds := s; td_microseconds := us |}
  end.

(** [str(td)] *)
Definition timedelta_str (td : timedelta) : string :=
  let mm := td_seconds td / 60 in
  let ss := td_seconds td mod 60 in
  let hh := mm / 60 in
  let mm := mm mod 60 in
  let s := fmt_d hh +:+ ":" +:+ fmt_0d 2 mm +:+ ":" +:+ fmt_0d 2 ss in
  let s :=
    if td_days td =? 0 then s
    else fmt_d (td_days td) +:+ " day"
           +:+ (if Z.abs (td_days td) =? 1 then "" else "s") +:+ ", " +:+ s in
  if td_microseconds td =? 0 then s
  else s +:+ "." +:+ fmt_0d 6 (td_microseconds td).

(** ** The two decoders *)

(** The list a decoder returns, in the order of the DataFrame columns
    [time, end_time_hour, type, shares, stock, price]. *)
Record TradeRecord : Type := {
  time : string;
  end_time_hour : Z;
  type : string;
  shares : Z;
  stock : string;
  price : float
}.

(** ['{0}'.format(timedelta(seconds = ts / 1e9)).split('.')[0]] *)
Definition time_str_of (ts : Z) : result string :=
  td ← timedelta_of_seconds (fdiv (float_of_Z ts) (float_of_Z 1000000000));
  Ok (split_first "." (timedelta_str td)).

(** [int(time_str.split(':')[0]) + 1] *)
Definition end_time_hour_of (time_str : string) : result Z :=
  h ← py_int (split_first ":" time_str);
  Ok (h + 1).

(** [round(p / 10000, 3)] *)
Definition price_of (p : Z) : float := py_round3 (int_truediv p 10000).

(** The first three statements of [trade_message]: unpack the 43 bytes,
    pack them again with two zero bytes in front of the 6-byte
    timestamp, and unpack the 45 bytes into the fields. *)
Definition trade_fields (msg : bytes) : result (list value) :=
  msg ← struct_unpack fmt_P_in msg;
  m0 ← item msg 0; m1 ← item msg 1; m2 ← item msg 2; m3 ← item msg 3;
  m4 ← item msg 4; m13 ← item msg 13; m14 ← item msg 14;
  joined ← bytes_join (slice 5 13 msg);
  msg ← struct_pack fmt_P_pad
          [m0; VBytes [x00; x00]; m1; m2; m3; m4; VBytes joined; m13; m14];
  struct_unpack fmt_P_out msg.

Definition trade_message (msg : bytes) : result TradeRecord :=
  record ← trade_fields msg;
  r2 ← item record 2 ≫= as_int;
  time_str ← time_str_of r2;
  end_time_hour ← end_time_hour_of time_str;
  r4 ← item record 4 ≫= as_bytes;
  side ← decode_ascii r4;
  r5 ← item record 5 ≫= as_int;
  r6 ← item record 6 ≫= as_bytes;
  sym ← decode_ascii r6;
  r7 ← item record 7 ≫= as_int;
  Ok {| time := time_str; end_time_hour := end_time_hour; type := side;
        shares := r5; stock := strip sym; price := price_of r7 |}.

(** The first three statements of [cross_trade_message]. *)
Definition cross_trade_fields (msg : bytes) : result (list value) :=
  msg ← struct_unpack fmt_Q_in msg;
  m0 ← item msg 0; m1 ← item msg 1; m2 ← item msg 2;
  m11 ← item msg 11; m12 ← item msg 12; m13 ← item msg 13;
  joined ← bytes_join (slice 3 11 msg);
  msg ← struct_pack fmt_Q_pad
          [m0; VBytes [x00; x00]; m1; m2; VBytes joined; m11; m12; m13];
  struct_unpack fmt_Q_out msg.

Definition cross_trade_message (msg : bytes) : result TradeRecord :=
  record ← cross_trade_fields msg;
  r2 ← item record 2 ≫= as_int;
  time_str ← time_str_of r2;
  end_time_hour ← end_time_hour_of time_str;
  r7 ← item record 7 ≫= as_bytes;
  cross ← decode_ascii r7;
  r3 ← item record 3 ≫= as_int;
  r4 ← item record 4 ≫= as_bytes;
  sym ← decode_ascii r4;
  r5 ← item record 5 ≫= as_int;
  Ok {| time := time_str; end_time_hour := end_time_hour; type := cross;
        shares := r3; stock := strip sym; price := price_of r5 |}.

(** ** The world: DataFrames, stream handles and the parser object *)

(** A DataFrame of trades: its rows, and the [total_value] column once
    [calculate_VWAP] has added it. *)
Record DataFrame : Type := {
  df_rows : list TradeRecord;
  df_total_value : option (list float)
}.

(** An opened stream: the bytes not yet read and whether [close] was
    called on it. *)
Record handle : Type := {
  h_rest : bytes;
  h_closed : bool
}.

(** DataFrames and handles are objects with identity: a reference is an
    index into [heap] or [handles].  [itch_data] is the decompressed
    content of the file at [self.ITCH_data_path]. *)
Record world : Type := {
  itch_data : bytes;
  heap : list DataFrame;
  handles : list handle;
  self_trade_df : option nat;
  self_cross_trade_df : option nat
}.

Definition M (A : Type) : Type := world -> result A * world.

#[global] Instance M_ret : MRet M := fun _ a w => (Ok a, w).
#[global] Instance M_bind : MBind M := fun _ _ k c w =>
  match c w with
  | (Ok a, w') => k a w'
  | (Err e, w') => (Err e, w')
  end.

Definition raise {A} (e : exn) : M A := fun w => (Err e, w).
Definition lift {A} (r : result A) : M A := fun w => (r, w).
Definition get_world : M world := fun w => (Ok w, w).

Definition set_heap (hp : list DataFrame) (w : world) : world :=
  {| itch_data := itch_data w; heap := hp; handles := handles w;
     self_trade_df := self_trade_df w;
     self_cross_trade_df := self_cross_trade_df w |}.

Definition set_handles (hs : list handle) (w : world) : world :=
  {| itch_data := itch_data w; heap := heap w; handles := hs;
     self_trade_df := self_trade_df w;
     self_cross_trade_df := self_cross_trade_df w |}.

(** [self.trade_df = v] and [self.cross_trade_df = v] *)
Definition assign_trade_df (v : nat) : M unit := fun w =>
  (Ok tt, {| itch_data := itch_data w; heap := heap w; handles := handles w;
             self_trade_df := Some v;
             self_cross_trade_df := self_cross_trade_df w |}).

Definition assign_cross_trade_df (v : nat) : M unit := fun w =>
  (Ok tt, {| itch_data := itch_data w; heap := heap w; handles := handles w;
             self_trade_df := self_trade_df w;
             self_cross_trade_df := Some v |}).

(** [gzip.open(path, 'rb')]: a new handle at the start of the data. *)
Definition gzip_open : M nat := fun w =>
  (Ok (length (handles w)),
   set_handles (handles w ++ [{| h_rest := itch_data w; h_closed := false |}]) w).

(** [f.read(n)]: up to [n] bytes, fewer at the end of the data, none
    after it; reading a closed file raises [ValueError]. *)
Definition read (f : nat) (n : nat) : M bytes := fun w =>
  match handles w !! f with
  | None => (Err TypeError, w)
  | Some h =>
      if h_closed h then (Err ValueError, w)
      else (Ok (firstn n (h_rest h)),
            set_handles
              (<[f := {| h_rest := skipn n (h_rest h); h_closed := false |}]>
                 (handles w)) w)
  end.

(** A new DataFrame object. *)
Definition new_frame (df : DataFrame) : M nat := fun w =>
  (Ok (length (heap w)), set_heap (heap w ++ [df]) w).

Definition deref (l : nat) : M DataFrame := fun w =>
  match heap w !! l with
  | Some df => (Ok df, w)
  | None => (Err TypeError, w)
  end.

Definition store (l : nat) (df : DataFrame) : M unit := fun w =>
  (Ok tt, set_heap (<[l := df]> (heap w)) w).

(** A DataFrame with the six columns of the records and nothing else. *)
Definition frame (rows : list TradeRecord) : DataFrame :=
  {| df_rows := rows; df_total_value := None |}.

(** [pd.DataFrame(rows, columns = [...])] *)
Definition pd_DataFrame (rows : list TradeRecord) : M nat :=
  new_frame (frame rows).

(** [df.copy()] *)
Definition df_copy (l : nat) : M nat :=
  df ← deref l;
  new_frame df.

(** The DataFrame [pd.concat([a, b], ignore_index = True)] makes: the
    rows of [a] then those of [b]; a column only one of them has is
    filled with NaN in the rows of the other. *)
Definition concat_frames (da db : DataFrame) : DataFrame :=
  {| df_rows := df_rows da ++ df_rows db;
     df_total_value :=
       match df_total_value da, df_total_value db with
       | None, None => None
       | Some x, Some y => Some (x ++ y)
       | Some x, None => Some (x ++ repeat S754_nan (length (df_rows db)))
       | None, Some y => Some (repeat S754_nan (length (df_rows da)) ++ y)
       end |}.

Definition pd_concat (a b : nat) : M nat :=
  da ← deref a;
  db ← deref b;
  new_frame (concat_frames da db).

(** ** The dispatcher: [get_trade_data] *)

Fixpoint bytes_eqb (a b : bytes) : bool :=
  match a, b with
  | [], [] => true
  | x :: a', y :: b' => Byte.eqb x y && bytes_eqb a' b'
  | _, _ => false
  end.

(** The 21 message types the [assert] lets through, and the list of
    one-byte [bytes] objects it tests membership in. *)
Definition known_types : list byte :=
  ["S"; "R"; "H"; "Y"; "L"; "V"; "W"; "K"; "J"; "h"; "A";
   "F"; "E"; "C"; "X"; "D"; "U"; "P"; "Q"; "B"; "I"]%byte.

Definition valid_types : list bytes := map (fun c => [c]) known_types.

(** [assert(c)] *)
Definition py_assert (c : bool) : M unit :=
  if c then mret tt else raise AssertionError.

Definition trade_lists : Type := list TradeRecord * list TradeRecord.

(** The [if]/[elif] chain of the loop body, for one message type. *)
Definition dispatch (bin_data : nat) (msg_type : bytes)
    (trade_list cross_trade_list : list TradeRecord) : M trade_lists :=
  let skip n : M trade_lists :=
    _ ← read bin_data n; mret (trade_list, cross_trade_list) in
  if bytes_eqb msg_type ["S"%byte] then skip 13%nat
  else if bytes_eqb msg_type ["R"%byte] then skip 40%nat
  else if bytes_eqb msg_type ["H"%byte] then skip 26%nat
  else if bytes_eqb msg_type ["Y"%byte] then skip 21%nat
  else if bytes_eqb msg_type ["L"%byte] then skip 27%nat
  else if bytes_eqb msg_type ["V"%byte] then skip 36%nat
  else if bytes_eqb msg_type ["W"%byte] then skip 13%nat
  else if bytes_eqb msg_type ["K"%byte] then skip 29%nat
  else if bytes_eqb msg_type ["J"%byte] then skip 36%nat
  else if bytes_eqb msg_type ["h"%byte] then skip 22%nat
  else if bytes_eqb msg_type ["A"%byte] then skip 37%nat
  else if bytes_eqb msg_type ["F"%byte] then skip 41%nat
  else if bytes_eqb msg_type ["E"%byte] then skip 32%nat
  else if bytes_eqb msg_type ["C"%byte] then skip 37%nat
  else if bytes_eqb msg_type ["X"%byte] then skip 24%nat
  else if bytes_eqb msg_type ["D"%byte] then skip 20%nat
  else if bytes_eqb msg_type ["U"%byte] then skip 36%nat
  else if bytes_eqb msg_type ["P"%byte] then
    msg ← read bin_data 43;
    record ← lift (trade_message msg);
    _ ← read bin_data 2;
    mret (trade_list ++ [record], cross_trade_list)
  else if bytes_eqb msg_type ["Q"%byte] then
    msg ← read bin_data 39;
    record ← lift (cross_trade_message msg);
    _ ← read bin_data 2;
    mret (trade_list, cross_trade_list ++ [record])
  else if bytes_eqb msg_type ["B"%byte] then skip 20%nat
  else if bytes_eqb msg_type ["I"%byte] then skip 51%nat
  else mret (trade_list, cross_trade_list).

(** [while msg_type: ...], bounded by [fuel] iterations. *)
Fixpoint while_loop (fuel : nat) (bin_data : nat) (msg_type : bytes)
    (trade_list cross_trade_list : list TradeRecord) : M trade_lists :=
  match msg_type with
  | [] => mret (trade_list, cross_trade_list)
  | _ :: _ =>
      match fuel with
      | O => raise OutOfFuel
      | S fuel' =>
          _ ← py_assert (existsb (bytes_eqb msg_type) valid_types);
          lists ← dispatch bin_data msg_type trade_list cross_trade_list;
          msg_type ← read bin_data 1;
          while_loop fuel' bin_data msg_type lists.1 lists.2
      end
  end.

Definition get_trade_data : M (nat * nat) :=
  bin_data ← gzip_open;
  _ ← read bin_data 2;
  msg_type ← read bin_data 1;
  w ← get_world;
  lists ← while_loop (length (itch_data w)) bin_data msg_type [] [];
  trade_df ← pd_DataFrame lists.1;
  cross_trade_df ← pd_DataFrame lists.2;
  _ ← assign_trade_df trade_df;
  _ ← assign_cross_trade_df cross_trade_df;
  mret (trade_df, cross_trade_df).

(** ** The aggregation: [calculate_VWAP] and [get_VWAP_df] *)

(** The grouping key [(end_time_hour, stock)]; integers are compared as
    integers and strings character by character, by code. *)
Definition key : Type := Z * string.

Definition key_le (k1 k2 : key) : Prop :=
  k1.1 < k2.1 \/ (k1.1 = k2.1 /\ String.le k1.2 k2.2).

Definition key_lt (k1 k2 : key) : Prop := key_le k1 k2 /\ k1 <> k2.

#[global] Instance key_le_dec : RelDecision key_le.
Proof. intros k1 k2. unfold key_le. apply _. Defined.

Definition is_nan (x : float) : bool :=
  match x with
  | S754_nan => true
  | _ => false
  end.

Definition fzero : float := float_of_Z 0.

(** One row of the result of [groupby([end_time_hour, stock])[...].sum()]
    with its [vwap] column, and one row of the table [calculate_VWAP]
    returns. *)
Record GroupRow : Type := {
  g_key : key;
  g_total_value : float;
  g_shares : Z
}.

Record VWAPRow : Type := {
  row_end_time_hour : Z;
  row_stock : string;
  row_total_value : float;
  row_shares : Z;
  row_vwap : float;
  row_cum_total_value : float;
  row_cum_shares : Z;
  row_cum_vwap : float
}.

Definition row_key (r : VWAPRow) : key := (row_end_time_hour r, row_stock r).
Definition trade_key (t : TradeRecord) : key := (end_time_hour t, stock t).

(** The sum pandas keeps per group: it starts from zero, takes the rows
    in their order, and leaves NaN entries of a float column out. *)
Definition nan_add (acc v : float) : float :=
  if is_nan v then acc else fadd acc v.

Definition group_add (m : gmap key (float * Z)) (r : key * (float * Z))
    : gmap key (float * Z) :=
  let cur := default (fzero, 0) (m !! r.1) in
  <[r.1 := (nan_add cur.1 r.2.1, cur.2 + r.2.2)]> m.

(** [groupby(keys)[['total_value', 'shares']].sum()]: one row per
    distinct key, the rows sorted by key. *)
Definition groupby_sum (rows : list (key * (float * Z))) : list GroupRow :=
  map (fun e => {| g_key := e.1; g_total_value := e.2.1; g_shares := e.2.2 |})
    (merge_sort (fun a b => key_le a.1 b.1)
       (map_to_list (foldl group_add ∅ rows))).

(** [sort_values(['end_time_hour', 'stock'], ascending = [True, True])] *)
Definition sort_values (rows : list (GroupRow * float)) : list (GroupRow * float) :=
  merge_sort (fun a b => key_le (g_key a.1) (g_key b.1)) rows.

(** [groupby(stock)[column].cumsum()]: the running sum of the column
    within each stock, row by row; on a float column a NaN entry stays
    NaN and is left out of the running sum. *)
Fixpoint group_cumsum_float (acc : gmap string float)
    (rows : list (string * float)) : list float :=
  match rows with
  | [] => []
  | (s, v) :: rest =>
      if is_nan v then S754_nan :: group_cumsum_float acc rest
      else
        let a := fadd (default fzero (acc !! s)) v in
        a :: group_cumsum_float (<[s := a]> acc) rest
  end.

Fixpoint group_cumsum_int (acc : gmap string Z)
    (rows : list (string * Z)) : list Z :=
  match rows with
  | [] => []
  | (s, v) :: rest =>
      let a := default 0 (acc !! s) + v in
      a :: group_cumsum_int (<[s := a]> acc) rest
  end.

(** [round(a / b, 3)] on a float column and an integer column. *)
Definition vwap_of (total_value : float) (n : Z) : float :=
  np_round3 (fdiv total_value (float_of_Z n)).

(** [trade_df['price'] * trade_df['shares']] *)
Definition total_value_column (rows : list TradeRecord) : list float :=
  map (fun t => fmul (price t) (float_of_Z (shares t))) rows.

(** The table computed from the rows and their [total_value] column. *)
Definition vwap_table (rows : list TradeRecord) (tv : list float) : list VWAPRow :=
  let grouped :=
    groupby_sum (zip_with (fun t v => (trade_key t, (v, shares t))) rows tv) in
  let with_vwap :=
    map (fun g => (g, vwap_of (g_total_value g) (g_shares g))) grouped in
  let sorted := sort_values with_vwap in
  let cum_total_value :=
    group_cumsum_float ∅ (map (fun r => ((g_key r.1).2, g_total_value r.1)) sorted) in
  let cum_shares :=
    group_cumsum_int ∅ (map (fun r => ((g_key r.1).2, g_shares r.1)) sorted) in
  zip_with (fun r c =>
      {| row_end_time_hour := (g_key r.1).1;
         row_stock := (g_key r.1).2;
         row_total_value := g_total_value r.1;
         row_shares := g_shares r.1;
         row_vwap := r.2;
         row_cum_total_value := c.1;
         row_cum_shares := c.2;
         row_cum_vwap := vwap_of c.1 c.2 |})
    sorted (zip cum_total_value cum_shares).

(** [calculate_VWAP(trade_df)]: the first statement adds the column
    [total_value] to the DataFrame it was given; every later statement
    binds the name to a new table. *)
Definition calculate_VWAP (trade_df : nat) : M (list VWAPRow) :=
  df ← deref trade_df;
  let tv := total_value_column (df_rows df) in
  _ ← store trade_df {| df_rows := df_rows df; df_total_value := Some tv |};
  mret (vwap_table (df_rows df) tv).

Definition attribute (a : option nat) : M nat :=
  match a with
  | Some l => mret l
  | None => raise TypeError
  end.

Definition get_VWAP_df (include_cross_trade : bool) : M (list VWAPRow) :=
  w ← get_world;
  _ ← (if bool_decide (self_trade_df w = None)
          || bool_decide (self_cross_trade_df w = None)
       then
         dfs ← get_trade_data;
         _ ← assign_trade_df dfs.1;
         assign_cross_trade_df dfs.2
       else mret tt);
  w ← get_world;
  total_trade_df ←
    (if include_cross_trade then
       t ← attribute (self_trade_df w);
       a ← df_copy t;
       c ← attribute (self_cross_trade_df w);
       b ← df_copy c;
       pd_concat a b
     else
       t ← attribute (self_trade_df w);
       df_copy t);
  calculate_VWAP total_trade_df.

(** ** The dispatcher as a function of the unread bytes *)

Definition opened (r : bytes) : handle := {| h_rest := r; h_closed := false |}.

(** The handle [f] is open and has [r] left to read. *)
Definition open_at (f : nat) (r : bytes) (w : world) : Prop :=
  handles w !! f = Some (opened r).

(** The world after the handle [f] has moved on to [r]. *)
Definition advance (f : nat) (r : bytes) (w : world) : world :=
  set_handles (<[f := opened r]> (handles w)) w.

(** What [dispatch] does to the unread bytes [r] and to the two lists. *)
Definition dispatch_bytes (msg_type r : bytes)
    (trade_list cross_trade_list : list TradeRecord) : result trade_lists * bytes :=
  let skip n := (Ok (trade_list, cross_trade_list), skipn n r) in
  if bytes_eqb msg_type ["S"%byte] then skip 13%nat
  else if bytes_eqb msg_type ["R"%byte] then skip 40%nat
  else if bytes_eqb msg_type ["H"%byte] then skip 26%nat
  else if bytes_eqb msg_type ["Y"%byte] then skip 21%nat
  else if bytes_eqb msg_type ["L"%byte] then skip 27%nat
  else if bytes_eqb msg_type ["V"%byte] then skip 36%nat
  else if bytes_eqb msg_type ["W"%byte] then skip 13%nat
  else if bytes_eqb msg_type ["K"%byte] then skip 29%nat
  else if bytes_eqb msg_type ["J"%byte] then skip 36%nat
  else if bytes_eqb msg_type ["h"%byte] then skip 22%nat
  else if bytes_eqb msg_type ["A"%byte] then skip 37%nat
  else if bytes_eqb msg_type ["F"%byte] then skip 41%nat
  else if bytes_eqb msg_type ["E"%byte] then skip 32%nat
  else if bytes_eqb msg_type ["C"%byte] then skip 37%nat
  else if bytes_eqb msg_type ["X"%byte] then skip 24%nat
  else if bytes_eqb msg_type ["D"%byte] then skip 20%nat
  else if bytes_eqb msg_type ["U"%byte] then skip 36%nat
  else if bytes_eqb msg_type ["P"%byte] then
    match trade_message (firstn 43 r) with
    | Ok record => (Ok (trade_list ++ [record], cross_trade_list), skipn 2 (skipn 43 r))
    | Err e => (Err e, skipn 43 r)
    end
  else if bytes_eqb msg_type ["Q"%byte] then
    match cross_trade_message (firstn 39 r) with
    | Ok record => (Ok (trade_list, cross_trade_list ++ [record]), skipn 2 (skipn 39 r))
    | Err e => (Err e, skipn 39 r)
    end
  else if bytes_eqb msg_type ["B"%byte] then skip 20%nat
  else if bytes_eqb msg_type ["I"%byte] then skip 51%nat
  else (Ok (trade_list, cross_trade_list), r).

(** What [while_loop] does to the unread bytes and to the two lists. *)
Fixpoint parse (fuel : nat) (msg_type r : bytes)
    (trade_list cross_trade_list : list TradeRecord) : result trade_lists * bytes :=
  match msg_type with
  | [] => (Ok (trade_list, cross_trade_list), r)
  | _ :: _ =>
      match fuel with
      | O => (Err OutOfFuel, r)
      | S fuel' =>
          if existsb (bytes_eqb msg_type) valid_types then
            match dispatch_bytes msg_type r trade_list cross_trade_list with
            | (Ok lists, r') => parse fuel' (firstn 1 r') (skipn 1 r') lists.1 lists.2
            | (Err e, r') => (Err e, r')
            end
          else (Err AssertionError, r)
      end
  end.

(** The state at a message boundary: the next read is that of a type. *)
Definition parse_from (fuel : nat) (r : bytes)
    (trade_list cross_trade_list : list TradeRecord) : result trade_lists * bytes :=
  parse fuel (firstn 1 r) (skipn 1 r) trade_list cross_trade_list.

(** The world [get_trade_data] leaves: the handle it opened has [r] left
    unread, and on success the two new DataFrames are stored. *)
Definition after_get_trade_data (w : world) (r : bytes)
    (res : result trade_lists) : world :=
  match res with
  | Ok lists =>
      {| itch_data := itch_data w;
         heap := heap w ++ [frame lists.1; frame lists.2];
         handles := handles w ++ [opened r];
         self_trade_df := Some (length (heap w));
         self_cross_trade_df := Some (S (length (heap w))) |}
  | Err _ => set_handles (handles w ++ [opened r]) w
  end.

(** ** Messages and streams *)

(** The payload length of each message type, after the one-byte type:
    the bytes skipped for the 19 types without trade data, and payload
    plus two trailing bytes for [P] and [Q]. *)
Definition message_length (t : byte) : option nat :=
  match t with
  | "S" => Some 13 | "R" => Some 40 | "H" => Some 26 | "Y" => Some 21
  | "L" => Some 27 | "V" => Some 36 | "W" => Some 13 | "K" => Some 29
  | "J" => Some 36 | "h" => Some 22 | "A" => Some 37 | "F" => Some 41
  | "E" => Some 32 | "C" => Some 37 | "X" => Some 24 | "D" => Some 20
  | "U" => Some 36 | "P" => Some 45 | "Q" => Some 41 | "B" => Some 20
  | "I" => Some 51
  | _ => None
  end%byte%nat.

(** The records one message contributes to the two lists. *)
Definition message_records (m : bytes) : result trade_lists :=
  match m with
  | t :: body =>
      if Byte.eqb t "P" then r ← trade_message (firstn 43 body); Ok ([r], [])
      else if Byte.eqb t "Q" then r ← cross_trade_message (firstn 39 body); Ok ([], [r])
      else Ok ([], [])
  | [] => Ok ([], [])
  end.

(** A complete message: a known type, a payload of the full length, and
    for [P] and [Q] a payload the decoder accepts. *)
Definition well_formed (m : bytes) : bool :=
  match m with
  | t :: body =>
      match message_length t with
      | Some n => Nat.eqb (length body) n && is_Ok (message_records m)
      | None => false
      end
  | [] => false
  end.

Definition add_records (lists : trade_lists) (m : bytes) : trade_lists :=
  match message_records m with
  | Ok new => (lists.1 ++ new.1, lists.2 ++ new.2)
  | Err _ => lists
  end.

(** The records of a sequence of messages, in stream order. *)
Definition records_of (msgs : list bytes) : trade_lists :=
  foldl add_records ([], []) msgs.

(** The read of a [P] or [Q] payload came back short. *)
Definition payload_short (t : byte) (body : bytes) : bool :=
  (Byte.eqb t "P" && (length body <? 43)%nat)
  || (Byte.eqb t "Q" && (length body <? 39)%nat).

(** ** The table of [calculate_VWAP], in the words of the specification *)

(** A record one of the two decoders returns. *)
Definition decoded (t : TradeRecord) : Prop :=
  exists msg, trade_message msg = Ok t \/ cross_trade_message msg = Ok t.

(** The trades of one group, in the order of the input. *)
Definition group_of (k : key) (trades : list TradeRecord) : list TradeRecord :=
  filter (fun t => trade_key t = k) trades.

(** [price * shares] of one trade. *)
Definition trade_value (t : TradeRecord) : float :=
  fmul (price t) (float_of_Z (shares t)).

(** The sum of a list of floats, taken from zero in the order of the list. *)
Definition fsum (vs : list float) : float := foldl fadd fzero vs.

Definition zsum (ns : list Z) : Z := foldr Z.add 0 ns.

(** The rows of the table at or before the hour of [r], for its stock. *)
Definition day_to_date (r : VWAPRow) (out : list VWAPRow) : list VWAPRow :=
  filter (fun r' => row_stock r' = row_stock r
                    /\ row_end_time_hour r' <= row_end_time_hour r) out.

(** A float that is a number and carries no minus sign. *)
Definition nonneg (x : float) : bool :=
  match x with
  | S754_nan => false
  | S754_zero s | S754_infinity s | S754_finite s _ _ => negb s
  end.

(** Zero or a finite number, without a minus sign. *)
Definition finite_nonneg (x : float) : bool :=
  match x with
  | S754_zero s | S754_finite s _ _ => negb s
  | _ => false
  end.

(** ** The order on keys *)

#[global] Instance key_le_refl : Reflexive key_le.
Proof. intros [h s]. right. split; [reflexivity|]. cbn. reflexivity. Qed.

#[global] Instance key_le_trans : Transitive key_le.
Proof.
  intros [h1 s1] [h2 s2] [h3 s3]. unfold key_le. cbn.
  intros [H12|[-> H12]] [H23|[-> H23]]; try (left; lia).
  right. split; [reflexivity|]. etrans; eassumption.
Qed.

#[global] Instance key_le_total : Total key_le.
Proof.
  intros [h1 s1] [h2 s2]. unfold key_le. cbn.
  destruct (Z.lt_trichotomy h1 h2) as [?|[->|?]]; [auto|..|auto].
  destruct (total String.le s1 s2); auto.
Qed.

#[global] Instance key_le_antisym : AntiSymm (=) key_le.
Proof.
  intros [h1 s1] [h2 s2]. unfold key_le. cbn.
  intros [?|[-> H12]] [?|[? H21]]; try lia.
  f_equal. apply (anti_symm String.le); assumption.
Qed.

(** ** The tables [calculate_VWAP] goes through *)

(** The rows [groupby_sum] is given by [vwap_table]. *)
Definition keyed_rows (trades : list TradeRecord) : list (key * (float * Z)) :=
  map (fun t => (trade_key t, (trade_value t, shares t))) trades.

(** The accumulator of a group after the rows, from a given start. *)
Definition group_total (k : key) (start : float * Z)
    (rows : list (key * (float * Z))) : float * Z :=
  foldl (fun acc r => (nan_add acc.1 r.2.1, acc.2 + r.2.2)) start
    (filter (fun r => r.1 = k) rows).

(** The grouped and sorted rows [vwap_table] computes its running sums on. *)
Definition sorted_groups (trades : list TradeRecord) : list (GroupRow * float) :=
  sort_values
    (map (fun g => (g, vwap_of (g_total_value g) (g_shares g)))
       (groupby_sum (keyed_rows trades))).

Definition cum_total_values (trades : list TradeRecord) : list float :=
  group_cumsum_float ∅
    (map (fun x => ((g_key x.1).2, g_total_value x.1)) (sorted_groups trades)).

Definition cum_share_counts (trades : list TradeRecord) : list Z :=
  group_cumsum_int ∅
    (map (fun x => ((g_key x.1).2, g_shares x.1)) (sorted_groups trades)).

Definition make_row (x : GroupRow * float) (c : float * Z) : VWAPRow :=
  {| row_end_time_hour := (g_key x.1).1;
     row_stock := (g_key x.1).2;
     row_total_value := g_total_value x.1;
     row_shares := g_shares x.1;
     row_vwap := x.2;
     row_cum_total_value := c.1;
     row_cum_shares := c.2;
     row_cum_vwap := vwap_of c.1 c.2 |}.

(** The table [calculate_VWAP] returns for the rows of its argument. *)
Definition vwap_rows (trades : list TradeRecord) : list VWAPRow :=
  vwap_table trades (total_value_column trades).

(** A DataFrame after [calculate_VWAP] has added [total_value] to it. *)
Definition with_total_value (df : DataFrame) : DataFrame :=
  {| df_rows := df_rows df;
     df_total_value := Some (total_value_column (df_rows df)) |}.

(** ** Example streams and trades *)

Definition fresh_world (data : bytes) : world :=
  {| itch_data := data; heap := []; handles := [];
     self_trade_df := None; self_cross_trade_df := None |}.

Definition AAPL : bytes := ["A"; "A"; "P"; "L"; " "; " "; " "; " "]%byte.

(** A [P] message: locate 1, tracking 2, the timestamp, order reference
    77, side, shares, an 8-character symbol, price, match number 5. *)
Definition P_message (ts : Z) (side : byte) (n : Z) (sym : bytes) (p : Z) : bytes :=
  "P"%byte :: be_encode 2 1 ++ be_encode 2 2 ++ be_encode 6 ts ++ be_encode 8 77
    ++ [side] ++ be_encode 4 n ++ sym ++ be_encode 4 p ++ be_encode 8 5
    ++ [x00; x00].

(** A [Q] message: locate 1, tracking 2, the timestamp, shares, an
    8-character symbol, price, match number 5, cross type. *)
Definition Q_message (ts : Z) (n : Z) (sym : bytes) (p : Z) (cross : byte) : bytes :=
  "Q"%byte :: be_encode 2 1 ++ be_encode 2 2 ++ be_encode 6 ts ++ be_encode 8 n
    ++ sym ++ be_encode 4 p ++ be_encode 8 5 ++ [cross] ++ [x00; x00].

(** Two trades and a cross of AAPL: 100 shares at 100.0000 at 09:30:00,
    50 shares at 110.0000 in the opening cross at 09:30:00, 200 shares
    at 50.0000 at 10:15:00; an [S] message in between. *)
Definition example_messages : list bytes :=
  [P_message 34200000000000 "B" 100 AAPL 1000000;
   "S"%byte :: repeat x00 13;
   Q_message 34200000000000 50 AAPL 1100000 "O";
   P_message 36900000000000 "S" 200 AAPL 500000].

Definition example_stream : bytes := [x00; x00] ++ concat example_messages.

(** The world after the example stream has been decoded. *)
Definition example_world : world := (get_trade_data (fresh_world example_stream)).2.

Definition zero_share_stream : bytes :=
  [x00; x00] ++ P_message 34200000000000 "B" 0 AAPL 1000000.

Definition sample_trade (h : Z) (sym : string) (n p : Z) : TradeRecord :=
  {| time := ""; end_time_hour := h; type := "B"; shares := n; stock := sym;
     price := price_of p |}.

(** The time string and [end_time_hour] of a timestamp, in one step. *)
Definition hour_bucket_of (ts : Z) : result (string * Z) :=
  time_str ← time_str_of ts;
  end_time_hour ← end_time_hour_of time_str;
  Ok (time_str, end_time_hour).

(** ** The text of a time of day *)

(** [H:MM:SS] for a number of seconds since midnight: the text
    [str(timedelta)] has for a duration of less than a day without
    microseconds. *)
Definition clock (s : Z) : string :=
  fmt_d (s / 3600) +:+ ":" +:+ fmt_0d 2 (s / 60 mod 60) +:+ ":" +:+ fmt_0d 2 (s mod 60).

(** ** Messages by type *)

(** The message starts with the type byte [t]. *)
Definition is_type (t : byte) (m : bytes) : bool :=
  match m with
  | c :: _ => Byte.eqb c t
  | [] => false
  end.

(** A message that carries a trade: type [P] or [Q]. *)
Definition is_trade (m : bytes) : bool := is_type "P" m || is_type "Q" m.

(** The first [n] bytes behind the type byte. *)
Definition payload (n : nat) (m : bytes) : bytes := firstn n (skipn 1 m).

(** ** The payloads of the two trade messages *)

(** The 43 bytes of a [P] payload in the layout of ITCH 5.0: stock
    locate, tracking number, timestamp, order reference, side, shares,
    stock, price and match number, the integers big-endian. *)
Definition encode_P (locate tracking ts ref : Z) (side : byte) (n : Z)
    (sym : bytes) (p match_number : Z) : bytes :=
  be_encode 2 locate ++ be_encode 2 tracking ++ be_encode 6 ts ++ be_encode 8 ref
    ++ [side] ++ be_encode 4 n ++ sym ++ be_encode 4 p ++ be_encode 8 match_number.

(** The 39 bytes of a [Q] payload: stock locate, tracking number,
    timestamp, shares, stock, cross price, match number and cross type. *)
Definition encode_Q (locate tracking ts n : Z) (sym : bytes)
    (p match_number : Z) (cross : byte) : bytes :=
  be_encode 2 locate ++ be_encode 2 tracking ++ be_encode 6 ts ++ be_encode 8 n
    ++ sym ++ be_encode 4 p ++ be_encode 8 match_number ++ [cross].

(** * Properties *)

(** ** Big-endian integers and the [struct] round trip *)

Lemma byte_val_range b : 0 <= byte_val b < 256.
Proof.
  unfold byte_val. pose proof (Byte.to_N_bounded b) as H.
  split; [apply N2Z.is_nonneg|]. lia.
Qed.

Lemma byte_of_Z_val b : byte_of_Z (byte_val b) = b.
Proof.
  unfold byte_of_Z, byte_val. rewrite N2Z.id, Byte.of_to_N. reflexivity.
Qed.

Lemma be_decode_snoc bs b : be_decode (bs ++ [b]) = be_decode bs * 256 + byte_val b.
Proof. unfold be_decode. rewrite fold_left_app. reflexivity. Qed.

Lemma be_decode_range bs : 0 <= be_decode bs < 256 ^ Z.of_nat (length bs).
Proof.
  induction bs as [|b bs IH] using rev_ind.
  - cbn. lia.
  - rewrite be_decode_snoc, length_app, Nat2Z.inj_add, Z.pow_add_r by lia.
    pose proof (byte_val_range b). cbn [length Z.of_nat Pos.of_succ_nat Pos.succ].
    change (256 ^ 1) with 256. nia.
Qed.

Lemma be_encode_decode bs : be_encode (length bs) (be_decode bs) = bs.
Proof.
  induction bs as [|b bs IH] using rev_ind; [reflexivity|].
  rewrite length_app, Nat.add_comm. cbn [length Nat.add be_encode].
  rewrite be_decode_snoc. pose proof (byte_val_range b).
  replace ((be_decode bs * 256 + byte_val b) / 256) with (be_decode bs)
    by (apply Z.div_unique with (byte_val b); lia).
  replace ((be_decode bs * 256 + byte_val b) mod 256) with (byte_val b)
    by (apply Z.mod_unique with (be_decode bs); lia).
  rewrite IH, byte_of_Z_val. reflexivity.
Qed.

(** Zero bytes in front do not change the big-endian value. *)
Lemma be_decode_zero_prefix n bs : be_decode (repeat x00 n ++ bs) = be_decode bs.
Proof.
  unfold be_decode. rewrite fold_left_app. f_equal.
  induction n as [|n IH]; [reflexivity|]. exact IH.
Qed.

(** Packing an integer field that was just unpacked gives its bytes back. *)
Lemma pack_unpacked_int it b :
  item_size it = length b ->
  match it with FH | FI | FQ => True | _ => False end ->
  pack_item it (VInt (be_decode b)) = Ok b.
Proof.
  intros Hlen Hint. pose proof (be_decode_range b) as Hr.
  destruct it; try contradiction; cbn [pack_item];
    rewrite Hlen;
    (destruct (0 <=? be_decode b) eqn:E1; [|lia]);
    (destruct (be_decode b <? 256 ^ Z.of_nat (length b)) eqn:E2; [|lia]);
    cbn [andb]; rewrite be_encode_decode; reflexivity.
Qed.

(** ** The fields the decoders read *)

(** What the unpack, pack, unpack sequence of [trade_message] yields:
    each field is read off the 43 bytes of the message at its offset. *)
Lemma trade_fields_direct msg :
  trade_fields msg =
  if Nat.eqb (length msg) 43 then
    Ok [VInt (be_decode (slice 0 2 msg)); VInt (be_decode (slice 2 4 msg));
        VInt (be_decode (slice 4 10 msg)); VInt (be_decode (slice 10 18 msg));
        VBytes (slice 18 19 msg); VInt (be_decode (slice 19 23 msg));
        VBytes (slice 23 31 msg); VInt (be_decode (slice 31 35 msg));
        VInt (be_decode (slice 35 43 msg))]
  else Err StructError.
Proof.
  destruct (Nat.eqb (length msg) 43) eqn:Hlen.
  2:{ unfold trade_fields, struct_unpack. change (calcsize fmt_P_in) with 43%nat.
      rewrite Hlen. reflexivity. }
  apply Nat.eqb_eq in Hlen.
  do 43 (destruct msg as [|? msg]; [discriminate Hlen|]).
  destruct msg; [|discriminate Hlen]. clear Hlen.
  unfold trade_fields.
  cbn -[be_decode be_encode pack_item].
  rewrite !pack_unpacked_int by (reflexivity || exact I).
  reflexivity.
Qed.

Lemma cross_trade_fields_direct msg :
  cross_trade_fields msg =
  if Nat.eqb (length msg) 39 then
    Ok [VInt (be_decode (slice 0 2 msg)); VInt (be_decode (slice 2 4 msg));
        VInt (be_decode (slice 4 10 msg)); VInt (be_decode (slice 10 18 msg));
        VBytes (slice 18 26 msg); VInt (be_decode (slice 26 30 msg));
        VInt (be_decode (slice 30 38 msg)); VBytes (slice 38 39 msg)]
  else Err StructError.
Proof.
  destruct (Nat.eqb (length msg) 39) eqn:Hlen.
  2:{ unfold cross_trade_fields, struct_unpack. change (calcsize fmt_Q_in) with 39%nat.
      rewrite Hlen. reflexivity. }
  apply Nat.eqb_eq in Hlen.
  do 39 (destruct msg as [|? msg]; [discriminate Hlen|]).
  destruct msg; [|discriminate Hlen]. clear Hlen.
  unfold cross_trade_fields.
  cbn -[be_decode be_encode pack_item].
  rewrite !pack_unpacked_int by (reflexivity || exact I).
  reflexivity.
Qed.


Lemma slice_length {A} i j (l : list A) : (length (slice i j l) <= j - i)%nat.
Proof. unfold slice. rewrite length_firstn. lia. Qed.

(** C9. Putting two zero bytes in front of the timestamp field and
    decoding the eight bytes as a big-endian unsigned integer gives the
    big-endian value of the field itself; so the timestamp either decoder
    works with is the 48-bit big-endian value of bytes 4 to 9 of the
    message (and a message of any other length than 43, respectively 39,
    bytes is refused). *)
Theorem timestamp_padding_is_direct_decode :
  (forall field : bytes, be_decode ([x00; x00] ++ field) = be_decode field) /\
  (forall msg : bytes,
     0 <= be_decode (slice 4 10 msg) < 2 ^ 48 /\
     trade_fields msg ≫= (fun record => item record 2) =
       (if Nat.eqb (length msg) 43
        then Ok (VInt (be_decode (slice 4 10 msg)))
        else Err StructError) /\
     cross_trade_fields msg ≫= (fun record => item record 2) =
       (if Nat.eqb (length msg) 39
        then Ok (VInt (be_decode (slice 4 10 msg)))
        else Err StructError)).
Proof.
  split.
  - intros field. exact (be_decode_zero_prefix 2 field).
  - intros msg. split; [|split].
    + pose proof (be_decode_range (slice 4 10 msg)) as Hr.
      pose proof (slice_length 4 10 msg) as Hl.
      split; [lia|]. eapply Z.lt_le_trans; [apply Hr|].
      change (2 ^ 48) with (256 ^ 6). apply Z.pow_le_mono_r; lia.
    + rewrite trade_fields_direct.
      destruct (Nat.eqb (length msg) 43); reflexivity.
    + rewrite cross_trade_fields_direct.
      destruct (Nat.eqb (length msg) 39); reflexivity.
Qed.

Lemma M_bind_eq {A B} (c : M A) (k : A -> M B) w :
  (c ≫= k) w =
  match c w with
  | (Ok a, w') => k a w'
  | (Err e, w') => (Err e, w')
  end.
Proof. reflexivity. Qed.

(** Expose the first statement of a sequence run from a given world. *)
Ltac mstep :=
  match goal with
  | |- context [@mbind M M_bind ?A ?B ?k ?c ?w] => rewrite (@M_bind_eq A B c k w)
  end.

Lemma open_at_lt f r w : open_at f r w -> (f < length (handles w))%nat.
Proof. intros H. eapply lookup_lt_Some, H. Qed.

Lemma read_open f n r w :
  open_at f r w -> read f n w = (Ok (firstn n r), advance f (skipn n r) w).
Proof. intros H. unfold read. rewrite H. reflexivity. Qed.

Lemma open_at_advance f r r' w : open_at f r w -> open_at f r' (advance f r' w).
Proof.
  intros H. unfold open_at, advance, set_handles. cbn.
  apply list_lookup_insert_eq. eapply open_at_lt, H.
Qed.

Lemma advance_advance f r1 r2 w : advance f r2 (advance f r1 w) = advance f r2 w.
Proof.
  unfold advance, set_handles. cbn. f_equal. apply list_insert_insert_eq.
Qed.

Lemma advance_same f r w : open_at f r w -> advance f r w = w.
Proof.
  intros H. unfold advance, set_handles. rewrite list_insert_id by exact H.
  destruct w; reflexivity.
Qed.

Lemma dispatch_open f r w msg_type tl ctl :
  open_at f r w ->
  dispatch f msg_type tl ctl w =
  ((dispatch_bytes msg_type r tl ctl).1,
   advance f (dispatch_bytes msg_type r tl ctl).2 w).
Proof.
  intros H. unfold dispatch, dispatch_bytes.
  repeat match goal with
  | |- context [if bytes_eqb ?a ?b then _ else _] => destruct (bytes_eqb a b)
  end;
  try (mstep; rewrite (read_open _ _ _ _ H); reflexivity).
  - mstep; rewrite (read_open _ _ _ _ H).
    mstep. unfold lift.
    destruct (trade_message (firstn 43 r)) as [record|e]; [|reflexivity].
    mstep; rewrite (read_open _ _ (skipn 43 r)) by (eapply open_at_advance, H).
    rewrite advance_advance. reflexivity.
  - mstep; rewrite (read_open _ _ _ _ H).
    mstep. unfold lift.
    destruct (cross_trade_message (firstn 39 r)) as [record|e]; [|reflexivity].
    mstep; rewrite (read_open _ _ (skipn 39 r)) by (eapply open_at_advance, H).
    rewrite advance_advance. reflexivity.
  - cbn. rewrite advance_same by exact H. reflexivity.
Qed.

Lemma while_loop_parse fuel : forall f r w msg_type tl ctl,
  open_at f r w ->
  while_loop fuel f msg_type tl ctl w =
  ((parse fuel msg_type r tl ctl).1, advance f (parse fuel msg_type r tl ctl).2 w).
Proof.
  induction fuel as [|fuel IH]; intros f r w msg_type tl ctl H.
  - destruct msg_type; cbn; rewrite advance_same by exact H; reflexivity.
  - destruct msg_type as [|t mt].
    { cbn. rewrite advance_same by exact H. reflexivity. }
    cbn [while_loop parse]. mstep.
    destruct (existsb (bytes_eqb (t :: mt)) valid_types).
    2:{ cbn. rewrite advance_same by exact H. reflexivity. }
    cbn [py_assert]. unfold mret, M_ret. unfold mret, M_ret; cbv iota beta.
    mstep; rewrite (dispatch_open _ _ _ _ _ _ H).
    destruct (dispatch_bytes (t :: mt) r tl ctl) as [[lists|e] r']; cbn [fst snd]; [|reflexivity].
    assert (H' : open_at f r' (advance f r' w)) by (eapply open_at_advance, H).
    mstep; rewrite (read_open _ _ _ _ H').
    rewrite advance_advance.
    rewrite (IH f (skipn 1 r') _ _ _ _ (open_at_advance _ _ _ _ H)).
    rewrite advance_advance. reflexivity.
Qed.

Lemma get_trade_data_parse w :
  let p := parse_from (length (itch_data w)) (skipn 2 (itch_data w)) [] [] in
  get_trade_data w =
  (match p.1 with
   | Ok _ => Ok (length (heap w), S (length (heap w)))
   | Err e => Err e
   end,
   after_get_trade_data w p.2 p.1).
Proof.
  cbv zeta. unfold get_trade_data, parse_from.
  set (f := length (handles w)). set (data := itch_data w).
  mstep. unfold gzip_open. fold f. fold data.
  set (w1 := set_handles (handles w ++ [opened data]) w).
  change {| h_rest := data; h_closed := false |} with (opened data). fold w1.
  assert (H1 : open_at f data w1).
  { unfold open_at, w1, set_handles, f. cbn. apply list_lookup_middle. reflexivity. }
  assert (Hadv : forall r, advance f r w1 = set_handles (handles w ++ [opened r]) w).
  { intros r. unfold advance, w1, set_handles, f. cbn. f_equal.
    rewrite insert_app_r_alt by lia. rewrite Nat.sub_diag. reflexivity. }
  mstep; rewrite (read_open _ _ _ _ H1).
  assert (H2 : open_at f (skipn 2 data) (advance f (skipn 2 data) w1))
    by (eapply open_at_advance, H1).
  mstep; rewrite (read_open _ _ _ _ H2), advance_advance.
  assert (H3 : open_at f (skipn 1 (skipn 2 data)) (advance f (skipn 1 (skipn 2 data)) w1))
    by (eapply open_at_advance, H1).
  mstep. unfold get_world at 1. cbv iota beta.
  mstep; rewrite (while_loop_parse _ _ _ _ _ _ _ H3), advance_advance.
  assert (Hd : itch_data (advance f (drop 1 (drop 2 data)) w1) = data) by reflexivity.
  rewrite Hd.
  destruct (parse (length data) (take 1 (drop 2 data)) (drop 1 (drop 2 data)) [] [])
    as [[lists|e] r']; cbn [fst snd after_get_trade_data].
  - rewrite Hadv.
    unfold pd_DataFrame, new_frame, assign_trade_df, assign_cross_trade_df,
      mbind, M_bind, mret, M_ret, set_heap, set_handles. cbn.
    rewrite length_app, Nat.add_1_r, <- app_assoc. reflexivity.
  - rewrite Hadv. reflexivity.
Qed.

Lemma parse_from_nil fuel tl ctl : parse_from fuel [] tl ctl = (Ok (tl, ctl), []).
Proof. destruct fuel; reflexivity. Qed.

Lemma valid_type_length t :
  existsb (bytes_eqb [t]) valid_types = true <-> is_Some (message_length t).
Proof.
  destruct t; cbn; split; intros H; try discriminate H; try reflexivity;
    try (eexists; reflexivity); destruct H as [? H]; discriminate H.
Qed.

Lemma dispatch_bytes_skip t n r tl ctl :
  message_length t = Some n -> t <> "P"%byte -> t <> "Q"%byte ->
  dispatch_bytes [t] r tl ctl = (Ok (tl, ctl), skipn n r).
Proof.
  intros Hn HP HQ.
  destruct t; try discriminate Hn; try congruence;
    injection Hn as <-; reflexivity.
Qed.

Lemma dispatch_bytes_P r tl ctl :
  dispatch_bytes ["P"%byte] r tl ctl =
  match trade_message (firstn 43 r) with
  | Ok record => (Ok (tl ++ [record], ctl), skipn 2 (skipn 43 r))
  | Err e => (Err e, skipn 43 r)
  end.
Proof. reflexivity. Qed.

Lemma dispatch_bytes_Q r tl ctl :
  dispatch_bytes ["Q"%byte] r tl ctl =
  match cross_trade_message (firstn 39 r) with
  | Ok record => (Ok (tl, ctl ++ [record]), skipn 2 (skipn 39 r))
  | Err e => (Err e, skipn 39 r)
  end.
Proof. reflexivity. Qed.

Lemma parse_step fuel t r tl ctl :
  parse (S fuel) [t] r tl ctl =
  if existsb (bytes_eqb [t]) valid_types then
    match dispatch_bytes [t] r tl ctl with
    | (Ok lists, r') => parse_from fuel r' lists.1 lists.2
    | (Err e, r') => (Err e, r')
    end
  else (Err AssertionError, r).
Proof. reflexivity. Qed.

Lemma parse_from_cons fuel t r tl ctl :
  parse_from fuel (t :: r) tl ctl = parse fuel [t] r tl ctl.
Proof. reflexivity. Qed.

(** One complete message takes the dispatcher from one boundary to the
    next and adds its records. *)
Lemma parse_from_message m rest fuel tl ctl :
  well_formed m = true ->
  parse_from (S fuel) (m ++ rest) tl ctl =
  parse_from fuel rest (add_records (tl, ctl) m).1 (add_records (tl, ctl) m).2.
Proof.
  destruct m as [|t body]; [discriminate|]. unfold well_formed.
  destruct (message_length t) as [n|] eqn:Hn; [|discriminate].
  intros [Hlen Hok]%andb_true_iff. apply Nat.eqb_eq in Hlen.
  cbn [app]. rewrite parse_from_cons, parse_step.
  assert (Hv : existsb (bytes_eqb [t]) valid_types = true)
    by (apply valid_type_length; rewrite Hn; eexists; reflexivity).
  rewrite Hv. unfold add_records.
  destruct (Byte.eqb t "P") eqn:EP; [|destruct (Byte.eqb t "Q") eqn:EQ].
  - apply Byte.byte_dec_bl in EP. subst t. injection Hn as <-.
    rewrite dispatch_bytes_P. cbn [message_records] in *.
    change (Byte.eqb "P" "P") with true in *. cbv iota in *.
    rewrite take_app_le by lia.
    destruct (trade_message (take 43 body)) as [record|e]; [|discriminate Hok].
    cbn. rewrite drop_drop. change (43 + 2)%nat with 45%nat.
    rewrite <- Hlen, drop_app_length, app_nil_r. reflexivity.
  - apply Byte.byte_dec_bl in EQ. subst t. injection Hn as <-.
    rewrite dispatch_bytes_Q. cbn [message_records] in *.
    change (Byte.eqb "Q" "P") with false in *.
    change (Byte.eqb "Q" "Q") with true in *. cbv iota in *.
    rewrite take_app_le by lia.
    destruct (cross_trade_message (take 39 body)) as [record|e]; [|discriminate Hok].
    cbn. rewrite drop_drop. change (39 + 2)%nat with 41%nat.
    rewrite <- Hlen, drop_app_length, app_nil_r. reflexivity.
  - rewrite (dispatch_bytes_skip t n) by
      (try exact Hn; intros ->; discriminate).
    cbn [message_records]. rewrite EP, EQ. cbn [fst snd].
    rewrite !app_nil_r, <- Hlen, drop_app_length. reflexivity.
Qed.

Lemma records_of_snoc msgs m :
  records_of (msgs ++ [m]) = add_records (records_of msgs) m.
Proof. unfold records_of. rewrite foldl_snoc. reflexivity. Qed.

(** A run of complete messages takes the dispatcher to the boundary
    behind them, with their records collected. *)
Lemma parse_from_messages msgs : forall rest fuel lists,
  Forall (fun m => well_formed m = true) msgs ->
  parse_from (length msgs + fuel) (concat msgs ++ rest) lists.1 lists.2 =
  parse_from fuel rest (foldl add_records lists msgs).1 (foldl add_records lists msgs).2.
Proof.
  induction msgs as [|m msgs IH]; intros rest fuel lists Hwf; [reflexivity|].
  inversion Hwf as [|? ? Hm Hms]; subst.
  cbn [concat length Nat.add foldl]. rewrite <- app_assoc.
  rewrite parse_from_message by exact Hm.
  destruct lists as [tl ctl]. apply (IH rest fuel (add_records (tl, ctl) m) Hms).
Qed.

Lemma well_formed_nonempty m : well_formed m = true -> (1 <= length m)%nat.
Proof. destruct m; [discriminate|]. cbn. lia. Qed.

Lemma concat_length_ge msgs :
  Forall (fun m => well_formed m = true) msgs ->
  (length msgs <= length (concat msgs))%nat.
Proof.
  induction 1 as [|m msgs Hm _ IH]; [reflexivity|].
  cbn [concat length]. rewrite length_app.
  apply well_formed_nonempty in Hm. lia.
Qed.

(** [get_trade_data] on a stream that starts with the two framing bytes
    and a run of complete messages: what is left to do is to parse the
    rest of the stream from the boundary behind them. *)
Lemma get_trade_data_stream w pre msgs tail :
  length pre = 2%nat ->
  Forall (fun m => well_formed m = true) msgs ->
  itch_data w = pre ++ concat msgs ++ tail ->
  let p := parse_from (2 + length tail + (length (concat msgs) - length msgs)) tail
             (records_of msgs).1 (records_of msgs).2 in
  get_trade_data w =
  (match p.1 with
   | Ok _ => Ok (length (heap w), S (length (heap w)))
   | Err e => Err e
   end,
   after_get_trade_data w p.2 p.1).
Proof.
  intros Hpre Hwf Hdata. cbv zeta. rewrite get_trade_data_parse. cbv zeta.
  rewrite Hdata.
  assert (Hdrop : drop 2 (pre ++ concat msgs ++ tail) = concat msgs ++ tail)
    by (rewrite <- Hpre; apply drop_app_length).
  rewrite !Hdrop.
  pose proof (concat_length_ge msgs Hwf) as Hge.
  replace (length (pre ++ concat msgs ++ tail))
    with (length msgs + (2 + length tail + (length (concat msgs) - length msgs)))%nat
    by (rewrite !length_app; lia).
  rewrite (parse_from_messages msgs tail _ ([], []) Hwf). reflexivity.
Qed.

Lemma parse_ok_exhausted fuel : forall msg_type r tl ctl lists r',
  parse fuel msg_type r tl ctl = (Ok lists, r') ->
  (msg_type = [] -> r = []) ->
  r' = [].
Proof.
  induction fuel as [|fuel IH]; intros msg_type r tl ctl lists r' Hp Hr.
  - destruct msg_type; cbn in Hp; [|discriminate]. injection Hp as _ <-. auto.
  - destruct msg_type as [|t mt]; cbn [parse] in Hp.
    { injection Hp as _ <-. auto. }
    destruct (existsb (bytes_eqb (t :: mt)) valid_types); [|discriminate].
    destruct (dispatch_bytes (t :: mt) r tl ctl) as [[l1|e] r1]; [|discriminate].
    apply IH in Hp; [exact Hp|].
    destruct r1; [reflexivity|discriminate].
Qed.

Lemma unknown_type_invalid t :
  ~ In t known_types -> existsb (bytes_eqb [t]) valid_types = false.
Proof.
  intros H. destruct (existsb (bytes_eqb [t]) valid_types) eqn:E; [|reflexivity].
  exfalso. apply H. clear H.
  destruct t; try discriminate E; cbn; tauto.
Qed.

(** C4. A type byte outside the 21 known types at a message boundary
    (behind the two framing bytes and any run of complete messages)
    makes [get_trade_data] fail on its [assert]: no DataFrame is
    created, so nothing is returned, and the attributes [trade_df] and
    [cross_trade_df] of the object keep their values. *)
Theorem unknown_type_fails_whole_parse (w : world) (pre : bytes)
    (msgs : list bytes) (t : byte) (rest : bytes) :
  length pre = 2%nat ->
  Forall (fun m => well_formed m = true) msgs ->
  ~ In t known_types ->
  itch_data w = pre ++ concat msgs ++ t :: rest ->
  (get_trade_data w).1 = Err AssertionError /\
  heap (get_trade_data w).2 = heap w /\
  self_trade_df (get_trade_data w).2 = self_trade_df w /\
  self_cross_trade_df (get_trade_data w).2 = self_cross_trade_df w.
Proof.
  intros Hpre Hwf Ht Hdata.
  rewrite (get_trade_data_stream w pre msgs (t :: rest) Hpre Hwf Hdata).
  cbn [Nat.add]. rewrite parse_from_cons, parse_step.
  rewrite (unknown_type_invalid t Ht). cbn. auto.
Qed.

Lemma unknown_type_fails_whole_parse_witness :
  let w := fresh_world ([x00; x00] ++ P_message 14430000000000 "B" 100 AAPL 1000000 ++ [x00]) in
  (get_trade_data w).1 = Err AssertionError /\
  heap (get_trade_data w).2 = heap w /\
  self_trade_df (get_trade_data w).2 = self_trade_df w /\
  self_cross_trade_df (get_trade_data w).2 = self_cross_trade_df w.
Proof.
  apply (unknown_type_fails_whole_parse _ [x00; x00]
           [P_message 14430000000000 "B" 100 AAPL 1000000] x00 []).
  - reflexivity.
  - repeat constructor.
  - cbn. intuition discriminate.
  - reflexivity.
Defined.

(** [get_trade_data] only returns at the end of the stream, and leaves
    the handle it opened open. *)
Lemma get_trade_data_ok_exhausted w v :
  (get_trade_data w).1 = Ok v ->
  open_at (length (handles w)) [] (get_trade_data w).2.
Proof.
  rewrite get_trade_data_parse. cbv zeta. cbn [fst snd].
  destruct (parse_from (length (itch_data w)) (drop 2 (itch_data w)) [] [])
    as [[lists|e] r'] eqn:Hp; cbn [fst snd]; [|discriminate].
  intros _. unfold parse_from in Hp. apply parse_ok_exhausted in Hp.
  - subst r'. unfold open_at. cbn. apply list_lookup_middle. reflexivity.
  - destruct (drop 2 (itch_data w)); [reflexivity|discriminate].
Qed.


Lemma trade_message_short msg :
  length msg <> 43%nat -> trade_message msg = Err StructError.
Proof.
  intros H. unfold trade_message. rewrite trade_fields_direct.
  destruct (Nat.eqb (length msg) 43) eqn:E; [apply Nat.eqb_eq in E; lia|reflexivity].
Qed.

Lemma cross_trade_message_short msg :
  length msg <> 39%nat -> cross_trade_message msg = Err StructError.
Proof.
  intros H. unfold cross_trade_message. rewrite cross_trade_fields_direct.
  destruct (Nat.eqb (length msg) 39) eqn:E; [apply Nat.eqb_eq in E; lia|reflexivity].
Qed.

Lemma known_type_valid t n :
  message_length t = Some n -> existsb (bytes_eqb [t]) valid_types = true.
Proof. intros H. apply valid_type_length. rewrite H. eexists; reflexivity. Qed.

(** The dispatcher at a last message that is cut short. *)
Lemma parse_from_short fuel t n body tl ctl :
  message_length t = Some n -> (length body < n)%nat ->
  parse_from (S fuel) (t :: body) tl ctl =
  if payload_short t body then
    (Err StructError, [])
  else
    match message_records (t :: body) with
    | Ok new => (Ok (tl ++ new.1, ctl ++ new.2), [])
    | Err e => (Err e, skipn (if Byte.eqb t "P" then 43 else 39) body)
    end.
Proof.
  intros Hn Hlen. rewrite parse_from_cons, parse_step, (known_type_valid t n Hn).
  unfold payload_short. cbn [message_records].
  destruct (Byte.eqb t "P") eqn:EP; [|destruct (Byte.eqb t "Q") eqn:EQ].
  - apply Byte.byte_dec_bl in EP. subst t. injection Hn as <-.
    rewrite dispatch_bytes_P. cbn [andb orb].
    destruct (length body <? 43)%nat eqn:E.
    + apply Nat.ltb_lt in E.
      rewrite trade_message_short by (rewrite length_take; lia).
      rewrite drop_ge by lia. reflexivity.
    + destruct (trade_message (take 43 body)) as [record|e]; [|reflexivity].
      cbn. rewrite drop_drop, drop_ge by (cbn; lia). rewrite parse_from_nil, app_nil_r.
      reflexivity.
  - apply Byte.byte_dec_bl in EQ. subst t. injection Hn as <-.
    rewrite dispatch_bytes_Q. cbn [andb orb].
    destruct (length body <? 39)%nat eqn:E.
    + apply Nat.ltb_lt in E.
      rewrite cross_trade_message_short by (rewrite length_take; lia).
      rewrite drop_ge by lia. reflexivity.
    + destruct (cross_trade_message (take 39 body)) as [record|e]; [|reflexivity].
      cbn. rewrite drop_drop, drop_ge by (cbn; lia). rewrite parse_from_nil, app_nil_r.
      reflexivity.
  - rewrite (dispatch_bytes_skip t n) by (try exact Hn; intros ->; discriminate).
    cbn. rewrite drop_ge by lia. rewrite parse_from_nil, !app_nil_r. reflexivity.
Qed.

(** C3, as amended. The stream ends inside a message of a known type.
    When it ends inside the 43 bytes of a [P] payload or the 39 bytes of
    a [Q] payload, the decoder refuses the short buffer with
    [struct.error] and nothing is stored.  When it ends inside the bytes
    skipped for another type, or inside the two bytes behind a [P] or [Q]
    payload, the short read goes unnoticed: the run ends normally with
    the records decoded so far, the record of that last [P] or [Q]
    message among them.  Whenever the run ends normally the stream is
    used up: the loop is only left at a read of a type that finds the
    end of the stream. *)
Theorem short_read_outcomes (w : world) (pre : bytes) (msgs : list bytes)
    (t : byte) (n : nat) (body : bytes) :
  length pre = 2%nat ->
  Forall (fun m => well_formed m = true) msgs ->
  message_length t = Some n ->
  (length body < n)%nat ->
  itch_data w = pre ++ concat msgs ++ t :: body ->
  let out := get_trade_data w in
  (payload_short t body = true ->
     out.1 = Err StructError /\ heap out.2 = heap w /\
     self_trade_df out.2 = self_trade_df w /\
     self_cross_trade_df out.2 = self_cross_trade_df w) /\
  (payload_short t body = false ->
     forall new, message_records (t :: body) = Ok new ->
     out.1 = Ok (length (heap w), S (length (heap w))) /\
     heap out.2 = heap w ++ [frame ((records_of msgs).1 ++ new.1);
                             frame ((records_of msgs).2 ++ new.2)]) /\
  (forall v, out.1 = Ok v -> open_at (length (handles w)) [] out.2).
Proof.
  intros Hpre Hwf Hn Hlen Hdata out. subst out.
  split; [|split]; [| |apply get_trade_data_ok_exhausted];
    rewrite (get_trade_data_stream w pre msgs (t :: body) Hpre Hwf Hdata);
    cbn [Nat.add]; rewrite (parse_from_short _ t n body _ _ Hn Hlen).
  - intros ->. cbn. auto.
  - intros -> new ->. cbn. auto.
Qed.

Lemma short_read_outcomes_witness :
  let w := fresh_world ([x00; x00] ++ P_message 14430000000000 "B" 100 AAPL 1000000
                          ++ "S"%byte :: repeat x00 5) in
  let out := get_trade_data w in
  (payload_short "S" (repeat x00 5) = true ->
     out.1 = Err StructError /\ heap out.2 = heap w /\
     self_trade_df out.2 = self_trade_df w /\
     self_cross_trade_df out.2 = self_cross_trade_df w) /\
  (payload_short "S" (repeat x00 5) = false ->
     forall new, message_records ("S"%byte :: repeat x00 5) = Ok new ->
     out.1 = Ok (length (heap w), S (length (heap w))) /\
     heap out.2 =
       heap w ++ [frame ((records_of [P_message 14430000000000 "B" 100 AAPL 1000000]).1 ++ new.1);
                  frame ((records_of [P_message 14430000000000 "B" 100 AAPL 1000000]).2 ++ new.2)]) /\
  (forall v, out.1 = Ok v -> open_at (length (handles w)) [] out.2).
Proof.
  apply (short_read_outcomes _ [x00; x00]
           [P_message 14430000000000 "B" 100 AAPL 1000000] "S" 13 (repeat x00 5)).
  - reflexivity.
  - repeat constructor.
  - reflexivity.
  - cbn. lia.
  - reflexivity.
Defined.

(** C3 as stated fails on a stream whose only message is an [S] with 5
    of its 13 bytes: the read of 13 bytes returns 5, and the run ends
    normally with two empty DataFrames instead of an error. *)
Lemma short_skip_read_goes_unnoticed :
  let w := fresh_world ([x00; x00; "S"%byte] ++ repeat x00 5) in
  (read 0 13 (advance 0 (repeat x00 5) (gzip_open w).2)).1 = Ok (repeat x00 5) /\
  (get_trade_data w).1 = Ok (0%nat, 1%nat) /\
  heap (get_trade_data w).2 = [frame []; frame []].
Proof. repeat split. Qed.













Lemma key_lt_le k1 k2 : key_lt k1 k2 -> key_le k1 k2.
Proof. intros [H _]. exact H. Qed.

Lemma key_lt_hour k1 k2 : key_lt k1 k2 -> k1.2 = k2.2 -> k1.1 < k2.1.
Proof.
  destruct k1 as [h1 s1], k2 as [h2 s2]. unfold key_lt, key_le. cbn.
  intros [[?|[-> _]] Hne] ->; [assumption|congruence].
Qed.

(** A list sorted by [key_le] without repetition is strictly sorted. *)
Lemma sorted_nodup_strict (l : list key) :
  Sorted key_le l -> NoDup l -> StronglySorted key_lt l.
Proof.
  intros Hs%Sorted_StronglySorted; [|apply _]. intros Hnd.
  induction Hs as [|k l Hs IH Hall]; [constructor|].
  apply NoDup_cons in Hnd as [Hk Hnd]. constructor; [auto|].
  rewrite Forall_forall in Hall |- *. intros k' Hk'. split; [auto|].
  intros ->. apply Hk. exact Hk'.
Qed.

(** ** [groupby(...).sum()] *)

Lemma filter_none {A} (P : A -> Prop) `{forall x, Decision (P x)} (l : list A) :
  (forall x, x ∈ l -> ~ P x) -> filter P l = [].
Proof.
  induction l as [|x l IH]; intros Hl; [reflexivity|].
  rewrite filter_cons_False by (apply Hl; left).
  apply IH. intros y Hy. apply Hl. right. exact Hy.
Qed.

Lemma group_add_lookup (m : gmap key (float * Z)) r k :
  group_add m r !! k =
  if decide (r.1 = k)
  then Some (nan_add (default (fzero, 0) (m !! k)).1 r.2.1,
             (default (fzero, 0) (m !! k)).2 + r.2.2)
  else m !! k.
Proof.
  unfold group_add. destruct (decide (r.1 = k)) as [<-|Hne].
  - apply lookup_insert_eq.
  - apply lookup_insert_ne, Hne.
Qed.

Lemma foldl_group_add_lookup rows : forall (m : gmap key (float * Z)) k,
  foldl group_add m rows !! k =
  if decide (k ∈ rows.*1)
  then Some (group_total k (default (fzero, 0) (m !! k)) rows)
  else m !! k.
Proof.
  induction rows as [|r rows IH]; intros m k; [reflexivity|].
  cbn [foldl]. rewrite IH, group_add_lookup. unfold group_total.
  change ((r :: rows).*1) with (r.1 :: rows.*1).
  destruct (decide (r.1 = k)) as [Heq|Hne].
  - rewrite filter_cons_True by exact Heq.
    rewrite (decide_True (P := k ∈ r.1 :: rows.*1)) by (apply elem_of_cons; auto).
    destruct (decide (k ∈ rows.*1)) as [Hin|Hnin]; [reflexivity|].
    rewrite (filter_none (fun r' => r'.1 = k) rows); [reflexivity|].
    intros r' Hr' Heq'. apply Hnin.
    rewrite <- Heq'. apply list_elem_of_fmap_2, Hr'.
  - rewrite filter_cons_False by exact Hne.
    destruct (decide (k ∈ rows.*1)) as [Hin|Hnin].
    + rewrite (decide_True (P := k ∈ r.1 :: rows.*1)) by (apply elem_of_cons; auto).
      reflexivity.
    + rewrite (decide_False (P := k ∈ r.1 :: rows.*1)); [reflexivity|].
      intros [?|?]%elem_of_cons; [congruence|contradiction].
Qed.

Lemma zip_with_total_value (trades : list TradeRecord) :
  zip_with (fun t v => (trade_key t, (v, shares t))) trades (total_value_column trades)
  = keyed_rows trades.
Proof.
  unfold total_value_column, keyed_rows.
  induction trades as [|t trades IH]; [reflexivity|]. cbn. rewrite IH. reflexivity.
Qed.


Lemma filter_keyed_rows k trades :
  filter (fun r => r.1 = k) (keyed_rows trades) = keyed_rows (group_of k trades).
Proof.
  unfold keyed_rows, group_of. induction trades as [|t trades IH]; [reflexivity|].
  cbn [map]. destruct (decide (trade_key t = k)) as [Heq|Hne].
  - rewrite !filter_cons_True by exact Heq. cbn [map]. f_equal. exact IH.
  - rewrite !filter_cons_False by exact Hne. exact IH.
Qed.

(** Without NaN among the values the accumulator of a group holds the
    plain sums. *)
Lemma group_total_sums (ts : list TradeRecord) : forall a n,
  Forall (fun t => is_nan (trade_value t) = false) ts ->
  foldl (fun acc r => (nan_add acc.1 r.2.1, acc.2 + r.2.2)) (a, n) (keyed_rows ts)
  = (foldl fadd a (map trade_value ts), n + zsum (map shares ts)).
Proof.
  induction ts as [|t ts IH]; intros a n Hok.
  - cbn. f_equal. lia.
  - inversion Hok as [|? ? Ht Hts]; subst. cbn [keyed_rows map foldl fst snd].
    unfold nan_add at 2. rewrite Ht. fold (keyed_rows ts). rewrite IH by exact Hts.
    cbn [zsum foldr]. fold (zsum (map shares ts)). f_equal. lia.
Qed.

(** ** [groupby(stock)[...].cumsum()] *)

Lemma group_cumsum_int_length rows : forall acc,
  length (group_cumsum_int acc rows) = length rows.
Proof.
  induction rows as [|[s v] rows IH]; intros acc; [reflexivity|].
  cbn. rewrite IH. reflexivity.
Qed.

Lemma group_cumsum_float_length rows : forall acc,
  length (group_cumsum_float acc rows) = length rows.
Proof.
  induction rows as [|[s v] rows IH]; intros acc; [reflexivity|].
  cbn. destruct (is_nan v); cbn; rewrite IH; reflexivity.
Qed.

(** The running sum at row [i] is the sum of the rows of the same stock
    up to and including row [i]. *)
Lemma group_cumsum_int_lookup rows : forall (acc : gmap string Z) i s v,
  rows !! i = Some (s, v) ->
  group_cumsum_int acc rows !! i =
  Some (foldl Z.add (default 0 (acc !! s))
          (map snd (filter (fun p => p.1 = s) (take (S i) rows)))).
Proof.
  induction rows as [|[s0 v0] rows IH]; intros acc i s v Hi; [discriminate|].
  destruct i as [|i].
  - injection Hi as -> ->. cbn [group_cumsum_int take].
    rewrite filter_cons_True by reflexivity. reflexivity.
  - cbn [lookup list_lookup] in Hi. cbn [group_cumsum_int].
    change ((?x :: ?l) !! S i) with (l !! i).
    rewrite (IH _ i s v Hi). f_equal.
    change (take (S (S i)) ((s0, v0) :: rows)) with ((s0, v0) :: take (S i) rows).
    destruct (decide (s0 = s)) as [->|Hne].
    + rewrite lookup_insert_eq, filter_cons_True by reflexivity. reflexivity.
    + rewrite lookup_insert_ne, filter_cons_False by (cbn; congruence). reflexivity.
Qed.

Lemma group_cumsum_float_lookup rows : forall (acc : gmap string float) i s v,
  Forall (fun p => is_nan p.2 = false) rows ->
  rows !! i = Some (s, v) ->
  group_cumsum_float acc rows !! i =
  Some (foldl fadd (default fzero (acc !! s))
          (map snd (filter (fun p => p.1 = s) (take (S i) rows)))).
Proof.
  induction rows as [|[s0 v0] rows IH]; intros acc i s v Hok Hi; [discriminate|].
  inversion Hok as [|? ? H0 Hrows]; subst. cbn [snd] in H0.
  destruct i as [|i].
  - injection Hi as -> ->. cbn [group_cumsum_float take]. rewrite H0.
    rewrite filter_cons_True by reflexivity. reflexivity.
  - cbn [lookup list_lookup] in Hi. cbn [group_cumsum_float]. rewrite H0.
    change ((?x :: ?l) !! S i) with (l !! i).
    rewrite (IH _ i s v Hrows Hi). f_equal.
    change (take (S (S i)) ((s0, v0) :: rows)) with ((s0, v0) :: take (S i) rows).
    destruct (decide (s0 = s)) as [->|Hne].
    + rewrite lookup_insert_eq, filter_cons_True by reflexivity. reflexivity.
    + rewrite lookup_insert_ne, filter_cons_False by (cbn; congruence). reflexivity.
Qed.

Lemma filter_map_pair {A B C} `{EqDecision B} (f : A -> B) (g : A -> C) (b : B) (l : list A) :
  map snd (filter (fun p => p.1 = b) (map (fun a => (f a, g a)) l))
  = map g (filter (fun a => f a = b) l).
Proof.
  induction l as [|a l IH]; [reflexivity|]. cbn [map].
  destruct (decide (f a = b)) as [Heq|Hne].
  - rewrite !filter_cons_True by exact Heq. cbn [map snd]. f_equal. exact IH.
  - rewrite !filter_cons_False by exact Hne. exact IH.
Qed.

Lemma foldl_Zadd_zsum l : forall a, foldl Z.add a l = a + zsum l.
Proof.
  induction l as [|x l IH]; intros a; cbn; [lia|]. rewrite IH.
  fold (zsum l). lia.
Qed.

(** ** The grouped rows *)

Lemma groupby_sum_elem rows g :
  g ∈ groupby_sum rows <->
  foldl group_add ∅ rows !! g_key g = Some (g_total_value g, g_shares g).
Proof.
  unfold groupby_sum. rewrite list_elem_of_fmap. split.
  - intros ([k [v n]] & -> & He). rewrite merge_sort_Permutation in He.
    apply elem_of_map_to_list in He. exact He.
  - intros Hg. exists (g_key g, (g_total_value g, g_shares g)). split.
    + destruct g; reflexivity.
    + rewrite merge_sort_Permutation. apply elem_of_map_to_list. exact Hg.
Qed.

Lemma groupby_sum_keys rows :
  map g_key (groupby_sum rows)
  = (merge_sort (fun a b => key_le a.1 b.1) (map_to_list (foldl group_add ∅ rows))).*1.
Proof.
  unfold groupby_sum. rewrite map_map. reflexivity.
Qed.

Lemma sorted_groups_elem trades x :
  x ∈ sorted_groups trades <->
  x.2 = vwap_of (g_total_value x.1) (g_shares x.1) /\
  foldl group_add ∅ (keyed_rows trades) !! g_key x.1
    = Some (g_total_value x.1, g_shares x.1).
Proof.
  unfold sorted_groups, sort_values. rewrite merge_sort_Permutation.
  rewrite list_elem_of_fmap. split.
  - intros (g & -> & Hg). split; [reflexivity|]. apply groupby_sum_elem, Hg.
  - intros [Hv Hg]. exists x.1. split.
    + destruct x as [g v]. cbn in *. congruence.
    + apply groupby_sum_elem, Hg.
Qed.

Lemma sorted_groups_keys_perm trades :
  map (fun x => g_key x.1) (sorted_groups trades)
  ≡ₚ (map_to_list (foldl group_add ∅ (keyed_rows trades))).*1.
Proof.
  unfold sorted_groups, sort_values. rewrite merge_sort_Permutation.
  rewrite map_map. cbn [fst]. change (map g_key ?l) with (map g_key l).
  rewrite groupby_sum_keys. rewrite merge_sort_Permutation. reflexivity.
Qed.

Lemma sorted_groups_sorted trades :
  StronglySorted key_lt (map (fun x => g_key x.1) (sorted_groups trades)).
Proof.
  apply sorted_nodup_strict.
  - unfold sorted_groups, sort_values.
    apply (Sorted_fmap _ (fun a b => key_le (g_key a.1) (g_key b.1)) key_le).
    + auto.
    + apply Sorted_merge_sort. intros a b. apply (total key_le).
  - rewrite sorted_groups_keys_perm. apply NoDup_fst_map_to_list.
Qed.


(** ** The rows of the table *)

Lemma map_zip_with_l {A B C D} (F : A -> B -> C) (h : C -> D) (h' : A -> D)
    (l : list A) : forall (k : list B),
  (forall x y, h (F x y) = h' x) ->
  length l = length k ->
  map h (zip_with F l k) = map h' l.
Proof.
  induction l as [|x l IH]; intros [|y k] HF Hlen; try discriminate; [reflexivity|].
  cbn. rewrite HF. f_equal. apply IH; [exact HF|]. cbn in Hlen. lia.
Qed.

Lemma strongly_sorted_middle {A} (R : relation A) (pre : list A) x post :
  StronglySorted R (pre ++ x :: post) ->
  Forall (fun a => R a x) pre /\ Forall (R x) post.
Proof.
  induction pre as [|a pre IH]; cbn; intros Hs.
  - apply StronglySorted_inv in Hs as [_ Hall]. split; [constructor|exact Hall].
  - apply StronglySorted_inv in Hs as [Hs Hall].
    destruct (IH Hs) as [Hpre Hpost]. split; [|exact Hpost].
    constructor; [|exact Hpre].
    rewrite Forall_forall in Hall. apply Hall.
    apply elem_of_app. right. left.
Qed.

Lemma filter_ext_in {A} (P Q : A -> Prop) `{forall x, Decision (P x)}
    `{forall x, Decision (Q x)} (l : list A) :
  (forall x, x ∈ l -> (P x <-> Q x)) -> filter P l = filter Q l.
Proof.
  induction l as [|x l IH]; intros Hl; [reflexivity|].
  assert (Hx : P x <-> Q x) by (apply Hl; left).
  assert (Hl' : filter P l = filter Q l)
    by (apply IH; intros y Hy; apply Hl; right; exact Hy).
  destruct (decide (P x)) as [HP|HP].
  - rewrite (filter_cons_True P) by exact HP.
    rewrite (filter_cons_True Q) by (apply Hx, HP). f_equal. exact Hl'.
  - rewrite (filter_cons_False P) by exact HP.
    rewrite (filter_cons_False Q) by (intros HQ; apply HP, Hx, HQ). exact Hl'.
Qed.

(** In a table sorted by (hour, stock) without repeated keys, the rows
    of a stock at or before the hour of row [i] are the rows of that
    stock among the first [i + 1] rows. *)
Lemma day_to_date_prefix (out : list VWAPRow) i r :
  StronglySorted key_lt (map row_key out) ->
  out !! i = Some r ->
  day_to_date r out = filter (fun r' => row_stock r' = row_stock r) (take (S i) out).
Proof.
  intros Hs Hi. unfold day_to_date.
  pose proof (take_drop_middle out i r Hi) as Hsplit.
  rewrite <- Hsplit in Hs. rewrite map_app in Hs. cbn [map] in Hs.
  apply strongly_sorted_middle in Hs as [Hpre Hpost].
  rewrite Forall_forall in Hpre, Hpost.
  rewrite <- Hsplit at 1.
  rewrite (take_S_r out i r Hi).
  rewrite !filter_app.
  assert (Hdrop : filter (fun r' => row_stock r' = row_stock r
                    /\ row_end_time_hour r' <= row_end_time_hour r)
                    (drop (S i) out) = []).
  { apply filter_none. intros r' Hr' [Hst Hh].
    assert (Hlt : key_lt (row_key r) (row_key r'))
      by (apply Hpost, list_elem_of_fmap_2, Hr').
    apply key_lt_hour in Hlt; [|cbn; congruence]. cbn in Hlt. lia. }
  change (r :: drop (S i) out) with ([r] ++ drop (S i) out).
  rewrite filter_app, Hdrop, app_nil_r. f_equal.
  - apply filter_ext_in. intros r' Hr'. split; [tauto|]. intros Hst. split; [exact Hst|].
    assert (Hlt : key_lt (row_key r') (row_key r))
      by (apply Hpre, list_elem_of_fmap_2, Hr').
    apply key_lt_hour in Hlt; [|cbn; congruence]. cbn in Hlt. lia.
  - apply filter_ext_in. intros r' ->%list_elem_of_singleton. split; [tauto|].
    intros _. split; [reflexivity|lia].
Qed.

Lemma vwap_rows_unfold trades :
  vwap_rows trades =
  zip_with make_row (sorted_groups trades)
    (zip (cum_total_values trades) (cum_share_counts trades)).
Proof.
  unfold vwap_rows, vwap_table. rewrite zip_with_total_value. reflexivity.
Qed.

Lemma cum_columns_length trades :
  length (sorted_groups trades)
  = length (zip (cum_total_values trades) (cum_share_counts trades)).
Proof.
  unfold cum_total_values, cum_share_counts.
  rewrite length_zip_with, group_cumsum_float_length, group_cumsum_int_length.
  rewrite !length_map. lia.
Qed.

Lemma vwap_rows_keys trades :
  map row_key (vwap_rows trades) = map (fun x => g_key x.1) (sorted_groups trades).
Proof.
  rewrite vwap_rows_unfold. apply map_zip_with_l.
  - intros [g v] c. unfold row_key, make_row. cbn. destruct (g_key g). reflexivity.
  - apply cum_columns_length.
Qed.

Lemma vwap_rows_lookup trades i r :
  vwap_rows trades !! i = Some r ->
  exists x a b,
    sorted_groups trades !! i = Some x /\
    cum_total_values trades !! i = Some a /\
    cum_share_counts trades !! i = Some b /\
    r = make_row x (a, b).
Proof.
  rewrite vwap_rows_unfold. intros (x & [a b] & -> & Hx & Hc)%lookup_zip_with_Some.
  apply lookup_zip_with_Some in Hc as (a' & b' & [= <- <-] & Ha & Hb).
  exists x, a, b. auto.
Qed.

Section table.
Variable trades : list TradeRecord.
Hypothesis values_not_nan :
  Forall (fun t => is_nan (trade_value t) = false) trades.
Hypothesis totals_not_nan :
  forall k, is_nan (fsum (map trade_value (group_of k trades))) = false.

Lemma sorted_groups_sums x :
  x ∈ sorted_groups trades ->
  g_total_value x.1 = fsum (map trade_value (group_of (g_key x.1) trades)) /\
  g_shares x.1 = zsum (map shares (group_of (g_key x.1) trades)) /\
  x.2 = vwap_of (g_total_value x.1) (g_shares x.1).
Proof.
  intros [Hv Hg]%sorted_groups_elem.
  rewrite foldl_group_add_lookup in Hg.
  destruct (decide (g_key x.1 ∈ (keyed_rows trades).*1)) as [Hin|Hnin];
    [|rewrite lookup_empty in Hg; discriminate].
  rewrite lookup_empty in Hg. cbn [default] in Hg. unfold group_total in Hg.
  rewrite filter_keyed_rows in Hg.
  rewrite group_total_sums in Hg.
  2:{ unfold group_of. rewrite Forall_forall in values_not_nan |- *.
      intros t [_ Ht]%list_elem_of_filter. apply values_not_nan, Ht. }
  injection Hg as Htv Hsh. unfold fsum. repeat split; [congruence|lia|exact Hv].
Qed.

Lemma sorted_totals_not_nan :
  Forall (fun p : string * float => is_nan p.2 = false)
    (map (fun x => ((g_key x.1).2, g_total_value x.1)) (sorted_groups trades)).
Proof.
  apply Forall_forall. intros p (x & -> & Hx)%list_elem_of_fmap. cbn [snd].
  destruct (sorted_groups_sums x Hx) as (-> & _ & _). apply totals_not_nan.
Qed.

Lemma vwap_rows_sorted : StronglySorted key_lt (map row_key (vwap_rows trades)).
Proof. rewrite vwap_rows_keys. apply sorted_groups_sorted. Qed.

Lemma vwap_rows_row r :
  r ∈ vwap_rows trades ->
  row_total_value r = fsum (map trade_value (group_of (row_key r) trades)) /\
  row_shares r = zsum (map shares (group_of (row_key r) trades)) /\
  row_vwap r = vwap_of (row_total_value r) (row_shares r) /\
  row_cum_total_value r = fsum (map row_total_value (day_to_date r (vwap_rows trades))) /\
  row_cum_shares r = zsum (map row_shares (day_to_date r (vwap_rows trades))) /\
  row_cum_vwap r = vwap_of (row_cum_total_value r) (row_cum_shares r).
Proof.
  intros [i Hi]%list_elem_of_lookup.
  destruct (vwap_rows_lookup _ _ _ Hi) as (x & a & b & Hx & Ha & Hb & ->).
  assert (Hkey : row_key (make_row x (a, b)) = g_key x.1)
    by (unfold row_key, make_row; cbn; destruct (g_key x.1); reflexivity).
  rewrite Hkey. cbn [make_row row_total_value row_shares row_vwap
    row_cum_total_value row_cum_shares row_cum_vwap fst snd].
  destruct (sorted_groups_sums x (list_elem_of_lookup_2 _ _ _ Hx)) as (Htv & Hsh & Hv).
  repeat split; try assumption.
  - rewrite (day_to_date_prefix _ i _ vwap_rows_sorted Hi).
    cbn [make_row row_stock].
    unfold cum_total_values in Ha.
    rewrite (group_cumsum_float_lookup _ ∅ i (g_key x.1).2 (g_total_value x.1)
               sorted_totals_not_nan) in Ha
      by (rewrite list_lookup_fmap, Hx; reflexivity).
    injection Ha as <-. rewrite lookup_empty. cbn [default]. unfold fsum. f_equal.
    rewrite <- (filter_map_pair row_stock row_total_value). f_equal. f_equal.
    rewrite <- firstn_map. f_equal.
    rewrite vwap_rows_unfold. symmetry. apply map_zip_with_l.
    + reflexivity.
    + apply cum_columns_length.
  - rewrite (day_to_date_prefix _ i _ vwap_rows_sorted Hi).
    cbn [make_row row_stock].
    unfold cum_share_counts in Hb.
    rewrite (group_cumsum_int_lookup _ ∅ i (g_key x.1).2 (g_shares x.1)) in Hb
      by (rewrite list_lookup_fmap, Hx; reflexivity).
    injection Hb as <-. rewrite lookup_empty. cbn [default].
    rewrite foldl_Zadd_zsum, Z.add_0_l. f_equal.
    rewrite <- (filter_map_pair row_stock row_shares). f_equal. f_equal.
    rewrite <- firstn_map. f_equal.
    rewrite vwap_rows_unfold. symmetry. apply map_zip_with_l.
    + reflexivity.
    + apply cum_columns_length.
Qed.

End table.

(** ** Rounding to binary64 *)

Lemma digits2_pos_size p : digits2_pos p = Pos.size p.
Proof. induction p as [p IH|p IH|]; cbn; rewrite ?IH; reflexivity. Qed.

(** The number of binary digits of a positive integer. *)
Lemma Zdigits2_bounds m :
  0 < m -> 2 ^ (Zdigits2 m - 1) <= m < 2 ^ Zdigits2 m.
Proof.
  destruct m as [|p|p]; try lia. intros _. cbn [Zdigits2].
  rewrite digits2_pos_size.
  pose proof (Pos.size_gt p) as Hgt. pose proof (Pos.size_le p) as Hle.
  split.
  - assert (H : 2 ^ Zpos (Pos.size p) <= 2 * Zpos p).
    { change (2 * Zpos p) with (Zpos p~0). rewrite <- Pos2Z.inj_pow. lia. }
    replace (Zpos (Pos.size p)) with (Zpos (Pos.size p) - 1 + 1) in H by lia.
    rewrite Z.pow_add_r in H by lia. lia.
  - rewrite <- Pos2Z.inj_pow. lia.
Qed.

Lemma Zdigits2_unique m d :
  2 ^ (d - 1) <= m < 2 ^ d -> 0 < d -> Zdigits2 m = d.
Proof.
  intros [Hlo Hhi] Hd.
  assert (Hm : 0 < m) by (pose proof (Z.pow_pos_nonneg 2 (d - 1)); lia).
  pose proof (Zdigits2_bounds m Hm) as [Hlo' Hhi'].
  assert (Hd' : 0 < Zdigits2 m) by (destruct m; cbn; lia).
  destruct (Z.lt_trichotomy (Zdigits2 m) d) as [Hlt|[Heq|Hgt]]; [|exact Heq|].
  - assert (2 ^ Zdigits2 m <= 2 ^ (d - 1)) by (apply Z.pow_le_mono_r; lia). lia.
  - assert (2 ^ d <= 2 ^ (Zdigits2 m - 1)) by (apply Z.pow_le_mono_r; lia). lia.
Qed.

(** Shifting right drops the low bits of the mantissa. *)
Lemma shr_1_m mrs : 0 <= shr_m mrs -> shr_m (shr_1 mrs) = shr_m mrs / 2.
Proof.
  destruct mrs as [m r s]. cbn [shr_m]. intros Hm.
  destruct m as [|p|p]; [reflexivity| |lia].
  destruct p as [p|p|]; cbn [shr_1 shr_m].
  - rewrite Pos2Z.inj_xI. apply Z.div_unique with 1; lia.
  - rewrite Pos2Z.inj_xO. apply Z.div_unique with 0; lia.
  - reflexivity.
Qed.

Lemma shr_1_nonneg mrs : 0 <= shr_m mrs -> 0 <= shr_m (shr_1 mrs).
Proof. intros H. rewrite shr_1_m by exact H. apply Z.div_pos; lia. Qed.

Lemma iter_shr_1_nonneg p : forall mrs,
  0 <= shr_m mrs -> 0 <= shr_m (SpecFloat.iter_pos shr_1 p mrs).
Proof.
  induction p as [p IH|p IH|]; intros mrs Hm; cbn [SpecFloat.iter_pos];
    auto using shr_1_nonneg.
Qed.

Lemma pow2_xO p : 2 ^ Zpos p~0 = 2 ^ Zpos p * 2 ^ Zpos p.
Proof. rewrite <- Z.pow_add_r by lia. f_equal. lia. Qed.

Lemma pow2_xI p : 2 ^ Zpos p~1 = 2 * (2 ^ Zpos p * 2 ^ Zpos p).
Proof.
  rewrite <- Z.pow_add_r by lia. rewrite <- (Z.pow_succ_r 2) by lia. f_equal. lia.
Qed.

Lemma iter_shr_1_m p : forall mrs,
  0 <= shr_m mrs -> shr_m (SpecFloat.iter_pos shr_1 p mrs) = shr_m mrs / 2 ^ Zpos p.
Proof.
  induction p as [p IH|p IH|]; intros mrs Hm; cbn [SpecFloat.iter_pos].
  - rewrite IH, IH, shr_1_m by auto using shr_1_nonneg, iter_shr_1_nonneg.
    assert (Hk : 0 < 2 ^ Zpos p) by (apply Z.pow_pos_nonneg; lia).
    rewrite !Z.div_div by lia. rewrite pow2_xI. reflexivity.
  - rewrite IH, IH by auto using iter_shr_1_nonneg.
    assert (Hk : 0 < 2 ^ Zpos p) by (apply Z.pow_pos_nonneg; lia).
    rewrite !Z.div_div by lia. rewrite pow2_xO. reflexivity.
  - rewrite shr_1_m by exact Hm. reflexivity.
Qed.

(** [shr] by [n] places divides the mantissa by [2 ^ n]. *)
Lemma shr_m_div mrs e n :
  0 <= shr_m mrs -> 0 <= n ->
  shr_m (shr mrs e n).1 = shr_m mrs / 2 ^ n /\ (shr mrs e n).2 = e + n.
Proof.
  intros Hm Hn. destruct n as [|p|p]; [|cbn [shr fst snd]|lia].
  - cbn. rewrite Z.div_1_r. split; [reflexivity|lia].
  - rewrite iter_shr_1_m by exact Hm. auto.
Qed.

Lemma shr_record_of_loc_m m l : shr_m (shr_record_of_loc m l) = m.
Proof. destruct l as [|[]]; reflexivity. Qed.

Lemma round_nearest_even_range mx lx :
  mx <= round_nearest_even mx lx <= mx + 1.
Proof.
  unfold round_nearest_even. destruct lx as [|[]]; try lia.
  destruct (Z.even mx); lia.
Qed.

Lemma fexp_normal e : -1021 <= e -> SpecFloat.fexp prec emax e = e - 53.
Proof. intros H. unfold SpecFloat.fexp, emin, prec, emax. lia. Qed.

(** Rounding a mantissa of at least 53 bits, away from underflow and
    overflow: the result is a normal number whose mantissa is within one
    unit of the mantissa given, at the scale of the result. *)
Lemma binary_round_aux_normal sx mx ex lx :
  2 ^ 52 <= mx -> -1074 <= ex -> Zdigits2 mx + ex <= 1020 ->
  exists m e,
    binary_round_aux prec emax sx mx ex lx = S754_finite sx m e /\
    2 ^ 52 <= Zpos m < 2 ^ 53 /\
    ex + (Zdigits2 mx - 53) <= e <= ex + (Zdigits2 mx - 53) + 1 /\
    Z.abs (Zpos m * 2 ^ (e - ex) - mx) <= 2 ^ (e - ex).
Proof.
  intros Hmx Hex Hhi.
  assert (Hpos : 0 < mx) by lia.
  pose proof (Zdigits2_bounds mx Hpos) as [Hlo Hup].
  set (d := Zdigits2 mx) in *.
  assert (Hd : 53 <= d).
  { destruct (Z_lt_le_dec d 53) as [Hlt|]; [|assumption].
    assert (2 ^ d <= 2 ^ 52) by (apply Z.pow_le_mono_r; lia). lia. }
  set (n := d - 53).
  assert (Hn : 0 <= n) by (unfold n; lia).
  assert (H2n : 0 < 2 ^ n) by (apply Z.pow_pos_nonneg; lia).
  assert (Hsplit : 2 ^ (d - 1) = 2 ^ 52 * 2 ^ n)
    by (rewrite <- Z.pow_add_r by lia; f_equal; unfold n; lia).
  assert (Hsplit' : 2 ^ d = 2 ^ 53 * 2 ^ n)
    by (rewrite <- Z.pow_add_r by lia; f_equal; unfold n; lia).
  set (m0 := mx / 2 ^ n).
  assert (Hm0 : 2 ^ 52 <= m0 < 2 ^ 53).
  { unfold m0. split.
    - apply Z.div_le_lower_bound; lia.
    - apply Z.div_lt_upper_bound; lia. }
  assert (Hm0' : m0 * 2 ^ n <= mx < m0 * 2 ^ n + 2 ^ n).
  { unfold m0. pose proof (Z.div_mod mx (2 ^ n)) as Hdm.
    pose proof (Z.mod_pos_bound mx (2 ^ n) H2n). lia. }
  unfold binary_round_aux, shr_fexp. fold d.
  rewrite fexp_normal by lia.
  replace (d + ex - 53 - ex) with n by (unfold n; lia).
  pose proof (shr_m_div (shr_record_of_loc mx lx) ex n) as Hshr.
  rewrite shr_record_of_loc_m in Hshr. specialize (Hshr ltac:(lia) Hn).
  destruct (shr (shr_record_of_loc mx lx) ex n) as [mrs' e'].
  cbn [fst snd] in Hshr. destruct Hshr as [Hm' ->]. fold m0 in Hm'.
  pose proof (round_nearest_even_range (shr_m mrs') (loc_of_shr_record mrs')) as Hr.
  set (m1 := round_nearest_even (shr_m mrs') (loc_of_shr_record mrs')) in *.
  rewrite Hm' in Hr.
  destruct (Z_lt_le_dec m1 (2 ^ 53)) as [Hlt|Hge].
  - rewrite (Zdigits2_unique m1 53) by lia.
    rewrite fexp_normal by lia.
    replace (53 + (ex + n) - 53 - (ex + n)) with 0 by lia.
    cbn [shr shr_record_of_loc shr_m].
    destruct m1 as [|p|p] eqn:Em1; try lia.
    replace (ex + n <=? emax - prec) with true
      by (symmetry; apply Z.leb_le; unfold emax, prec, n; lia).
    exists p, (ex + n). split; [reflexivity|]. split; [lia|]. split; [unfold n; lia|].
    replace (ex + n - ex) with n by lia.
    assert (Hcase : Zpos p = m0 \/ Zpos p = m0 + 1) by lia.
    destruct Hcase as [Hc|Hc]; rewrite Hc; lia.
  - assert (Em1 : m1 = 2 ^ 53) by lia.
    rewrite Em1.
    change (Zdigits2 (2 ^ 53)) with 54.
    rewrite fexp_normal by lia.
    replace (54 + (ex + n) - 53 - (ex + n)) with 1 by lia.
    cbn [shr shr_record_of_loc SpecFloat.iter_pos shr_1 shr_m fst snd Z.pow Z.pow_pos Pos.iter Z.mul Pos.mul].
    replace (ex + n + 1 <=? emax - prec) with true
      by (symmetry; apply Z.leb_le; unfold emax, prec, n; lia).
    eexists _, (ex + n + 1). split; [reflexivity|]. split; [cbn; lia|].
    split; [unfold n; lia|].
    replace (ex + n + 1 - ex) with (n + 1) by lia.
    rewrite Z.pow_add_r by lia. change (2 ^ 1) with 2.
    change (Zpos 4503599627370496) with (2 ^ 52).
    assert (Hc : m0 + 1 = 2 * 2 ^ 52) by (change (2 * 2 ^ 52) with (2 ^ 53); lia).
    replace (2 ^ 52 * (2 ^ n * 2)) with ((m0 + 1) * 2 ^ n) by (rewrite Hc; lia).
    lia.
Qed.

(** The correctly rounded quotient of two positive integers, when the
    quotient is a normal number: the mantissa [m] and the exponent [e]
    of the result satisfy [|m * 2^t * b - a * 2^s| <= (2^t + 1) * b]
    with [- e = s - t] and [t <= 2]. *)
Lemma round_quotient_normal (a b : positive) :
  let d1 := Zdigits2 (Zpos a) in
  let d2 := Zdigits2 (Zpos b) in
  let s := 53 + d2 - d1 in
  -900 <= d1 - d2 < 53 ->
  exists m t,
    round_quotient a b = S754_finite false m (t - s) /\
    2 ^ 52 <= Zpos m < 2 ^ 53 /\
    0 <= t <= 2 /\
    Z.abs (Zpos m * 2 ^ t * Zpos b - Zpos a * 2 ^ s) <= (2 ^ t + 1) * Zpos b.
Proof.
  intros d1 d2 s Hd.
  pose proof (Zdigits2_bounds (Zpos a) ltac:(lia)) as [Hlo1 Hup1].
  pose proof (Zdigits2_bounds (Zpos b) ltac:(lia)) as [Hlo2 Hup2].
  fold d1 in Hlo1, Hup1. fold d2 in Hlo2, Hup2.
  assert (Hd1 : 0 < d1) by (unfold d1; cbn; lia).
  assert (Hd2 : 0 < d2) by (unfold d2; cbn; lia).
  assert (Hs : 0 < s) by (unfold s; lia).
  unfold round_quotient, SFdiv, SFdiv_core_binary. fold d1 d2.
  rewrite fexp_normal by lia.
  replace (Z.min (d1 + 0 - (d2 + 0) - 53) (0 - 0)) with (- s) by (unfold s; lia).
  replace (0 - 0 - - s) with s by lia.
  destruct s as [|sp|sp] eqn:Es; try lia. rewrite <- Es in *.
  rewrite Z.shiftl_mul_pow2 by lia.
  pose proof (Z_div_mod (Zpos a * 2 ^ s) (Zpos b) ltac:(lia)) as Hdm.
  destruct (Z.div_eucl (Zpos a * 2 ^ s) (Zpos b)) as [q r].
  destruct Hdm as [Hq Hr].
  assert (H2s : 0 < 2 ^ s) by (apply Z.pow_pos_nonneg; lia).
  assert (Hnum_lo : 2 ^ 52 * 2 ^ d2 <= Zpos a * 2 ^ s).
  { replace (2 ^ 52 * 2 ^ d2) with (2 ^ (d1 - 1) * 2 ^ s)
      by (rewrite <- !Z.pow_add_r by lia; f_equal; unfold s; lia).
    apply Z.mul_le_mono_nonneg_r; lia. }
  assert (Hnum_hi : Zpos a * 2 ^ s < 2 ^ 54 * 2 ^ (d2 - 1)).
  { replace (2 ^ 54 * 2 ^ (d2 - 1)) with (2 ^ d1 * 2 ^ s)
      by (rewrite <- !Z.pow_add_r by lia; f_equal; unfold s; lia).
    apply Z.mul_lt_mono_pos_r; lia. }
  assert (Hq52 : 2 ^ 52 <= q).
  { destruct (Z_lt_le_dec q (2 ^ 52)) as [Hlt|]; [|assumption]. exfalso.
    assert (Zpos b * q + r < Zpos b * 2 ^ 52) by nia.
    assert (Zpos b * 2 ^ 52 <= 2 ^ 52 * 2 ^ d2) by nia. lia. }
  assert (Hq54 : q < 2 ^ 54).
  { destruct (Z_lt_le_dec q (2 ^ 54)) as [|Hge]; [assumption|]. exfalso.
    assert (2 ^ 54 * 2 ^ (d2 - 1) <= Zpos b * q) by nia. lia. }
  assert (Hdq : 53 <= Zdigits2 q <= 54).
  { pose proof (Zdigits2_bounds q ltac:(lia)) as [Hlq Huq].
    split.
    - destruct (Z_lt_le_dec (Zdigits2 q) 53) as [Hlt|]; [|assumption].
      assert (2 ^ Zdigits2 q <= 2 ^ 52) by (apply Z.pow_le_mono_r; lia). lia.
    - destruct (Z_lt_le_dec 54 (Zdigits2 q)) as [Hlt|]; [|lia].
      assert (2 ^ 54 <= 2 ^ (Zdigits2 q - 1)) by (apply Z.pow_le_mono_r; lia). lia. }
  destruct (binary_round_aux_normal false q (- s) (new_location (Zpos b) r))
    as (m & e & Hm & Hmr & He & Herr); [lia|unfold s; lia|unfold s; lia|].
  cbn [xorb]. rewrite Hm.
  exists m, (e + s). replace (e + s - s) with e by lia.
  split; [reflexivity|]. split; [assumption|]. split; [lia|].
  replace (e - - s) with (e + s) in Herr by lia.
  assert (H2t : 0 < 2 ^ (e + s)) by (apply Z.pow_pos_nonneg; lia).
  nia.
Qed.

(** ** Rounding a price to three decimals *)

Lemma rne_div_near n k D :
  0 < D -> 2 * Z.abs (n - k * D) < D -> rne_div n D = k.
Proof.
  intros HD Hnear. unfold rne_div.
  pose proof (Z.div_mod n D ltac:(lia)) as Hdm.
  pose proof (Z.mod_pos_bound n D HD) as Hmod.
  destruct (Z_le_gt_dec (k * D) n) as [Hle|Hgt].
  - assert (Hq : n / D = k) by (symmetry; apply Z.div_unique with (n - k * D); lia).
    rewrite Hq in *.
    assert (Hc : (2 * (n mod D) ?= D) = Lt) by (apply Z.compare_lt_iff; lia).
    rewrite Hc. reflexivity.
  - assert (Hq : n / D = k - 1)
      by (symmetry; apply Z.div_unique with (n - (k - 1) * D); lia).
    rewrite Hq in *.
    assert (Hc : (2 * (n mod D) ?= D) = Gt) by (apply Z.compare_gt_iff; lia).
    rewrite Hc. lia.
Qed.

Lemma rne_div_range n D :
  0 < D -> 0 <= n ->
  0 <= rne_div n D /\ (rne_div n D - 1) * D <= n.
Proof.
  intros HD Hn. unfold rne_div.
  pose proof (Z.div_mod n D ltac:(lia)) as Hdm.
  pose proof (Z.mod_pos_bound n D HD) as Hmod.
  assert (Hq : 0 <= n / D) by (apply Z.div_pos; lia).
  destruct (2 * (n mod D) ?= D); [destruct (Z.even (n / D))| |]; nia.
Qed.

(** The decimal [k / 1000] turned into a float is a fixed point of
    [round(-, 3)]. *)
Lemma py_round3_thousandths (k : Z) :
  0 <= k < 2 ^ 40 ->
  py_round3 (int_truediv k 1000) = int_truediv k 1000.
Proof.
  intros Hk. destruct k as [|a|a]; [reflexivity| |lia].
  cbn [int_truediv].
  pose proof (Zdigits2_bounds (Zpos a) ltac:(lia)) as [Hlo Hup].
  assert (Hd1 : 0 < Zdigits2 (Zpos a) <= 40).
  { split; [cbn; lia|].
    destruct (Z_lt_le_dec 40 (Zdigits2 (Zpos a))) as [Hlt|]; [|lia].
    assert (2 ^ 40 <= 2 ^ (Zdigits2 (Zpos a) - 1)) by (apply Z.pow_le_mono_r; lia).
    lia. }
  destruct (round_quotient_normal a 1000) as (m & t & Hq & Hm & Ht & Herr).
  { change (Zdigits2 1000) with 10. lia. }
  change (Zdigits2 1000) with 10 in *.
  set (s := 53 + 10 - Zdigits2 (Zpos a)) in *.
  rewrite Hq. cbn [py_round3]. unfold scaled_digits3.
  replace (0 <=? t - s) with false by (symmetry; apply Z.leb_gt; unfold s; lia).
  replace (- (t - s)) with (s - t) by lia.
  assert (H2t : 0 < 2 ^ t) by (apply Z.pow_pos_nonneg; lia).
  assert (HD : 0 < 2 ^ (s - t)) by (apply Z.pow_pos_nonneg; unfold s; lia).
  assert (Hs : 2 ^ s = 2 ^ (s - t) * 2 ^ t)
    by (rewrite <- Z.pow_add_r by (unfold s; lia); f_equal; lia).
  rewrite Hs in Herr.
  assert (Ht2 : 2 ^ t <= 4).
  { change 4 with (2 ^ 2). apply Z.pow_le_mono_r; lia. }
  assert (Hnear : Z.abs (Zpos m * 1000 - Zpos a * 2 ^ (s - t)) <= 2000) by nia.
  assert (Hbig : 4000 < 2 ^ (s - t)).
  { assert (H52 : 2 ^ 52 = 4503599627370496) by reflexivity.
    assert (H40 : 2 ^ 40 = 1099511627776) by reflexivity.
    nia. }
  rewrite (rne_div_near _ (Zpos a)) by lia.
  cbn [int_truediv]. exact Hq.
Qed.

(** A decoded price is the float nearest to some number of thousandths. *)
Lemma price_of_thousandths (p : Z) :
  0 <= p < 2 ^ 32 ->
  exists k, 0 <= k < 2 ^ 40 /\ price_of p = int_truediv k 1000.
Proof.
  intros Hp. unfold price_of.
  destruct p as [|a|a]; [exists 0; split; [lia|reflexivity]| |lia].
  cbn [int_truediv].
  pose proof (Zdigits2_bounds (Zpos a) ltac:(lia)) as [Hlo Hup].
  assert (Hd1 : 0 < Zdigits2 (Zpos a) <= 32).
  { split; [cbn; lia|].
    destruct (Z_lt_le_dec 32 (Zdigits2 (Zpos a))) as [Hlt|]; [|lia].
    assert (2 ^ 32 <= 2 ^ (Zdigits2 (Zpos a) - 1)) by (apply Z.pow_le_mono_r; lia).
    lia. }
  destruct (round_quotient_normal a 10000) as (m & t & Hq & Hm & Ht & Herr).
  { change (Zdigits2 10000) with 14. lia. }
  change (Zdigits2 10000) with 14 in *.
  set (s := 53 + 14 - Zdigits2 (Zpos a)) in *.
  rewrite Hq. cbn [py_round3]. unfold scaled_digits3.
  replace (0 <=? t - s) with false by (symmetry; apply Z.leb_gt; unfold s; lia).
  replace (- (t - s)) with (s - t) by lia.
  eexists. split; [|reflexivity].
  assert (H2t : 0 < 2 ^ t) by (apply Z.pow_pos_nonneg; lia).
  assert (HD : 0 < 2 ^ (s - t)) by (apply Z.pow_pos_nonneg; unfold s; lia).
  assert (Hs : 2 ^ s = 2 ^ (s - t) * 2 ^ t)
    by (rewrite <- Z.pow_add_r by (unfold s; lia); f_equal; lia).
  assert (Ht2 : 2 ^ t <= 4).
  { change 4 with (2 ^ 2). apply Z.pow_le_mono_r; lia. }
  pose proof (rne_div_range (Zpos m * 1000) (2 ^ (s - t)) HD ltac:(lia)) as [Hk0 Hk1].
  split; [assumption|].
  set (k := rne_div (Zpos m * 1000) (2 ^ (s - t))) in *.
  assert (Hbig : 2 ^ 35 <= 2 ^ s) by (apply Z.pow_le_mono_r; unfold s; lia).
  rewrite Hs in Herr, Hbig.
  assert (H32 : 2 ^ 32 = 4294967296) by reflexivity.
  assert (H35 : 2 ^ 35 = 34359738368) by reflexivity.
  assert (H40 : 2 ^ 40 = 1099511627776) by reflexivity.
  assert (Hk : 10 * (k - 1) <= Zpos a + 1) by nia.
  lia.
Qed.

(** C10. For every price integer [p] of four bytes, the decoded price
    [round(p / 10000, 3)] is a fixed point of rounding to three decimal
    places: [round(-, 3)] applied to it returns it. *)
Theorem price_rounding_idempotent (p : Z) :
  0 <= p < 2 ^ 32 ->
  py_round3 (price_of p) = price_of p.
Proof.
  intros Hp. destruct (price_of_thousandths p Hp) as (k & Hk & ->).
  apply py_round3_thousandths, Hk.
Qed.

Lemma price_rounding_idempotent_witness :
  0 <= 1234565 < 2 ^ 32 /\ py_round3 (price_of 1234565) = price_of 1234565.
Proof.
  split; [split; [discriminate|reflexivity]|].
  apply (price_rounding_idempotent 1234565). split; [discriminate|reflexivity].
Defined.

(** ** Signs and finiteness *)

Lemma shr_nonneg mrs e n : 0 <= shr_m mrs -> 0 <= shr_m (shr mrs e n).1.
Proof.
  intros H. destruct n; cbn [shr fst]; auto using iter_shr_1_nonneg.
Qed.

(** Rounding a mantissa that is not negative never gives NaN nor a
    minus sign. *)
Lemma binary_round_aux_nonneg mx ex lx :
  0 <= mx -> nonneg (binary_round_aux prec emax false mx ex lx) = true.
Proof.
  intros Hmx. unfold binary_round_aux, shr_fexp.
  pose proof (shr_nonneg (shr_record_of_loc mx lx) ex
    (SpecFloat.fexp prec emax (Zdigits2 mx + ex) - ex)) as H1.
  rewrite shr_record_of_loc_m in H1. specialize (H1 Hmx).
  destruct (shr (shr_record_of_loc mx lx) ex _) as [mrs' e']. cbn [fst] in H1.
  pose proof (round_nearest_even_range (shr_m mrs') (loc_of_shr_record mrs')) as Hr.
  set (m1 := round_nearest_even (shr_m mrs') (loc_of_shr_record mrs')) in *.
  pose proof (shr_nonneg (shr_record_of_loc m1 loc_Exact) e'
    (SpecFloat.fexp prec emax (Zdigits2 m1 + e') - e')) as H2.
  rewrite shr_record_of_loc_m in H2. specialize (H2 ltac:(lia)).
  destruct (shr (shr_record_of_loc m1 loc_Exact) e' _) as [mrs'' e'']. cbn [fst] in H2.
  destruct (shr_m mrs'') as [|p|p]; [reflexivity| |lia].
  destruct (e'' <=? emax - prec); reflexivity.
Qed.

Lemma binary_round_nonneg m e : nonneg (binary_round prec emax false m e) = true.
Proof.
  unfold binary_round. destruct (shl_align m e _) as [mz ez].
  apply binary_round_aux_nonneg. lia.
Qed.

Lemma nonneg_not_nan x : nonneg x = true -> is_nan x = false.
Proof. destruct x; cbn; congruence. Qed.

Lemma finite_nonneg_nonneg x : finite_nonneg x = true -> nonneg x = true.
Proof. destruct x; cbn; congruence. Qed.

Lemma fadd_nonneg x y :
  nonneg x = true -> nonneg y = true -> nonneg (fadd x y) = true.
Proof.
  destruct x as [[]|[]| |[] mx ex], y as [[]|[]| |[] my ey];
    cbn; try congruence; intros _ _.
  destruct (shl_align mx ex (Z.min ex ey)) as [mx' ex'].
  destruct (shl_align my ey (Z.min ex ey)) as [my' ey']. cbn.
  apply binary_round_nonneg.
Qed.

Lemma fmul_finite_nonneg x y :
  finite_nonneg x = true -> finite_nonneg y = true -> nonneg (fmul x y) = true.
Proof.
  destruct x as [[]|[]| |[] mx ex], y as [[]|[]| |[] my ey];
    cbn; try congruence; intros _ _.
  apply binary_round_aux_nonneg. lia.
Qed.

Lemma fsum_nonneg vs :
  Forall (fun v => nonneg v = true) vs -> nonneg (fsum vs) = true.
Proof.
  unfold fsum. assert (H0 : nonneg fzero = true) by reflexivity.
  revert H0. generalize fzero as a.
  induction vs as [|v vs IH]; intros a Ha Hvs; [exact Ha|].
  inversion Hvs; subst. cbn [foldl]. apply IH; [|assumption].
  apply fadd_nonneg; assumption.
Qed.

Lemma iter_xO_pow p d : Zpos (Pos.iter xO p d) = Zpos p * 2 ^ Zpos d.
Proof.
  induction d as [|d IH] using Pos.peano_ind.
  - cbn. lia.
  - rewrite Pos.iter_succ, Pos2Z.inj_xO, IH, Pos2Z.inj_succ, Z.pow_succ_r by lia.
    lia.
Qed.

(** [float(n)] is finite for an integer of at most 64 bits. *)
Lemma float_of_Z_finite n :
  0 <= n < 2 ^ 64 -> finite_nonneg (float_of_Z n) = true.
Proof.
  intros Hn. destruct n as [|p|p]; [reflexivity| |lia].
  unfold float_of_Z, binary_normalize, binary_round.
  pose proof (Zdigits2_bounds (Zpos p) ltac:(lia)) as [Hlo Hup].
  cbn [Zdigits2] in Hlo, Hup. set (d := Zpos (digits2_pos p)) in *.
  assert (Hd : 0 < d <= 64).
  { split; [unfold d; lia|].
    destruct (Z_lt_le_dec 64 d) as [Hlt|]; [|lia].
    assert (2 ^ 64 <= 2 ^ (d - 1)) by (apply Z.pow_le_mono_r; lia). lia. }
  rewrite fexp_normal by lia. unfold shl_align.
  destruct (d + 0 - 53 - 0) as [|q|q] eqn:Eq.
  - destruct (binary_round_aux_normal false (Zpos p) 0 loc_Exact)
      as (m & e & -> & _); [|lia|cbn [Zdigits2]; fold d; lia|reflexivity].
    replace 52 with (d - 1) by lia. exact Hlo.
  - destruct (binary_round_aux_normal false (Zpos p) 0 loc_Exact)
      as (m & e & -> & _); [|lia|cbn [Zdigits2]; fold d; lia|reflexivity].
    assert (2 ^ 52 <= 2 ^ (d - 1)) by (apply Z.pow_le_mono_r; lia). lia.
  - assert (Hq : Zpos q = 53 - d) by lia.
    assert (Hmz : Zpos (Pos.iter xO p q) = Zpos p * 2 ^ (53 - d))
      by (rewrite iter_xO_pow, Hq; reflexivity).
    assert (H2 : 2 ^ (d - 1) * 2 ^ (53 - d) = 2 ^ 52)
      by (rewrite <- Z.pow_add_r by lia; f_equal; lia).
    assert (H3 : 2 ^ d * 2 ^ (53 - d) = 2 ^ 53)
      by (rewrite <- Z.pow_add_r by lia; f_equal; lia).
    assert (Hp2 : 0 < 2 ^ (53 - d)) by (apply Z.pow_pos_nonneg; lia).
    assert (Hr : 2 ^ 52 <= Zpos (Pos.iter xO p q) < 2 ^ 53) by (rewrite Hmz; nia).
    destruct (binary_round_aux_normal false (Zpos (Pos.iter xO p q)) (d + 0 - 53) loc_Exact)
      as (m & e & -> & _); [lia|lia| |reflexivity].
    rewrite (Zdigits2_unique _ 53) by (change (53 - 1) with 52; lia). lia.
Qed.

Lemma int_truediv_thousandths_finite k :
  0 <= k < 2 ^ 40 -> finite_nonneg (int_truediv k 1000) = true.
Proof.
  intros Hk. destruct k as [|a|a]; [reflexivity| |lia].
  cbn [int_truediv].
  pose proof (Zdigits2_bounds (Zpos a) ltac:(lia)) as [Hlo Hup].
  assert (Hd1 : 0 < Zdigits2 (Zpos a) <= 40).
  { split; [cbn; lia|].
    destruct (Z_lt_le_dec 40 (Zdigits2 (Zpos a))) as [Hlt|]; [|lia].
    assert (2 ^ 40 <= 2 ^ (Zdigits2 (Zpos a) - 1)) by (apply Z.pow_le_mono_r; lia).
    lia. }
  destruct (round_quotient_normal a 1000) as (m & t & -> & _); [|reflexivity].
  change (Zdigits2 1000) with 10. lia.
Qed.

Lemma price_of_finite p : 0 <= p < 2 ^ 32 -> finite_nonneg (price_of p) = true.
Proof.
  intros Hp. destruct (price_of_thousandths p Hp) as (k & Hk & ->).
  apply int_truediv_thousandths_finite, Hk.
Qed.

Lemma be_decode_slice_range i j (msg : bytes) :
  0 <= be_decode (slice i j msg) < 256 ^ Z.of_nat (j - i).
Proof.
  pose proof (be_decode_range (slice i j msg)) as Hr.
  pose proof (slice_length i j msg) as Hl.
  split; [lia|]. eapply Z.lt_le_trans; [apply Hr|].
  apply Z.pow_le_mono_r; lia.
Qed.

Lemma rbind_ok {A B} (c : result A) (k : A -> result B) b :
  c ≫= k = Ok b -> exists a, c = Ok a /\ k a = Ok b.
Proof. destruct c as [a|e]; cbn; intros H; [eauto|discriminate]. Qed.

(** What the decoders put in a record: a share count of at most 64 bits
    and the price of a 32-bit integer. *)
Lemma decoded_fields t :
  decoded t ->
  0 <= shares t < 2 ^ 64 /\ exists p, 0 <= p < 2 ^ 32 /\ price t = price_of p.
Proof.
  intros [msg [H|H]].
  - unfold trade_message in H. rewrite trade_fields_direct in H.
    destruct (Nat.eqb (length msg) 43); [|discriminate].
    cbn -[time_str_of end_time_hour_of decode_ascii be_decode slice price_of strip] in H.
    repeat (apply rbind_ok in H as (? & _ & H)).
    injection H as <-. cbn [shares price]. split.
    + pose proof (be_decode_slice_range 19 23 msg) as Hr.
      change (256 ^ Z.of_nat (23 - 19)) with (2 ^ 32) in Hr.
      assert (2 ^ 32 < 2 ^ 64) by reflexivity. lia.
    + eexists. split; [|reflexivity]. apply (be_decode_slice_range 31 35 msg).
  - unfold cross_trade_message in H. rewrite cross_trade_fields_direct in H.
    destruct (Nat.eqb (length msg) 39); [|discriminate].
    cbn -[time_str_of end_time_hour_of decode_ascii be_decode slice price_of strip] in H.
    repeat (apply rbind_ok in H as (? & _ & H)).
    injection H as <-. cbn [shares price]. split.
    + apply (be_decode_slice_range 10 18 msg).
    + eexists. split; [|reflexivity]. apply (be_decode_slice_range 26 30 msg).
Qed.

Lemma decoded_value_nonneg t : decoded t -> nonneg (trade_value t) = true.
Proof.
  intros (Hs & p & Hp & Hprice)%decoded_fields. unfold trade_value.
  apply fmul_finite_nonneg.
  - rewrite Hprice. apply price_of_finite, Hp.
  - apply float_of_Z_finite, Hs.
Qed.

(** ** [calculate_VWAP] and [get_VWAP_df] on the heap *)

Lemma calculate_VWAP_run w l df :
  heap w !! l = Some df ->
  calculate_VWAP l w =
  (Ok (vwap_rows (df_rows df)), set_heap (<[l := with_total_value df]> (heap w)) w).
Proof.
  intros H. unfold calculate_VWAP. mstep. unfold deref. rewrite H. reflexivity.
Qed.

Lemma df_copy_run w l df :
  heap w !! l = Some df ->
  df_copy l w = (Ok (length (heap w)), set_heap (heap w ++ [df]) w).
Proof.
  intros H. unfold df_copy. mstep. unfold deref. rewrite H. reflexivity.
Qed.

Lemma pd_concat_run w a b da db :
  heap w !! a = Some da -> heap w !! b = Some db ->
  pd_concat a b w =
  (Ok (length (heap w)), set_heap (heap w ++ [concat_frames da db]) w).
Proof.
  intros Ha Hb. unfold pd_concat. mstep. unfold deref at 1. rewrite Ha.
  cbv iota beta. mstep. unfold deref at 1. rewrite Hb. reflexivity.
Qed.

Lemma set_heap_set_heap h1 h2 w : set_heap h2 (set_heap h1 w) = set_heap h2 w.
Proof. reflexivity. Qed.

Lemma insert_last {A} (l : list A) x y : <[length l := y]> (l ++ [x]) = l ++ [y].
Proof.
  replace (length l) with (length l + 0)%nat by lia.
  rewrite insert_app_r. reflexivity.
Qed.

(** [get_VWAP_df] once the trades are decoded and stored. *)
Lemma get_VWAP_df_stored w t c dt dc (include_cross_trade : bool) :
  self_trade_df w = Some t -> self_cross_trade_df w = Some c ->
  heap w !! t = Some dt -> heap w !! c = Some dc ->
  get_VWAP_df include_cross_trade w =
  if include_cross_trade then
    (Ok (vwap_rows (df_rows dt ++ df_rows dc)),
     set_heap (heap w ++ [dt; dc; with_total_value (concat_frames dt dc)]) w)
  else
    (Ok (vwap_rows (df_rows dt)), set_heap (heap w ++ [with_total_value dt]) w).
Proof.
  intros Ht Hc Hdt Hdc. unfold get_VWAP_df.
  mstep. unfold get_world at 1. cbv iota beta. rewrite Ht, Hc.
  rewrite !bool_decide_eq_false_2 by discriminate. cbn [orb].
  mstep. unfold mret at 1, M_ret at 1. cbv iota beta.
  mstep. unfold get_world at 1. cbv iota beta. rewrite Ht, Hc.
  destruct include_cross_trade.
  - mstep. mstep. unfold attribute at 1, mret at 1, M_ret at 1. cbv iota beta.
    mstep. rewrite (df_copy_run w t dt Hdt). cbv iota beta.
    mstep. unfold attribute at 1, mret at 1, M_ret at 1. cbv iota beta.
    mstep. rewrite (df_copy_run _ c dc) by (cbn; apply lookup_app_l_Some, Hdc).
    cbv iota beta. rewrite set_heap_set_heap. cbn [heap set_heap].
    rewrite length_app. cbn [length].
    rewrite (pd_concat_run _ _ _ dt dc).
    2:{ cbn. rewrite <- app_assoc. apply list_lookup_middle. reflexivity. }
    2:{ cbn. replace (length (heap w) + 1)%nat with (length (heap w ++ [dt])) 
          by (rewrite length_app; reflexivity).
        apply list_lookup_middle. reflexivity. }
    cbv iota beta. rewrite set_heap_set_heap. cbn [heap set_heap].
    rewrite (calculate_VWAP_run _ _ (concat_frames dt dc))
      by (cbn; apply list_lookup_middle; reflexivity).
    cbn [heap set_heap]. rewrite set_heap_set_heap, insert_last.
    rewrite <- !app_assoc. reflexivity.
  - mstep. mstep. unfold attribute at 1, mret at 1, M_ret at 1. cbv iota beta.
    rewrite (df_copy_run w t dt Hdt). cbv iota beta.
    rewrite (calculate_VWAP_run _ _ dt) by (cbn; apply list_lookup_middle; reflexivity).
    cbn [heap set_heap]. rewrite set_heap_set_heap, insert_last. reflexivity.
Qed.

Lemma group_total_shares (ts : list TradeRecord) : forall a n,
  (foldl (fun acc r => (nan_add acc.1 r.2.1, acc.2 + r.2.2)) (a, n) (keyed_rows ts)).2
  = n + zsum (map shares ts).
Proof.
  induction ts as [|t ts IH]; intros a n; cbn; [lia|].
  fold (keyed_rows ts). rewrite IH. fold (zsum (map shares ts)). lia.
Qed.

(** The columns every row has by construction, whatever the values. *)
Lemma vwap_rows_columns trades r :
  r ∈ vwap_rows trades ->
  row_shares r = zsum (map shares (group_of (row_key r) trades)) /\
  row_vwap r = vwap_of (row_total_value r) (row_shares r) /\
  row_cum_vwap r = vwap_of (row_cum_total_value r) (row_cum_shares r).
Proof.
  intros [i Hi]%list_elem_of_lookup.
  destruct (vwap_rows_lookup _ _ _ Hi) as (x & a & b & Hx & Ha & Hb & ->).
  assert (Hkey : row_key (make_row x (a, b)) = g_key x.1)
    by (unfold row_key, make_row; cbn; destruct (g_key x.1); reflexivity).
  rewrite Hkey. cbn [make_row row_total_value row_shares row_vwap
    row_cum_total_value row_cum_shares row_cum_vwap fst snd].
  apply list_elem_of_lookup_2 in Hx. apply sorted_groups_elem in Hx as [Hv Hg].
  rewrite foldl_group_add_lookup in Hg.
  destruct (decide (g_key x.1 ∈ (keyed_rows trades).*1)) as [Hin|Hnin];
    [|rewrite lookup_empty in Hg; discriminate].
  rewrite lookup_empty in Hg. cbn [default] in Hg. unfold group_total in Hg.
  rewrite filter_keyed_rows in Hg.
  pose proof (group_total_shares (group_of (g_key x.1) trades) fzero 0) as Hsh.
  injection Hg as Hg. rewrite Hg in Hsh. cbn [snd] in Hsh.
  repeat split; [lia|exact Hv].
Qed.


Lemma decoded_totals_nonneg trades k :
  Forall decoded trades ->
  nonneg (fsum (map trade_value (group_of k trades))) = true.
Proof.
  intros Hd. apply fsum_nonneg. rewrite Forall_forall in Hd. apply Forall_forall.
  intros v (t & -> & Ht)%list_elem_of_fmap.
  apply decoded_value_nonneg, Hd. unfold group_of in Ht.
  apply list_elem_of_filter in Ht as [_ Ht]. exact Ht.
Qed.


(** ** The records [get_trade_data] stores *)

Lemma add_records_decoded lists m :
  Forall decoded lists.1 -> Forall decoded lists.2 ->
  Forall decoded (add_records lists m).1 /\ Forall decoded (add_records lists m).2.
Proof.
  intros H1 H2. unfold add_records.
  destruct (message_records m) as [new|e] eqn:E; [|auto]. cbn [fst snd].
  destruct m as [|t body]; cbn [message_records] in E.
  { injection E as <-. cbn. rewrite !app_nil_r. auto. }
  destruct (Byte.eqb t "P"); [|destruct (Byte.eqb t "Q")].
  - apply rbind_ok in E as (r & Hr & [= <-]). cbn. rewrite app_nil_r.
    split; [|assumption]. apply Forall_app. split; [assumption|].
    constructor; [|constructor]. eexists. left. exact Hr.
  - apply rbind_ok in E as (r & Hr & [= <-]). cbn. rewrite app_nil_r.
    split; [assumption|]. apply Forall_app. split; [assumption|].
    constructor; [|constructor]. eexists. right. exact Hr.
  - injection E as <-. cbn. rewrite !app_nil_r. auto.
Qed.

Lemma records_of_decoded msgs :
  Forall decoded (records_of msgs).1 /\ Forall decoded (records_of msgs).2.
Proof.
  induction msgs as [|m msgs IH] using rev_ind.
  - split; constructor.
  - rewrite records_of_snoc. apply add_records_decoded; apply IH.
Qed.

(** A complete stream is decoded into the records of its messages. *)
Lemma get_trade_data_complete w pre msgs :
  length pre = 2%nat ->
  Forall (fun m => well_formed m = true) msgs ->
  itch_data w = pre ++ concat msgs ->
  get_trade_data w =
  (Ok (length (heap w), S (length (heap w))),
   after_get_trade_data w [] (Ok (records_of msgs))).
Proof.
  intros Hpre Hwf Hdata.
  rewrite (get_trade_data_stream w pre msgs [] Hpre Hwf)
    by (rewrite app_nil_r; exact Hdata).
  cbv zeta. rewrite parse_from_nil. cbn [fst snd].
  destruct (records_of msgs). reflexivity.
Qed.

Lemma example_world_eq :
  example_world =
  {| itch_data := example_stream;
     heap := [frame (records_of example_messages).1;
              frame (records_of example_messages).2];
     handles := [opened []];
     self_trade_df := Some 0%nat;
     self_cross_trade_df := Some 1%nat |}.
Proof.
  unfold example_world.
  rewrite (get_trade_data_complete _ [x00; x00] example_messages).
  - reflexivity.
  - reflexivity.
  - repeat (constructor; [vm_compute; reflexivity|]). constructor.
  - reflexivity.
Qed.






(** C8. [get_VWAP_df] works on copies: after the call the attributes
    [trade_df] and [cross_trade_df] refer to the same DataFrames with the
    same content as before, so the [total_value] column that
    [calculate_VWAP] adds to its argument does not appear in them, and
    every other DataFrame that existed before is unchanged as well. *)
Theorem get_VWAP_df_keeps_stored_frames (w : world) (t c : nat)
    (dt dc : DataFrame) (include_cross_trade : bool) :
  self_trade_df w = Some t -> self_cross_trade_df w = Some c ->
  heap w !! t = Some dt -> heap w !! c = Some dc ->
  let w' := (get_VWAP_df include_cross_trade w).2 in
  is_Ok (get_VWAP_df include_cross_trade w).1 = true /\
  self_trade_df w' = Some t /\ self_cross_trade_df w' = Some c /\
  heap w' !! t = Some dt /\ heap w' !! c = Some dc /\
  (forall l df, heap w !! l = Some df -> heap w' !! l = Some df).
Proof.
  intros Ht Hc Hdt Hdc.
  rewrite (get_VWAP_df_stored w t c dt dc include_cross_trade Ht Hc Hdt Hdc).
  destruct include_cross_trade; cbn [fst snd is_Ok set_heap heap self_trade_df
    self_cross_trade_df]; repeat split; auto using lookup_app_l_Some.
Qed.

Lemma get_VWAP_df_keeps_stored_frames_witness :
  let w := example_world in
  let dt := frame (records_of example_messages).1 in
  let dc := frame (records_of example_messages).2 in
  let w' := (get_VWAP_df true w).2 in
  is_Ok (get_VWAP_df true w).1 = true /\
  self_trade_df w' = Some 0%nat /\ self_cross_trade_df w' = Some 1%nat /\
  heap w' !! 0%nat = Some dt /\ heap w' !! 1%nat = Some dc /\
  (forall l df, heap w !! l = Some df -> heap w' !! l = Some df).
Proof.
  apply (get_VWAP_df_keeps_stored_frames example_world 0 1
           (frame (records_of example_messages).1)
           (frame (records_of example_messages).2) true);
    rewrite example_world_eq; reflexivity.
Defined.

(** By contrast, [calculate_VWAP] called on a stored DataFrame itself
    adds the column to it. *)
Lemma calculate_VWAP_changes_its_argument w l df :
  heap w !! l = Some df ->
  heap (calculate_VWAP l w).2 !! l = Some (with_total_value df).
Proof.
  intros H. rewrite (calculate_VWAP_run w l df H). cbn.
  apply list_lookup_insert_eq. eapply lookup_lt_Some, H.
Qed.

(** ** [get_VWAP_df] on an object that has not decoded its file yet *)

Lemma assign_stored w t c :
  self_trade_df w = Some t -> self_cross_trade_df w = Some c ->
  (assign_trade_df t ≫= fun _ => assign_cross_trade_df c) w = (Ok tt, w).
Proof.
  intros Ht Hc. destruct w as [d h hs st sc]. cbn in Ht, Hc. subst. reflexivity.
Qed.

(** With both DataFrames stored, the call goes straight to the copies. *)
Lemma get_VWAP_df_skips_decoding w t c (include_cross_trade : bool) :
  self_trade_df w = Some t -> self_cross_trade_df w = Some c ->
  get_VWAP_df include_cross_trade w =
  ((if include_cross_trade then
      t ← attribute (self_trade_df w);
      a ← df_copy t;
      c ← attribute (self_cross_trade_df w);
      b ← df_copy c;
      pd_concat a b
    else
      t ← attribute (self_trade_df w);
      df_copy t) ≫= calculate_VWAP) w.
Proof.
  intros Ht Hc. unfold get_VWAP_df. mstep. unfold get_world at 1. cbv iota beta.
  rewrite Ht, Hc. rewrite !bool_decide_eq_false_2 by discriminate. cbn [orb].
  mstep. unfold mret at 1, M_ret at 1. cbv iota beta.
  mstep. unfold get_world at 1. cbv iota beta. rewrite Ht, Hc. reflexivity.
Qed.

(** The first call decodes the file, stores the two DataFrames and goes
    on as a call on the stored DataFrames does. *)
Lemma get_VWAP_df_first_call w (include_cross_trade : bool) :
  self_trade_df w = None \/ self_cross_trade_df w = None ->
  get_VWAP_df include_cross_trade w =
  match get_trade_data w with
  | (Ok dfs, w1) => get_VWAP_df include_cross_trade w1
  | (Err e, w1) => (Err e, w1)
  end.
Proof.
  intros Hnone.
  assert (Htest : bool_decide (self_trade_df w = None)
                  || bool_decide (self_cross_trade_df w = None) = true).
  { destruct Hnone as [H|H]; rewrite H; cbn; [reflexivity|apply orb_true_r]. }
  unfold get_VWAP_df at 1. mstep. unfold get_world at 1. cbv iota beta.
  rewrite Htest. mstep. mstep.
  rewrite get_trade_data_parse. cbv zeta.
  destruct (parse_from (length (itch_data w)) (drop 2 (itch_data w)) [] [])
    as [[lists|e] r']; cbn [fst snd]; [|reflexivity].
  set (w1 := after_get_trade_data w r' (Ok lists)).
  assert (Ht : self_trade_df w1 = Some (length (heap w))) by reflexivity.
  assert (Hc : self_cross_trade_df w1 = Some (S (length (heap w)))) by reflexivity.
  cbn [fst snd]. rewrite (assign_stored w1 _ _ Ht Hc). cbv iota beta.
  rewrite (get_VWAP_df_skips_decoding w1 _ _ include_cross_trade Ht Hc).
  mstep. unfold get_world at 1. cbv iota beta. reflexivity.
Qed.

(** From a complete stream to the table: without the flag the table is
    that of the [P] records of the stream, whatever [Q] messages it has;
    with the flag it is that of the [P] records followed by the [Q]
    records.  The stored DataFrames hold the records and no
    [total_value] column. *)
Lemma get_VWAP_df_on_stream w pre msgs (include_cross_trade : bool) :
  self_trade_df w = None \/ self_cross_trade_df w = None ->
  length pre = 2%nat ->
  Forall (fun m => well_formed m = true) msgs ->
  itch_data w = pre ++ concat msgs ->
  let w' := (get_VWAP_df include_cross_trade w).2 in
  (get_VWAP_df include_cross_trade w).1 =
    Ok (vwap_rows (if include_cross_trade
                   then (records_of msgs).1 ++ (records_of msgs).2
                   else (records_of msgs).1)) /\
  (exists t, self_trade_df w' = Some t /\
             heap w' !! t = Some (frame (records_of msgs).1)) /\
  (exists c, self_cross_trade_df w' = Some c /\
             heap w' !! c = Some (frame (records_of msgs).2)).
Proof.
  intros Hnone Hpre Hwf Hdata. cbv zeta.
  rewrite (get_VWAP_df_first_call w include_cross_trade Hnone).
  rewrite (get_trade_data_complete w pre msgs Hpre Hwf Hdata).
  set (w1 := after_get_trade_data w [] (Ok (records_of msgs))).
  assert (Ht : self_trade_df w1 = Some (length (heap w))) by reflexivity.
  assert (Hc : self_cross_trade_df w1 = Some (S (length (heap w)))) by reflexivity.
  assert (Hdt : heap w1 !! length (heap w) = Some (frame (records_of msgs).1)).
  { unfold w1. cbn. apply list_lookup_middle. reflexivity. }
  assert (Hdc : heap w1 !! S (length (heap w)) = Some (frame (records_of msgs).2)).
  { unfold w1. cbn.
    change (heap w ++ [?a; ?b]) with (heap w ++ [a] ++ [b]). rewrite app_assoc.
    apply list_lookup_middle. rewrite length_app. cbn. lia. }
  rewrite (get_VWAP_df_stored w1 _ _ _ _ include_cross_trade Ht Hc Hdt Hdc).
  destruct include_cross_trade; cbn [fst snd set_heap heap self_trade_df
    self_cross_trade_df df_rows frame]; (split; [reflexivity|]);
    split; eexists; (split; [reflexivity|]); apply lookup_app_l_Some; assumption.
Qed.

(** ** Groups without shares *)

Lemma vwap_of_zero_shares v : is_finite (vwap_of v 0) = false.
Proof. destruct v as [[]|[]| |[] m e]; reflexivity. Qed.

(** C6, as amended. [calculate_VWAP] raises no error on a group
    without shares: it returns its table, and in a row whose [shares] is
    zero [vwap] is NaN or an infinity, as is [cum_vwap] in a row whose
    [cum_shares] is zero. *)
Theorem zero_shares_give_no_error (w : world) (trade_df : nat) (df : DataFrame) :
  heap w !! trade_df = Some df ->
  exists out,
    (calculate_VWAP trade_df w).1 = Ok out /\
    forall r, In r out ->
      (row_shares r = 0 -> is_finite (row_vwap r) = false) /\
      (row_cum_shares r = 0 -> is_finite (row_cum_vwap r) = false).
Proof.
  intros Hdf. exists (vwap_rows (df_rows df)).
  rewrite (calculate_VWAP_run w trade_df df Hdf). split; [reflexivity|].
  intros r Hr%list_elem_of_In.
  destruct (vwap_rows_columns _ r Hr) as (_ & -> & ->).
  split; intros ->; apply vwap_of_zero_shares.
Qed.

Lemma zero_shares_give_no_error_witness :
  let w := (get_trade_data (fresh_world zero_share_stream)).2 in
  exists out,
    (calculate_VWAP 0 w).1 = Ok out /\
    forall r, In r out ->
      (row_shares r = 0 -> is_finite (row_vwap r) = false) /\
      (row_cum_shares r = 0 -> is_finite (row_cum_vwap r) = false).
Proof.
  apply (zero_shares_give_no_error _ 0
           (frame (records_of [P_message 34200000000000 "B" 0 AAPL 1000000]).1)).
  rewrite (get_trade_data_complete _ [x00; x00]
             [P_message 34200000000000 "B" 0 AAPL 1000000]);
    [reflexivity|reflexivity|repeat (constructor; [vm_compute; reflexivity|]); constructor
    |reflexivity].
Defined.

(** C6 as stated fails on a stream with one trade of zero shares: the
    run returns a table, and the [vwap] and [cum_vwap] of its row are
    NaN, the quotient of zero by zero. *)
Lemma zero_share_group_yields_nan :
  (get_VWAP_df false (fresh_world zero_share_stream)).1 =
  Ok [{| row_end_time_hour := 10; row_stock := "AAPL";
         row_total_value := S754_zero false; row_shares := 0;
         row_vwap := S754_nan;
         row_cum_total_value := S754_zero false; row_cum_shares := 0;
         row_cum_vwap := S754_nan |}].
Proof. vm_compute. reflexivity. Qed.

(** ** The hour of a timestamp *)

(** Within the first day the hour field of [str(td)] is read back as the
    hour: [end_time_hour] is the hour of the time string plus one. *)
Lemma end_time_hour_of_timedelta (td : timedelta) :
  td_days td = 0 -> 0 <= td_seconds td < 86400 ->
  end_time_hour_of (split_first "." (timedelta_str td))
  = Ok (td_seconds td / 3600 + 1).
Proof.
  intros Hd Hs. unfold end_time_hour_of, timedelta_str. rewrite Hd.
  change (0 =? 0) with true. cbv iota.
  assert (Hhh : td_seconds td / 60 / 60 = td_seconds td / 3600)
    by (rewrite Z.div_div by lia; reflexivity).
  rewrite Hhh.
  assert (Hr : 0 <= td_seconds td / 3600 < 24).
  { split; [apply Z.div_pos; lia|apply Z.div_lt_upper_bound; lia]. }
  set (hh := td_seconds td / 3600) in *. clearbody hh.
  generalize (fmt_0d 2 (td_seconds td / 60 mod 60)) as mm.
  generalize (fmt_0d 2 (td_seconds td mod 60)) as ss.
  generalize (fmt_0d 6 (td_microseconds td)) as us.
  intros us ss mm.
  assert (Hcases : In hh [0;1;2;3;4;5;6;7;8;9;10;11;12;13;14;15;16;17;18;19;20;21;22;23])
    by (cbn; lia).
  cbn [In] in Hcases.
  repeat (destruct Hcases as [<-|Hcases];
          [destruct (td_microseconds td =? 0); reflexivity|]).
  contradiction.
Qed.

(** C2, on the code.  The timestamps 04:00:30 and 05:00:00 decode to
    hour buckets 5 and 6, with the time strings ["4:00:30"] and
    ["5:00:00"], the hour not padded to two digits.  The timestamp
    00:59:59.999999999 is rounded up by [timedelta] to ["1:00:00"] and
    gets bucket 2 where the hour of the timestamp plus one is 1, and
    23:59:59.999999999 becomes ["1 day, 0:00:00"], on which [int] raises
    [ValueError] in either decoder. *)
Theorem hour_bucket_at_sample_timestamps :
  hour_bucket_of 14430000000000 = Ok ("4:00:30"%string, 5) /\
  hour_bucket_of 18000000000000 = Ok ("5:00:00"%string, 6) /\
  hour_bucket_of 3599999999999 = Ok ("1:00:00"%string, 2) /\
  time_str_of 86399999999999 = Ok "1 day, 0:00:00"%string /\
  hour_bucket_of 86399999999999 = Err ValueError /\
  trade_message (firstn 43 (skipn 1 (P_message 3599999999999 "B" 100 AAPL 1000000)))
    = Ok {| time := "1:00:00"; end_time_hour := 2; type := "B"; shares := 100;
            stock := "AAPL"; price := price_of 1000000 |} /\
  trade_message (firstn 43 (skipn 1 (P_message 86399999999999 "B" 100 AAPL 1000000)))
    = Err ValueError /\
  cross_trade_message
      (firstn 39 (skipn 1 (Q_message 3599999999999 50 AAPL 1000000 "O")))
    = Ok {| time := "1:00:00"; end_time_hour := 2; type := "O"; shares := 50;
            stock := "AAPL"; price := price_of 1000000 |}.
Proof. repeat split; vm_compute; reflexivity. Qed.

Lemma timedelta_seconds_range x td :
  timedelta_of_seconds x = Ok td -> 0 <= td_seconds td < 86400.
Proof.
  unfold timedelta_of_seconds.
  destruct x; try discriminate;
    match goal with |- context [if ?c then _ else _] => destruct c end;
    try discriminate; intros [= <-]; cbn [td_seconds];
    apply Z.mod_pos_bound; lia.
Qed.

(** For a timestamp that [timedelta] keeps within the first day,
    [end_time_hour] is the hour of the decoded time plus one. *)
Lemma hour_bucket_within_day ts td :
  timedelta_of_seconds (fdiv (float_of_Z ts) (float_of_Z 1000000000)) = Ok td ->
  td_days td = 0 ->
  hour_bucket_of ts
  = Ok (split_first "." (timedelta_str td), td_seconds td / 3600 + 1).
Proof.
  intros Htd Hd. unfold hour_bucket_of, time_str_of. rewrite Htd. cbn [mbind result_bind].
  rewrite end_time_hour_of_timedelta; [reflexivity|exact Hd|].
  eapply timedelta_seconds_range, Htd.
Qed.

(** One trade of 100 AAPL at 100.0000 in bucket 10. *)
Example one_trade_table :
  vwap_rows [sample_trade 10 "AAPL" 100 1000000] =
  [{| row_end_time_hour := 10; row_stock := "AAPL";
      row_total_value := float_of_Z 10000; row_shares := 100;
      row_vwap := float_of_Z 100;
      row_cum_total_value := float_of_Z 10000; row_cum_shares := 100;
      row_cum_vwap := float_of_Z 100 |}].
Proof. vm_compute. reflexivity. Qed.

(** 100 shares at 100 in bucket 10 and 200 at 50 in bucket 11: the
    cumulative price at bucket 11 is 66.667. *)
Example two_bucket_table :
  vwap_rows [sample_trade 10 "AAPL" 100 1000000; sample_trade 11 "AAPL" 200 500000] =
  [{| row_end_time_hour := 10; row_stock := "AAPL";
      row_total_value := float_of_Z 10000; row_shares := 100;
      row_vwap := float_of_Z 100;
      row_cum_total_value := float_of_Z 10000; row_cum_shares := 100;
      row_cum_vwap := float_of_Z 100 |};
   {| row_end_time_hour := 11; row_stock := "AAPL";
      row_total_value := float_of_Z 10000; row_shares := 200;
      row_vwap := float_of_Z 50;
      row_cum_total_value := float_of_Z 20000; row_cum_shares := 300;
      row_cum_vwap := int_truediv 66667 1000 |}].
Proof. vm_compute. reflexivity. Qed.

(** The example stream: without the cross the 09:30 bucket has the 100
    shares of the trade, with it the 150 shares of trade and cross. *)
Example example_stream_tables :
  map (fun r => (row_key r, row_shares r, row_cum_shares r))
    (match (get_VWAP_df false (fresh_world example_stream)).1 with
     | Ok out => out | Err _ => [] end)
  = [((10, "AAPL"%string), 100, 100); ((11, "AAPL"%string), 200, 300)] /\
  map (fun r => (row_key r, row_shares r, row_cum_shares r))
    (match (get_VWAP_df true (fresh_world example_stream)).1 with
     | Ok out => out | Err _ => [] end)
  = [((10, "AAPL"%string), 150, 150); ((11, "AAPL"%string), 200, 350)].
Proof. split; vm_compute; reflexivity. Qed.

(** ** The bytes a decoder reads *)

Lemma hour_bucket_bind {B} ts (k : string -> Z -> result B) :
  (time_str ← time_str_of ts; end_time_hour ← end_time_hour_of time_str;
   k time_str end_time_hour)
  = (tb ← hour_bucket_of ts; k tb.1 tb.2).
Proof.
  unfold hour_bucket_of. destruct (time_str_of ts) as [s|e]; [|reflexivity].
  cbn [mbind result_bind]. destruct (end_time_hour_of s); reflexivity.
Qed.

Lemma trade_message_eq (msg : bytes) :
  trade_message msg =
  if Nat.eqb (length msg) 43 then
    tb ← hour_bucket_of (be_decode (slice 4 10 msg));
    side ← decode_ascii (slice 18 19 msg);
    sym ← decode_ascii (slice 23 31 msg);
    Ok {| time := tb.1; end_time_hour := tb.2; type := side;
          shares := be_decode (slice 19 23 msg); stock := strip sym;
          price := price_of (be_decode (slice 31 35 msg)) |}
  else Err StructError.
Proof.
  unfold trade_message. rewrite trade_fields_direct.
  destruct (Nat.eqb (length msg) 43); [|reflexivity].
  cbn -[time_str_of end_time_hour_of decode_ascii be_decode slice price_of strip
        hour_bucket_of].
  rewrite (hour_bucket_bind _ (fun time_str end_time_hour => _)). reflexivity.
Qed.

Lemma cross_trade_message_eq (msg : bytes) :
  cross_trade_message msg =
  if Nat.eqb (length msg) 39 then
    tb ← hour_bucket_of (be_decode (slice 4 10 msg));
    cross ← decode_ascii (slice 38 39 msg);
    sym ← decode_ascii (slice 18 26 msg);
    Ok {| time := tb.1; end_time_hour := tb.2; type := cross;
          shares := be_decode (slice 10 18 msg); stock := strip sym;
          price := price_of (be_decode (slice 26 30 msg)) |}
  else Err StructError.
Proof.
  unfold cross_trade_message. rewrite cross_trade_fields_direct.
  destruct (Nat.eqb (length msg) 39); [|reflexivity].
  cbn -[time_str_of end_time_hour_of decode_ascii be_decode slice price_of strip
        hour_bucket_of].
  rewrite (hour_bucket_bind _ (fun time_str end_time_hour => _)). reflexivity.
Qed.

Lemma slice_slice {A} (a b i j : nat) (l : list A) :
  (i <= j)%nat -> (a + j <= b)%nat ->
  slice i j (slice a b l) = slice (a + i) (a + j) l.
Proof.
  intros Hij Hjb. unfold slice.
  rewrite skipn_firstn_comm, firstn_firstn, drop_drop.
  replace (a + j - (a + i))%nat with (j - i)%nat by lia.
  f_equal. lia.
Qed.

(** ** Strings: [strip], [split] and [int] on the text of a [timedelta] *)

Lemma append_cons c (a b : string) : String c a +:+ b = String c (a +:+ b).
Proof. reflexivity. Qed.

Lemma list_ascii_app (a b : string) :
  list_ascii_of_string (a +:+ b) = list_ascii_of_string a ++ list_ascii_of_string b.
Proof.
  induction a as [|c a IH]; [reflexivity|].
  rewrite append_cons. cbn. rewrite IH. reflexivity.
Qed.

Lemma string_length_list (s : string) :
  String.length s = length (list_ascii_of_string s).
Proof. induction s as [|c s IH]; cbn; [reflexivity|]. rewrite IH. reflexivity. Qed.

Lemma string_app_assoc (a b c : string) : (a +:+ b) +:+ c = a +:+ (b +:+ c).
Proof.
  induction a as [|x a IH]; [reflexivity|]. rewrite !append_cons, IH. reflexivity.
Qed.

Lemma lstrip_idem l : lstrip (lstrip l) = lstrip l.
Proof.
  induction l as [|c l IH]; cbn; [reflexivity|].
  destruct (py_isspace c) eqn:E; [exact IH|]. cbn. rewrite E. reflexivity.
Qed.

Lemma lstrip_length l : (length (lstrip l) <= length l)%nat.
Proof.
  induction l as [|c l IH]; cbn; [lia|]. destruct (py_isspace c); cbn; lia.
Qed.

Lemma lstrip_head l c l' : lstrip l = c :: l' -> py_isspace c = false.
Proof.
  induction l as [|x l IH]; cbn; [discriminate|].
  destruct (py_isspace x) eqn:E; [exact IH|]. intros [= <- _]. exact E.
Qed.

Lemma lstrip_nonspace c l : py_isspace c = false -> lstrip (c :: l) = c :: l.
Proof. intros E. cbn. rewrite E. reflexivity. Qed.

(** Stripping on the left stops at the first character that is no
    whitespace, at the latest. *)
Lemma lstrip_app_nonspace a c b :
  py_isspace c = false ->
  exists a', lstrip (a ++ c :: b) = a' ++ c :: b /\ (length a' <= length a)%nat.
Proof.
  intros E. induction a as [|x a IH]; cbn.
  - rewrite E. exists []. split; [reflexivity|cbn; lia].
  - destruct (py_isspace x).
    + destruct IH as (a' & -> & Hl). exists a'. split; [reflexivity|lia].
    + exists (x :: a). split; [reflexivity|cbn; lia].
Qed.

Lemma strip_length s : (String.length (strip s) <= String.length s)%nat.
Proof.
  unfold strip. rewrite !string_length_list, list_ascii_of_string_of_list_ascii.
  rewrite length_rev.
  etrans; [apply lstrip_length|]. rewrite length_rev. apply lstrip_length.
Qed.

(** [strip] leaves no whitespace at either end: stripping again changes
    nothing. *)
Lemma strip_idem s : strip (strip s) = strip s.
Proof.
  unfold strip. rewrite list_ascii_of_string_of_list_ascii.
  set (a := lstrip (list_ascii_of_string s)).
  assert (Hb : lstrip (rev (lstrip (rev a))) = rev (lstrip (rev a))).
  { destruct a as [|c a'] eqn:Ea; [reflexivity|].
    assert (Hc : py_isspace c = false) by (eapply lstrip_head; exact Ea).
    cbn [rev].
    destruct (lstrip_app_nonspace (rev a') c [] Hc) as (x & -> & _).
    rewrite rev_app_distr. cbn [rev app]. apply lstrip_nonspace, Hc. }
  rewrite Hb, rev_involutive, lstrip_idem. reflexivity.
Qed.

(** A string whose first and last characters are no whitespace is left
    alone. *)
Lemma strip_keeps_prefix (a : list ascii) c (b : list ascii) :
  match a with
  | [] => py_isspace c = false
  | y :: _ => py_isspace y = false
  end ->
  py_isspace c = false ->
  exists b', list_ascii_of_string (strip (string_of_list_ascii (a ++ c :: b)))
             = a ++ c :: b'.
Proof.
  intros Ha Hc. unfold strip. rewrite !list_ascii_of_string_of_list_ascii.
  assert (Hl : lstrip (a ++ c :: b) = a ++ c :: b).
  { destruct a as [|y a]; cbn [app]; apply lstrip_nonspace; assumption. }
  rewrite Hl, rev_app_distr. cbn [rev]. rewrite <- app_assoc. cbn [app].
  destruct (lstrip_app_nonspace (rev b) c (rev a) Hc) as (b' & -> & _).
  exists (rev b').
  rewrite rev_app_distr. cbn [rev]. rewrite rev_involutive, <- app_assoc. reflexivity.
Qed.

Lemma is_digit_not_space c : is_digit c = true -> py_isspace c = false.
Proof.
  unfold is_digit, py_isspace. intros [H1 H2]%andb_true_iff.
  apply Z.leb_le in H1, H2.
  apply orb_false_iff. split; apply andb_false_iff.
  - right. apply Z.leb_gt. lia.
  - right. apply Z.leb_gt. lia.
Qed.

Lemma uint_digits u :
  Forall (fun c => is_digit c = true) (list_ascii_of_string (NilEmpty.string_of_uint u)).
Proof. induction u; cbn; constructor; (reflexivity || assumption). Qed.

(** ['%d' % d] is an optional minus sign and at least one digit. *)
Lemma fmt_d_shape d :
  exists c ds, Forall (fun c => is_digit c = true) (c :: ds) /\
    list_ascii_of_string (fmt_d d) = if d <? 0 then "-"%char :: c :: ds else c :: ds.
Proof.
  assert (Hu : forall u, exists c ds, Forall (fun c => is_digit c = true) (c :: ds) /\
                 list_ascii_of_string (NilZero.string_of_uint u) = c :: ds).
  { intros u. pose proof (uint_digits u) as H.
    destruct u; cbn in *; try (eexists _, _; split; [exact H|reflexivity]).
    exists "0"%char, []. split; [repeat constructor|reflexivity]. }
  unfold fmt_d. destruct d as [|p|p]; cbn [Z.to_int NilZero.string_of_int Z.ltb Z.compare].
  - exists "0"%char, []. split; [repeat constructor|reflexivity].
  - apply Hu.
  - destruct (Hu (Pos.to_uint p)) as (c & ds & Hd & E). exists c, ds.
    split; [exact Hd|]. cbn. rewrite E. reflexivity.
Qed.

Lemma parse_digits_stop ds : forall c rest acc after_digit,
  Forall (fun c => is_digit c = true) ds ->
  is_digit c = false -> c <> "_"%char ->
  parse_digits (ds ++ c :: rest) acc after_digit = None.
Proof.
  induction ds as [|x ds IH]; intros c rest acc after_digit Hds Hc Hu; cbn.
  - rewrite Hc. apply Ascii.eqb_neq in Hu. rewrite Hu. reflexivity.
  - inversion Hds as [|? ? Hx Hds']; subst. rewrite Hx. apply IH; assumption.
Qed.

Lemma split_first_app sep (a b : string) :
  Forall (fun c => c <> sep) (list_ascii_of_string a) ->
  split_first sep (a +:+ b) = a +:+ split_first sep b.
Proof.
  induction a as [|c a IH]; intros H; [reflexivity|].
  cbn in H. inversion H as [|? ? Hc Ha]; subst.
  rewrite !append_cons. cbn [split_first].
  apply Ascii.eqb_neq in Hc. rewrite Hc, IH by assumption. reflexivity.
Qed.

(** [int] does not read a string that goes on with [" day"] after a
    number. *)
Lemma py_int_days d (rest : string) :
  py_int (fmt_d d +:+ " day" +:+ rest) = Err ValueError.
Proof.
  destruct (fmt_d_shape d) as (c & ds & Hds & Hd).
  set (LD := list_ascii_of_string (fmt_d d)) in *.
  assert (Hstr : fmt_d d +:+ " day" +:+ rest
    = string_of_list_ascii ((LD ++ [" "; "d"; "a"]%char) ++ "y"%char :: list_ascii_of_string rest)).
  { rewrite <- (string_of_list_ascii_of_string (_ +:+ _)).
    f_equal. rewrite !list_ascii_app. fold LD. rewrite <- app_assoc. reflexivity. }
  assert (Hhead : match LD ++ [" "; "d"; "a"]%char with
                  | [] => py_isspace "y" = false
                  | y :: _ => py_isspace y = false
                  end).
  { rewrite Hd. inversion Hds; subst.
    destruct (d <? 0); cbn [app]; [reflexivity|]. apply is_digit_not_space. assumption. }
  unfold py_int. rewrite Hstr.
  destruct (strip_keeps_prefix _ "y" (list_ascii_of_string rest) Hhead eq_refl) as (b' & ->).
  rewrite <- !app_assoc. cbn [app]. rewrite Hd.
  assert (Hstop : parse_digits ((c :: ds) ++ " "%char :: "d"%char :: "a"%char :: "y"%char :: b') 0 false
                  = None)
    by (apply parse_digits_stop; [assumption|reflexivity|discriminate]).
  cbn [app] in Hstop.
  destruct (d <? 0); cbn [app].
  - rewrite Hstop. reflexivity.
  - inversion Hds as [|? ? Hc Hds']; subst.
    destruct c as [[] [] [] [] [] [] [] []]; try discriminate Hc; rewrite Hstop; reflexivity.
Qed.

(** Past the first day [str(td)] starts with the number of days, and
    [int] raises [ValueError] on the text before the first colon. *)
Lemma end_time_hour_of_days (td : timedelta) :
  td_days td <> 0 ->
  end_time_hour_of (split_first "." (timedelta_str td)) = Err ValueError.
Proof.
  intros Hd. unfold end_time_hour_of, timedelta_str.
  apply Z.eqb_neq in Hd. rewrite Hd.
  set (D := fmt_d (td_days td)).
  set (P := if Z.abs (td_days td) =? 1 then ""%string else "s"%string).
  set (S0 := fmt_d _ +:+ ":" +:+ fmt_0d 2 _ +:+ ":" +:+ fmt_0d 2 _).
  assert (Hshape : exists Z0,
    (if td_microseconds td =? 0 then D +:+ " day" +:+ P +:+ ", " +:+ S0
     else (D +:+ " day" +:+ P +:+ ", " +:+ S0) +:+ "." +:+ fmt_0d 6 (td_microseconds td))
    = (D +:+ " day") +:+ Z0).
  { destruct (td_microseconds td =? 0).
    - eexists. rewrite string_app_assoc. reflexivity.
    - eexists. rewrite !string_app_assoc. reflexivity. }
  destruct Hshape as (Z0 & ->).
  assert (Hno : forall sep, is_digit sep = false -> sep <> "-"%char -> sep <> " "%char ->
                  sep <> "d"%char -> sep <> "a"%char -> sep <> "y"%char ->
                  Forall (fun c => c <> sep) (list_ascii_of_string (D +:+ " day"))).
  { intros sep Hs H1 H2 H3 H4 H5. rewrite list_ascii_app. apply Forall_app. split.
    - destruct (fmt_d_shape (td_days td)) as (c & ds & Hds & E). fold D in E. rewrite E.
      assert (Hdig : Forall (fun c => c <> sep) (c :: ds)).
      { eapply Forall_impl; [exact Hds|]. cbn. intros x Hx ->. congruence. }
      destruct (_ <? 0); [constructor; [congruence|]|]; exact Hdig.
    - cbn. repeat constructor; congruence. }
  rewrite split_first_app by (apply Hno; [reflexivity|discriminate..]).
  rewrite split_first_app by (apply Hno; [reflexivity|discriminate..]).
  rewrite string_app_assoc. unfold D. rewrite py_int_days. reflexivity.
Qed.

Lemma split_first_none sep (a : string) :
  Forall (fun c => c <> sep) (list_ascii_of_string a) -> split_first sep a = a.
Proof.
  induction a as [|c a IH]; intros H; [reflexivity|].
  cbn in H. inversion H as [|? ? Hc Ha]; subst. cbn [split_first].
  apply Ascii.eqb_neq in Hc. rewrite Hc, IH by assumption. reflexivity.
Qed.

Lemma split_first_at sep (a b : string) :
  Forall (fun c => c <> sep) (list_ascii_of_string a) ->
  split_first sep (a +:+ String sep b) = a.
Proof.
  intros H. rewrite split_first_app by exact H. cbn [split_first].
  rewrite Ascii.eqb_refl. induction a as [|c a IH]; [reflexivity|].
  rewrite append_cons. f_equal. apply IH. cbn in H. inversion H; assumption.
Qed.

Lemma fmt_d_digits z :
  0 <= z -> Forall (fun c => is_digit c = true) (list_ascii_of_string (fmt_d z)).
Proof.
  intros Hz. destruct (fmt_d_shape z) as (c & ds & Hds & E).
  replace (z <? 0) with false in E by (symmetry; apply Z.ltb_ge; exact Hz).
  rewrite E. exact Hds.
Qed.

Lemma fmt_0d_digits w z :
  0 <= z -> Forall (fun c => is_digit c = true) (list_ascii_of_string (fmt_0d w z)).
Proof.
  intros Hz. unfold fmt_0d.
  replace (z <? 0) with false by (symmetry; apply Z.ltb_ge; exact Hz).
  rewrite list_ascii_app. apply Forall_app. split; [|apply fmt_d_digits, Hz].
  induction (w - String.length (fmt_d z))%nat as [|n IH]; cbn; constructor;
    [reflexivity|exact IH].
Qed.

Lemma clock_no_dot s :
  0 <= s -> Forall (fun c => c <> "."%char) (list_ascii_of_string (clock s)).
Proof.
  intros Hs. unfold clock.
  assert (Hd : forall l, Forall (fun c => is_digit c = true) l ->
                 Forall (fun c => c <> "."%char) l).
  { intros l H. eapply Forall_impl; [exact H|]. cbn. intros x Hx ->. discriminate. }
  rewrite !list_ascii_app. repeat (apply Forall_app; split).
  - apply Hd, fmt_d_digits. apply Z.div_pos; lia.
  - repeat constructor. discriminate.
  - apply Hd, fmt_0d_digits. apply Z.mod_pos_bound; lia.
  - repeat constructor. discriminate.
  - apply Hd, fmt_0d_digits. apply Z.mod_pos_bound; lia.
Qed.

(** Within the first day the time string is the clock text of the whole
    seconds: the microseconds are cut off at the point. *)
Lemma time_str_within_day (td : timedelta) :
  td_days td = 0 -> 0 <= td_seconds td ->
  split_first "." (timedelta_str td) = clock (td_seconds td).
Proof.
  intros Hd Hs. unfold timedelta_str. rewrite Hd. change (0 =? 0) with true. cbv iota.
  rewrite Z.div_div by lia. change (60 * 60) with 3600. fold (clock (td_seconds td)).
  destruct (td_microseconds td =? 0).
  - apply split_first_none, clock_no_dot, Hs.
  - change ("." +:+ ?x) with (String "." x). apply split_first_at, clock_no_dot, Hs.
Qed.

(** Whenever a timestamp decodes, its time string is a time of day
    before 24:00:00 and [end_time_hour] is the hour of that string plus
    one. *)
Lemma hour_bucket_of_ok ts str h :
  hour_bucket_of ts = Ok (str, h) ->
  exists s, 0 <= s < 86400 /\ str = clock s /\ h = s / 3600 + 1.
Proof.
  unfold hour_bucket_of, time_str_of. intros H.
  destruct (timedelta_of_seconds _) as [td|e] eqn:Etd; [|discriminate].
  pose proof (timedelta_seconds_range _ _ Etd) as Hr.
  cbn [mbind result_bind] in H.
  destruct (Z.eq_dec (td_days td) 0) as [Hd|Hd].
  - rewrite end_time_hour_of_timedelta in H by assumption.
    cbn [mbind result_bind] in H. injection H as <- <-.
    exists (td_seconds td). split; [exact Hr|]. split; [|reflexivity].
    apply time_str_within_day; [exact Hd|lia].
  - rewrite end_time_hour_of_days in H by exact Hd. discriminate.
Qed.

(** ** The records the decoders return *)

(** X1. The byte layout the two decoders read.  Of the 43 bytes of a [P]
    payload, bytes 4 to 9 are the timestamp, byte 18 the side, bytes 19
    to 22 the shares, 23 to 30 the stock and 31 to 34 the price; of the
    39 bytes of a [Q] payload, bytes 4 to 9 are the timestamp, 10 to 17
    the shares, 18 to 25 the stock, 26 to 29 the price and byte 38 the
    cross type.  A buffer of another length raises [struct.error]; then
    the time is converted, then the type is decoded, then the stock. *)
Theorem decoder_byte_layout :
  (forall msg : bytes,
     trade_message msg =
     if Nat.eqb (length msg) 43 then
       tb ← hour_bucket_of (be_decode (slice 4 10 msg));
       side ← decode_ascii (slice 18 19 msg);
       sym ← decode_ascii (slice 23 31 msg);
       Ok {| time := tb.1; end_time_hour := tb.2; type := side;
             shares := be_decode (slice 19 23 msg); stock := strip sym;
             price := price_of (be_decode (slice 31 35 msg)) |}
     else Err StructError) /\
  (forall msg : bytes,
     cross_trade_message msg =
     if Nat.eqb (length msg) 39 then
       tb ← hour_bucket_of (be_decode (slice 4 10 msg));
       cross ← decode_ascii (slice 38 39 msg);
       sym ← decode_ascii (slice 18 26 msg);
       Ok {| time := tb.1; end_time_hour := tb.2; type := cross;
             shares := be_decode (slice 10 18 msg); stock := strip sym;
             price := price_of (be_decode (slice 26 30 msg)) |}
     else Err StructError).
Proof.
  split; intros msg.
  - apply trade_message_eq.
  - apply cross_trade_message_eq.
Qed.

(** X2. The decoders never look at the identifiers of a message: two
    payloads of the same length that agree on the timestamp and on the
    bytes from the side to the price decode alike as [P] payloads,
    whatever their stock locate, tracking number, order reference and
    match number are; two that agree on bytes 4 to 29 and on the cross
    type decode alike as [Q] payloads. *)
Theorem decoders_ignore_identifiers (msg msg' : bytes) :
  length msg = length msg' ->
  (slice 4 10 msg = slice 4 10 msg' -> slice 18 35 msg = slice 18 35 msg' ->
   trade_message msg = trade_message msg') /\
  (slice 4 30 msg = slice 4 30 msg' -> slice 38 39 msg = slice 38 39 msg' ->
   cross_trade_message msg = cross_trade_message msg').
Proof.
  intros Hlen. split.
  - intros Hts Hrest. rewrite !trade_message_eq, Hlen, Hts.
    assert (H1 : slice 18 19 msg = slice 18 19 msg')
      by (rewrite <- !(slice_slice 18 35 0 1) by lia; rewrite Hrest; reflexivity).
    assert (H2 : slice 19 23 msg = slice 19 23 msg')
      by (rewrite <- !(slice_slice 18 35 1 5) by lia; rewrite Hrest; reflexivity).
    assert (H3 : slice 23 31 msg = slice 23 31 msg')
      by (rewrite <- !(slice_slice 18 35 5 13) by lia; rewrite Hrest; reflexivity).
    assert (H4 : slice 31 35 msg = slice 31 35 msg')
      by (rewrite <- !(slice_slice 18 35 13 17) by lia; rewrite Hrest; reflexivity).
    rewrite H1, H2, H3, H4. reflexivity.
  - intros Hrest Hcross. rewrite !cross_trade_message_eq, Hlen, Hcross.
    assert (H0 : slice 4 10 msg = slice 4 10 msg')
      by (rewrite <- !(slice_slice 4 30 0 6) by lia; rewrite Hrest; reflexivity).
    assert (H1 : slice 10 18 msg = slice 10 18 msg')
      by (rewrite <- !(slice_slice 4 30 6 14) by lia; rewrite Hrest; reflexivity).
    assert (H2 : slice 18 26 msg = slice 18 26 msg')
      by (rewrite <- !(slice_slice 4 30 14 22) by lia; rewrite Hrest; reflexivity).
    assert (H3 : slice 26 30 msg = slice 26 30 msg')
      by (rewrite <- !(slice_slice 4 30 22 26) by lia; rewrite Hrest; reflexivity).
    rewrite H0, H1, H2, H3. reflexivity.
Qed.

Lemma decoders_ignore_identifiers_witness :
  let msg := firstn 43 (skipn 1 (P_message 34200000000000 "B" 100 AAPL 1000000)) in
  let msg' := be_encode 2 9 ++ be_encode 2 8 ++ be_encode 6 34200000000000
                ++ be_encode 8 123456 ++ ["B"%byte] ++ be_encode 4 100 ++ AAPL
                ++ be_encode 4 1000000 ++ be_encode 8 654321 in
  length msg = length msg' /\ msg <> msg' /\
  (slice 4 10 msg = slice 4 10 msg' -> slice 18 35 msg = slice 18 35 msg' ->
   trade_message msg = trade_message msg') /\
  (slice 4 30 msg = slice 4 30 msg' -> slice 38 39 msg = slice 38 39 msg' ->
   cross_trade_message msg = cross_trade_message msg').
Proof.
  cbv zeta. split; [reflexivity|]. split; [discriminate|].
  apply decoders_ignore_identifiers. reflexivity.
Defined.

Lemma slice_length_eq {A} (i j : nat) (l : list A) :
  (j <= length l)%nat -> length (slice i j l) = (j - i)%nat.
Proof. intros H. unfold slice. rewrite length_take, length_drop. lia. Qed.

Lemma decode_ascii_length b s :
  decode_ascii b = Ok s -> String.length s = length b.
Proof.
  unfold decode_ascii. destruct (forallb _ b); [|discriminate]. intros [= <-].
  rewrite string_length_list, list_ascii_of_string_of_list_ascii, length_map.
  reflexivity.
Qed.

Lemma decoded_text_fields t :
  decoded t ->
  (exists s, 0 <= s < 86400 /\ time t = clock s /\ end_time_hour t = s / 3600 + 1) /\
  String.length (type t) = 1%nat /\
  (String.length (stock t) <= 8)%nat /\ strip (stock t) = stock t.
Proof.
  intros [msg [H|H]].
  - rewrite trade_message_eq in H.
    destruct (Nat.eqb (length msg) 43) eqn:Hlen; [|discriminate].
    apply Nat.eqb_eq in Hlen.
    apply rbind_ok in H as ([str h] & Htb & H).
    apply rbind_ok in H as (side & Hside & H).
    apply rbind_ok in H as (sym & Hsym & H).
    injection H as <-. cbn [time end_time_hour type stock].
    split; [apply (hour_bucket_of_ok _ _ _ Htb)|].
    split; [rewrite (decode_ascii_length _ _ Hside); apply slice_length_eq; lia|].
    split; [|apply strip_idem].
    etrans; [apply strip_length|]. rewrite (decode_ascii_length _ _ Hsym).
    apply (slice_length 23 31 msg).
  - rewrite cross_trade_message_eq in H.
    destruct (Nat.eqb (length msg) 39) eqn:Hlen; [|discriminate].
    apply Nat.eqb_eq in Hlen.
    apply rbind_ok in H as ([str h] & Htb & H).
    apply rbind_ok in H as (side & Hside & H).
    apply rbind_ok in H as (sym & Hsym & H).
    injection H as <-. cbn [time end_time_hour type stock].
    split; [apply (hour_bucket_of_ok _ _ _ Htb)|].
    split; [rewrite (decode_ascii_length _ _ Hside); apply slice_length_eq; lia|].
    split; [|apply strip_idem].
    etrans; [apply strip_length|]. rewrite (decode_ascii_length _ _ Hsym).
    apply (slice_length 18 26 msg).
Qed.

(** X3. What every record of either decoder satisfies: its time is a
    time of day before 24:00:00 in the form [H:MM:SS] and its
    [end_time_hour] is the hour of that time plus one, so between 1 and
    24; its type is one character; its share count is an unsigned
    integer of at most 64 bits; its stock has at most 8 characters and
    no whitespace at either end; its price is a finite float without a
    minus sign. *)
Theorem decoded_record_invariants (t : TradeRecord) :
  decoded t ->
  (exists s, 0 <= s < 86400 /\ time t = clock s /\ end_time_hour t = s / 3600 + 1) /\
  1 <= end_time_hour t <= 24 /\
  String.length (type t) = 1%nat /\
  0 <= shares t < 2 ^ 64 /\
  (String.length (stock t) <= 8)%nat /\ strip (stock t) = stock t /\
  finite_nonneg (price t) = true.
Proof.
  intros Ht.
  destruct (decoded_text_fields t Ht) as ((s & Hs & Htime & Hh) & Htype & Hlen & Hstrip).
  destruct (decoded_fields t Ht) as (Hshares & p & Hp & Hprice).
  split; [exists s; auto|].
  split.
  { rewrite Hh.
    assert (0 <= s / 3600 < 24)
      by (split; [apply Z.div_pos; lia|apply Z.div_lt_upper_bound; lia]).
    lia. }
  repeat (split; [assumption|]).
  rewrite Hprice. apply price_of_finite, Hp.
Qed.

Lemma decoded_record_invariants_witness :
  let t := {| time := "9:30:00"; end_time_hour := 10; type := "B"; shares := 100;
              stock := "AAPL"; price := price_of 1000000 |} in
  (exists s, 0 <= s < 86400 /\ time t = clock s /\ end_time_hour t = s / 3600 + 1) /\
  1 <= end_time_hour t <= 24 /\
  String.length (type t) = 1%nat /\
  0 <= shares t < 2 ^ 64 /\
  (String.length (stock t) <= 8)%nat /\ strip (stock t) = stock t /\
  finite_nonneg (price t) = true.
Proof.
  apply decoded_record_invariants.
  exists (firstn 43 (skipn 1 (P_message 34200000000000 "B" 100 AAPL 1000000))).
  left. vm_compute. reflexivity.
Defined.

(** ** The rows of the two DataFrames *)

Lemma add_records_other lists m :
  is_trade m = false -> add_records lists m = lists.
Proof.
  unfold is_trade, add_records. destruct m as [|t body]; cbn.
  - intros _. rewrite !app_nil_r. destruct lists; reflexivity.
  - intros [-> ->]%orb_false_iff. cbn. rewrite !app_nil_r. destruct lists; reflexivity.
Qed.

Lemma add_records_P lists m :
  well_formed m = true -> is_type "P" m = true ->
  exists r, trade_message (payload 43 m) = Ok r /\
            add_records lists m = (lists.1 ++ [r], lists.2).
Proof.
  destruct m as [|t body]; [discriminate|]. cbn [is_type]. intros Hwf Ht.
  unfold well_formed in Hwf. destruct (message_length t); [|discriminate].
  apply andb_true_iff in Hwf as [_ Hok].
  unfold add_records. cbn [message_records] in *. rewrite Ht in *.
  unfold payload. cbn [skipn]. change (drop 0 body) with body.
  destruct (trade_message (take 43 body)) as [r|e]; [|discriminate].
  exists r. cbn. rewrite app_nil_r. auto.
Qed.

Lemma add_records_Q lists m :
  well_formed m = true -> is_type "Q" m = true ->
  exists r, cross_trade_message (payload 39 m) = Ok r /\
            add_records lists m = (lists.1, lists.2 ++ [r]).
Proof.
  destruct m as [|t body]; [discriminate|]. cbn [is_type]. intros Hwf Ht.
  apply Byte.byte_dec_bl in Ht. subst t.
  unfold well_formed in Hwf. cbn [message_length] in Hwf.
  apply andb_true_iff in Hwf as [_ Hok].
  unfold add_records. cbn [message_records] in *.
  change (Byte.eqb "Q" "P") with false in *. change (Byte.eqb "Q" "Q") with true in *.
  cbv iota in *. unfold payload. cbn [skipn]. change (drop 0 body) with body.
  destruct (cross_trade_message (take 39 body)) as [r|e]; [|discriminate].
  exists r. cbn. rewrite app_nil_r. auto.
Qed.

Lemma is_type_P_not_Q m : is_type "P" m = true -> is_type "Q" m = false.
Proof.
  destruct m as [|t body]; [discriminate|]. cbn.
  intros ->%Byte.byte_dec_bl. reflexivity.
Qed.

(** The records collected from complete messages: the decoded payloads
    of the [P] messages and of the [Q] messages, each in stream order. *)
Lemma foldl_add_records_rows msgs : forall lists,
  Forall (fun m => well_formed m = true) msgs ->
  map Ok (foldl add_records lists msgs).1
    = map Ok lists.1
      ++ map (fun m => trade_message (payload 43 m)) (List.filter (is_type "P") msgs) /\
  map Ok (foldl add_records lists msgs).2
    = map Ok lists.2
      ++ map (fun m => cross_trade_message (payload 39 m)) (List.filter (is_type "Q") msgs).
Proof.
  induction msgs as [|m msgs IH]; intros lists Hwf.
  - cbn. rewrite !app_nil_r. auto.
  - inversion Hwf as [|? ? Hm Hms]; subst. cbn [foldl List.filter].
    destruct (is_type "P" m) eqn:EP.
    + rewrite (is_type_P_not_Q m EP).
      destruct (add_records_P lists m Hm EP) as (r & Hr & ->).
      destruct (IH (lists.1 ++ [r], lists.2) Hms) as [-> ->]. cbn [fst snd map].
      rewrite map_app, <- app_assoc, Hr. auto.
    + destruct (is_type "Q" m) eqn:EQ.
      * destruct (add_records_Q lists m Hm EQ) as (r & Hr & ->).
        destruct (IH (lists.1, lists.2 ++ [r]) Hms) as [-> ->]. cbn [fst snd map].
        rewrite map_app, <- app_assoc, Hr. auto.
      * rewrite add_records_other by (unfold is_trade; rewrite EP, EQ; reflexivity).
        apply IH, Hms.
Qed.

(** X4. On a file made of the two leading bytes and complete messages,
    [get_trade_data] returns two new DataFrames and stores them in the
    two attributes: the rows of the first are the decoded payloads of
    the [P] messages, in the order of the file, those of the second the
    decoded payloads of the [Q] messages; neither has a [total_value]
    column. *)
Theorem trade_rows_in_stream_order (w : world) (pre : bytes) (msgs : list bytes) :
  length pre = 2%nat ->
  Forall (fun m => well_formed m = true) msgs ->
  itch_data w = pre ++ concat msgs ->
  let out := get_trade_data w in
  exists t c rows cross_rows,
    out.1 = Ok (t, c) /\
    self_trade_df out.2 = Some t /\ self_cross_trade_df out.2 = Some c /\
    heap w !! t = None /\ heap w !! c = None /\ t <> c /\
    heap out.2 !! t = Some (frame rows) /\
    heap out.2 !! c = Some (frame cross_rows) /\
    map Ok rows
      = map (fun m => trade_message (payload 43 m)) (List.filter (is_type "P") msgs) /\
    map Ok cross_rows
      = map (fun m => cross_trade_message (payload 39 m)) (List.filter (is_type "Q") msgs).
Proof.
  intros Hpre Hwf Hdata. cbv zeta.
  rewrite (get_trade_data_complete w pre msgs Hpre Hwf Hdata). cbn [fst snd].
  exists (length (heap w)), (S (length (heap w))),
    (records_of msgs).1, (records_of msgs).2.
  cbn [after_get_trade_data self_trade_df self_cross_trade_df heap].
  split; [reflexivity|]. split; [reflexivity|]. split; [reflexivity|].
  split; [apply lookup_ge_None; lia|]. split; [apply lookup_ge_None; lia|].
  split; [lia|].
  split; [apply list_lookup_middle; reflexivity|].
  split.
  { change (heap w ++ [?a; ?b]) with (heap w ++ [a] ++ [b]). rewrite app_assoc.
    apply list_lookup_middle. rewrite length_app. cbn. lia. }
  apply (foldl_add_records_rows msgs ([], []) Hwf).
Qed.

Lemma trade_rows_in_stream_order_witness :
  let w := fresh_world example_stream in
  let out := get_trade_data w in
  exists t c rows cross_rows,
    out.1 = Ok (t, c) /\
    self_trade_df out.2 = Some t /\ self_cross_trade_df out.2 = Some c /\
    heap w !! t = None /\ heap w !! c = None /\ t <> c /\
    heap out.2 !! t = Some (frame rows) /\
    heap out.2 !! c = Some (frame cross_rows) /\
    map Ok rows
      = map (fun m => trade_message (payload 43 m))
          (List.filter (is_type "P") example_messages) /\
    map Ok cross_rows
      = map (fun m => cross_trade_message (payload 39 m))
          (List.filter (is_type "Q") example_messages).
Proof.
  apply (trade_rows_in_stream_order (fresh_world example_stream) [x00; x00]
           example_messages).
  - reflexivity.
  - repeat (constructor; [vm_compute; reflexivity|]). constructor.
  - reflexivity.
Defined.

Lemma foldl_add_records_trades msgs : forall lists,
  foldl add_records lists (List.filter is_trade msgs) = foldl add_records lists msgs.
Proof.
  induction msgs as [|m msgs IH]; intros lists; [reflexivity|].
  cbn [List.filter foldl]. destruct (is_trade m) eqn:E.
  - cbn [foldl]. apply IH.
  - rewrite add_records_other by exact E. apply IH.
Qed.

Lemma Forall_list_filter {A} (P : A -> Prop) (f : A -> bool) (l : list A) :
  Forall P l -> Forall P (List.filter f l).
Proof.
  induction 1 as [|x l Hx _ IH]; cbn; [constructor|].
  destruct (f x); [constructor; assumption|assumption].
Qed.

(** X5. The 19 message types without trade data leave no trace, and
    neither do the two leading bytes: a file of complete messages and
    the file with only its [P] and [Q] messages, behind any two leading
    bytes, give the same result and the same DataFrames. *)
Theorem other_messages_leave_no_trace (w w' : world) (pre pre' : bytes)
    (msgs : list bytes) :
  length pre = 2%nat -> length pre' = 2%nat ->
  Forall (fun m => well_formed m = true) msgs ->
  itch_data w = pre ++ concat msgs ->
  itch_data w' = pre' ++ concat (List.filter is_trade msgs) ->
  heap w' = heap w ->
  (get_trade_data w').1 = (get_trade_data w).1 /\
  heap (get_trade_data w').2 = heap (get_trade_data w).2 /\
  self_trade_df (get_trade_data w').2 = self_trade_df (get_trade_data w).2 /\
  self_cross_trade_df (get_trade_data w').2 = self_cross_trade_df (get_trade_data w).2.
Proof.
  intros Hpre Hpre' Hwf Hdata Hdata' Hheap.
  rewrite (get_trade_data_complete w pre msgs Hpre Hwf Hdata).
  rewrite (get_trade_data_complete w' pre' _ Hpre'
             (Forall_list_filter _ is_trade msgs Hwf) Hdata').
  unfold records_of. rewrite foldl_add_records_trades.
  cbn [fst snd after_get_trade_data heap self_trade_df self_cross_trade_df].
  rewrite Hheap. auto.
Qed.

Lemma other_messages_leave_no_trace_witness :
  let w := fresh_world example_stream in
  let w' := fresh_world ([x01; x02] ++ concat (List.filter is_trade example_messages)) in
  itch_data w <> itch_data w' /\
  (get_trade_data w').1 = (get_trade_data w).1 /\
  heap (get_trade_data w').2 = heap (get_trade_data w).2 /\
  self_trade_df (get_trade_data w').2 = self_trade_df (get_trade_data w).2 /\
  self_cross_trade_df (get_trade_data w').2 = self_cross_trade_df (get_trade_data w).2.
Proof.
  cbv zeta. split; [vm_compute; discriminate|].
  apply (other_messages_leave_no_trace (fresh_world example_stream) _
           [x00; x00] [x01; x02] example_messages).
  - reflexivity.
  - reflexivity.
  - repeat (constructor; [vm_compute; reflexivity|]). constructor.
  - reflexivity.
  - reflexivity.
  - reflexivity.
Defined.

(** ** Short files, undecodable trades, and decoding again *)

(** X6. A file of at most two bytes, the empty file included, is decoded
    without an error into two DataFrames without rows: the read of the
    two leading bytes is not checked, and the first read of a type finds
    the end of the file. *)
Theorem header_only_file_gives_empty_frames (w : world) :
  (length (itch_data w) <= 2)%nat ->
  let out := get_trade_data w in
  out.1 = Ok (length (heap w), S (length (heap w))) /\
  heap out.2 = heap w ++ [frame []; frame []] /\
  self_trade_df out.2 = Some (length (heap w)) /\
  self_cross_trade_df out.2 = Some (S (length (heap w))).
Proof.
  intros Hlen. cbv zeta. rewrite get_trade_data_parse. cbv zeta.
  rewrite (drop_ge (itch_data w) 2) by exact Hlen.
  rewrite parse_from_nil. cbn. auto.
Qed.

Lemma header_only_file_gives_empty_frames_witness :
  let w := fresh_world [x00] in
  let out := get_trade_data w in
  (length (itch_data w) <= 2)%nat /\
  out.1 = Ok (length (heap w), S (length (heap w))) /\
  heap out.2 = heap w ++ [frame []; frame []] /\
  self_trade_df out.2 = Some (length (heap w)) /\
  self_cross_trade_df out.2 = Some (S (length (heap w))).
Proof.
  cbv zeta. split; [cbn; lia|].
  apply (header_only_file_gives_empty_frames (fresh_world [x00])). cbn. lia.
Defined.

(** X7. A [P] or [Q] message whose payload its decoder refuses, behind
    the two leading bytes and any run of complete messages, makes
    [get_trade_data] fail with the exception of the decoder: no
    DataFrame is created, the records decoded before are dropped, and
    the two attributes keep their values. *)
Theorem undecodable_trade_fails_whole_parse (w : world) (pre : bytes)
    (msgs : list bytes) (t : byte) (rest : bytes) (e : exn) :
  length pre = 2%nat ->
  Forall (fun m => well_formed m = true) msgs ->
  itch_data w = pre ++ concat msgs ++ t :: rest ->
  message_records (t :: rest) = Err e ->
  (get_trade_data w).1 = Err e /\
  heap (get_trade_data w).2 = heap w /\
  self_trade_df (get_trade_data w).2 = self_trade_df w /\
  self_cross_trade_df (get_trade_data w).2 = self_cross_trade_df w.
Proof.
  intros Hpre Hwf Hdata Herr.
  rewrite (get_trade_data_stream w pre msgs (t :: rest) Hpre Hwf Hdata).
  cbn [Nat.add]. rewrite parse_from_cons, parse_step.
  cbn [message_records] in Herr.
  destruct (Byte.eqb t "P") eqn:EP; [|destruct (Byte.eqb t "Q") eqn:EQ; [|discriminate]].
  - apply Byte.byte_dec_bl in EP. subst t.
    change (existsb (bytes_eqb ["P"%byte]) valid_types) with true. cbv iota.
    rewrite dispatch_bytes_P.
    destruct (trade_message (take 43 rest)) as [r|e']; [discriminate|].
    injection Herr as ->. cbn. auto.
  - apply Byte.byte_dec_bl in EQ. subst t.
    change (existsb (bytes_eqb ["Q"%byte]) valid_types) with true. cbv iota.
    rewrite dispatch_bytes_Q.
    destruct (cross_trade_message (take 39 rest)) as [r|e']; [discriminate|].
    injection Herr as ->. cbn. auto.
Qed.

Lemma undecodable_trade_fails_whole_parse_witness :
  let good := P_message 34200000000000 "B" 100 AAPL 1000000 in
  let late := P_message 86400000000000 "B" 100 AAPL 1000000 in
  let w := fresh_world ([x00; x00] ++ good ++ late) in
  message_records late = Err ValueError /\
  (get_trade_data w).1 = Err ValueError /\
  heap (get_trade_data w).2 = heap w /\
  self_trade_df (get_trade_data w).2 = self_trade_df w /\
  self_cross_trade_df (get_trade_data w).2 = self_cross_trade_df w.
Proof.
  cbv zeta. split; [vm_compute; reflexivity|].
  apply (undecodable_trade_fails_whole_parse _ [x00; x00]
           [P_message 34200000000000 "B" 100 AAPL 1000000] "P"
           (skipn 1 (P_message 86400000000000 "B" 100 AAPL 1000000)) ValueError).
  - reflexivity.
  - repeat (constructor; [vm_compute; reflexivity|]). constructor.
  - reflexivity.
  - vm_compute. reflexivity.
Defined.


(** ** What [calculate_VWAP] does to its argument *)

Lemma with_total_value_idem df :
  with_total_value (with_total_value df) = with_total_value df.
Proof. reflexivity. Qed.

(** X9. [calculate_VWAP] changes the DataFrame it is given, and nothing
    else: afterwards that DataFrame has the same rows and a
    [total_value] column with [price * shares] of each row, in place of
    any [total_value] it had; every other DataFrame, the handles and the
    two attributes are as before.  Called again on the same DataFrame it
    returns the same table and changes nothing further. *)
Theorem calculate_VWAP_adds_total_value (w : world) (trade_df : nat) (df : DataFrame) :
  heap w !! trade_df = Some df ->
  let out := calculate_VWAP trade_df w in
  is_Ok out.1 = true /\
  heap out.2 !! trade_df
    = Some {| df_rows := df_rows df;
              df_total_value :=
                Some (map (fun t => fmul (price t) (float_of_Z (shares t))) (df_rows df)) |} /\
  length (heap out.2) = length (heap w) /\
  (forall l, l <> trade_df -> heap out.2 !! l = heap w !! l) /\
  handles out.2 = handles w /\
  self_trade_df out.2 = self_trade_df w /\
  self_cross_trade_df out.2 = self_cross_trade_df w /\
  calculate_VWAP trade_df out.2 = out.
Proof.
  intros Hdf. cbv zeta. rewrite (calculate_VWAP_run w trade_df df Hdf).
  cbn [fst snd set_heap heap handles self_trade_df self_cross_trade_df is_Ok].
  assert (Hl : heap (set_heap (<[trade_df:=with_total_value df]> (heap w)) w) !! trade_df
               = Some (with_total_value df)).
  { cbn. apply list_lookup_insert_eq. eapply lookup_lt_Some, Hdf. }
  split; [reflexivity|]. split; [exact Hl|].
  split; [apply length_insert|].
  split; [intros l Hne; apply list_lookup_insert_ne; congruence|].
  repeat (split; [reflexivity|]).
  rewrite (calculate_VWAP_run _ trade_df _ Hl).
  cbn [set_heap heap itch_data handles self_trade_df self_cross_trade_df with_total_value df_rows].
  rewrite list_insert_insert_eq. reflexivity.
Qed.

Lemma calculate_VWAP_adds_total_value_witness :
  let w := example_world in
  let df := frame (records_of example_messages).1 in
  let out := calculate_VWAP 0 w in
  is_Ok out.1 = true /\
  heap out.2 !! 0%nat
    = Some {| df_rows := df_rows df;
              df_total_value :=
                Some (map (fun t => fmul (price t) (float_of_Z (shares t))) (df_rows df)) |} /\
  length (heap out.2) = length (heap w) /\
  (forall l, l <> 0%nat -> heap out.2 !! l = heap w !! l) /\
  handles out.2 = handles w /\
  self_trade_df out.2 = self_trade_df w /\
  self_cross_trade_df out.2 = self_cross_trade_df w /\
  calculate_VWAP 0 out.2 = out.
Proof.
  apply (calculate_VWAP_adds_total_value example_world 0
           (frame (records_of example_messages).1)).
  rewrite example_world_eq. reflexivity.
Defined.

(** ** Shares to date *)









(** ** The sign of a VWAP *)














Lemma decoded_rows_row trades r :
  Forall decoded trades ->
  r ∈ vwap_rows trades ->
  row_total_value r = fsum (map trade_value (group_of (row_key r) trades)) /\
  row_shares r = zsum (map shares (group_of (row_key r) trades)) /\
  row_vwap r = vwap_of (row_total_value r) (row_shares r) /\
  row_cum_total_value r = fsum (map row_total_value (day_to_date r (vwap_rows trades))) /\
  row_cum_shares r = zsum (map row_shares (day_to_date r (vwap_rows trades))) /\
  row_cum_vwap r = vwap_of (row_cum_total_value r) (row_cum_shares r).
Proof.
  intros Hdec Hr. apply vwap_rows_row; [| |exact Hr].
  - rewrite Forall_forall in Hdec. apply Forall_forall. intros t Ht.
    apply nonneg_not_nan, decoded_value_nonneg, Hdec, Ht.
  - intros k. apply nonneg_not_nan, decoded_totals_nonneg, Hdec.
Qed.




(** ** [get_VWAP_df]: the first call and the later ones *)



Lemma get_trade_data_error_of_file w w' e :
  itch_data w' = itch_data w ->
  (get_trade_data w).1 = Err e -> (get_trade_data w').1 = Err e.
Proof.
  intros H. rewrite !get_trade_data_parse. cbv zeta. cbn [fst].
  rewrite H. destruct (parse_from _ _ _ _).1; [discriminate|auto].
Qed.

(** X13. A decoding that fails is not remembered.  If the object is not
    decoded yet and [get_trade_data] raises an exception, [get_VWAP_df]
    raises the same exception, creates no DataFrame and leaves the two
    attributes as they were; the handle it opened stays open.  The next
    call decodes the file again, and fails in the same way. *)
Theorem failed_decoding_is_not_cached (w : world) (e : exn)
    (include_cross_trade again : bool) :
  self_trade_df w = None \/ self_cross_trade_df w = None ->
  (get_trade_data w).1 = Err e ->
  let out := get_VWAP_df include_cross_trade w in
  out.1 = Err e /\
  heap out.2 = heap w /\
  self_trade_df out.2 = self_trade_df w /\
  self_cross_trade_df out.2 = self_cross_trade_df w /\
  length (handles out.2) = S (length (handles w)) /\
  (get_VWAP_df again out.2).1 = Err e /\
  length (handles (get_VWAP_df again out.2).2) = S (S (length (handles w))).
Proof.
  intros Hnone Herr. cbv zeta.
  assert (Hstep : forall w0 b, self_trade_df w0 = None \/ self_cross_trade_df w0 = None ->
            (get_trade_data w0).1 = Err e ->
            get_VWAP_df b w0 = (Err e, (get_trade_data w0).2)).
  { intros w0 b Hn He. rewrite (get_VWAP_df_first_call w0 b Hn).
    destruct (get_trade_data w0) as [[v|e'] w1]; cbn in He; [discriminate|].
    injection He as ->. reflexivity. }
  assert (Hworld : forall w0, (get_trade_data w0).1 = Err e ->
            (get_trade_data w0).2
            = set_handles (handles w0 ++ [opened
                (parse_from (length (itch_data w0)) (drop 2 (itch_data w0)) [] []).2]) w0).
  { intros w0. rewrite get_trade_data_parse. cbv zeta. cbn [fst snd].
    destruct (parse_from _ _ _ _) as [[lists|e'] r]; cbn [fst snd]; [discriminate|].
    reflexivity. }
  rewrite (Hstep w include_cross_trade Hnone Herr). cbn [fst snd].
  rewrite (Hworld w Herr).
  set (w1 := set_handles _ w).
  assert (Herr1 : (get_trade_data w1).1 = Err e)
    by (apply (get_trade_data_error_of_file w w1 e eq_refl), Herr).
  rewrite (Hstep w1 again Hnone Herr1). cbn [fst snd]. rewrite (Hworld w1 Herr1).
  cbn [set_handles heap handles self_trade_df self_cross_trade_df].
  assert (Hl : length (handles w1) = S (length (handles w)))
    by (unfold w1; cbn; rewrite length_app; cbn; lia).
  rewrite !length_app. cbn [length]. repeat split; try reflexivity; lia.
Qed.

Lemma failed_decoding_is_not_cached_witness :
  let w := fresh_world [x00; x00; x00] in
  let out := get_VWAP_df false w in
  out.1 = Err AssertionError /\
  heap out.2 = heap w /\
  self_trade_df out.2 = self_trade_df w /\
  self_cross_trade_df out.2 = self_cross_trade_df w /\
  length (handles out.2) = S (length (handles w)) /\
  (get_VWAP_df true out.2).1 = Err AssertionError /\
  length (handles (get_VWAP_df true out.2).2) = S (S (length (handles w))).
Proof.
  apply (failed_decoding_is_not_cached (fresh_world [x00; x00; x00]) AssertionError
           false true).
  - left. reflexivity.
  - reflexivity.
Defined.

(** X14. Once the two attributes hold DataFrames, [get_VWAP_df] never
    goes back to the file: it opens no handle, and its result is that of
    the stored DataFrames alone.  Whatever calls were made before, with
    or without [include_cross_trade], a call returns the same table. *)
Theorem decoded_object_never_reads_the_file (w : world) (t c : nat)
    (dt dc : DataFrame) (before include_cross_trade : bool) :
  self_trade_df w = Some t -> self_cross_trade_df w = Some c ->
  heap w !! t = Some dt -> heap w !! c = Some dc ->
  let w' := (get_VWAP_df before w).2 in
  handles w' = handles w /\
  itch_data w' = itch_data w /\
  (get_VWAP_df include_cross_trade w').1 = (get_VWAP_df include_cross_trade w).1 /\
  (get_VWAP_df include_cross_trade w).1
    = Ok (vwap_rows (if include_cross_trade then df_rows dt ++ df_rows dc
                     else df_rows dt)).
Proof.
  intros Ht Hc Hdt Hdc. cbv zeta.
  rewrite (get_VWAP_df_stored w t c dt dc before Ht Hc Hdt Hdc).
  rewrite (get_VWAP_df_stored w t c dt dc include_cross_trade Ht Hc Hdt Hdc).
  assert (Hres : forall h,
    (get_VWAP_df include_cross_trade (set_heap (heap w ++ h) w)).1
    = Ok (vwap_rows (if include_cross_trade then df_rows dt ++ df_rows dc
                     else df_rows dt))).
  { intros h.
    rewrite (get_VWAP_df_stored (set_heap (heap w ++ h) w) t c dt dc include_cross_trade
               Ht Hc (lookup_app_l_Some _ _ _ _ Hdt) (lookup_app_l_Some _ _ _ _ Hdc)).
    destruct include_cross_trade; reflexivity. }
  destruct before; cbn [fst snd]; rewrite Hres;
    destruct include_cross_trade; cbn; auto.
Qed.

Lemma decoded_object_never_reads_the_file_witness :
  let w := example_world in
  let dt := frame (records_of example_messages).1 in
  let dc := frame (records_of example_messages).2 in
  let w' := (get_VWAP_df true w).2 in
  handles w' = handles w /\
  itch_data w' = itch_data w /\
  (get_VWAP_df false w').1 = (get_VWAP_df false w).1 /\
  (get_VWAP_df false w).1 = Ok (vwap_rows (df_rows dt)).
Proof.
  apply (decoded_object_never_reads_the_file example_world 0 1
           (frame (records_of example_messages).1)
           (frame (records_of example_messages).2) true false);
    rewrite example_world_eq; reflexivity.
Defined.

(** ** The price, to the nearest thousandth *)

Lemma rne_div_half n D : 0 < D -> 2 * Z.abs (rne_div n D * D - n) <= D.
Proof.
  intros HD. unfold rne_div. cbv zeta.
  pose proof (Z.div_mod n D ltac:(lia)) as Hdm.
  pose proof (Z.mod_pos_bound n D HD) as Hmod.
  set (q := n / D) in *. set (r := n mod D) in *. clearbody q r.
  assert (Hn : q * D - n = - r) by lia.
  assert (Hn1 : (q + 1) * D - n = D - r) by lia.
  destruct (2 * r ?= D) eqn:E.
  - apply Z.compare_eq in E. destruct (Z.even q); [rewrite Hn|rewrite Hn1]; lia.
  - apply -> Z.compare_lt_iff in E. rewrite Hn. lia.
  - apply -> Z.compare_gt_iff in E. rewrite Hn1. lia.
Qed.

(** X15. The price of a record is the price integer of the message
    rounded to the nearest thousandth: for a 4-byte integer [p] there is
    an integer [k] with [|10 k - p| <= 5] such that the price is the
    float nearest to [k / 1000].  Where [p] ends in 5 the two nearest
    thousandths are equally near and either may be taken: 0.0005
    becomes 0.001 and 1.0005 becomes 1.0. *)
Theorem price_is_nearest_thousandth (p : Z) :
  0 <= p < 2 ^ 32 ->
  (exists k, Z.abs (10 * k - p) <= 5 /\ price_of p = int_truediv k 1000) /\
  price_of 5 = int_truediv 1 1000 /\
  price_of 10005 = int_truediv 1000 1000.
Proof.
  intros Hp. split; [|split; vm_compute; reflexivity].
  unfold price_of.
  destruct p as [|a|a]; [exists 0; split; [lia|reflexivity]| |lia].
  cbn [int_truediv].
  pose proof (Zdigits2_bounds (Zpos a) ltac:(lia)) as [Hlo Hup].
  assert (Hd1 : 0 < Zdigits2 (Zpos a) <= 32).
  { split; [cbn; lia|].
    destruct (Z_lt_le_dec 32 (Zdigits2 (Zpos a))) as [Hlt|]; [|lia].
    assert (2 ^ 32 <= 2 ^ (Zdigits2 (Zpos a) - 1)) by (apply Z.pow_le_mono_r; lia).
    lia. }
  destruct (round_quotient_normal a 10000) as (m & t & Hq & Hm & Ht & Herr).
  { change (Zdigits2 10000) with 14. lia. }
  change (Zdigits2 10000) with 14 in *.
  set (s := 53 + 14 - Zdigits2 (Zpos a)) in *.
  rewrite Hq. cbn [py_round3]. unfold scaled_digits3.
  replace (0 <=? t - s) with false by (symmetry; apply Z.leb_gt; unfold s; lia).
  replace (- (t - s)) with (s - t) by lia.
  eexists. split; [|reflexivity].
  assert (H2t : 0 < 2 ^ t) by (apply Z.pow_pos_nonneg; lia).
  assert (HD : 0 < 2 ^ (s - t)) by (apply Z.pow_pos_nonneg; unfold s; lia).
  assert (Hs : 2 ^ s = 2 ^ (s - t) * 2 ^ t)
    by (rewrite <- Z.pow_add_r by (unfold s; lia); f_equal; lia).
  pose proof (rne_div_half (Zpos m * 1000) (2 ^ (s - t)) HD) as Hhalf.
  set (k := rne_div (Zpos m * 1000) (2 ^ (s - t))) in *.
  assert (Hbig : 2 ^ 33 <= 2 ^ (s - t)) by (apply Z.pow_le_mono_r; unfold s; lia).
  set (D := 2 ^ (s - t)) in *. rewrite Hs in Herr.
  assert (H33 : 2 ^ 33 = 8589934592) by reflexivity.
  assert (Hnear : Z.abs (Zpos m * 10000 - Zpos a * D) <= 20000).
  { assert (Z.abs (Zpos m * 10000 - Zpos a * D) * 2 ^ t <= (2 ^ t + 1) * 10000).
    { replace (Z.abs (Zpos m * 10000 - Zpos a * D) * 2 ^ t)
        with (Z.abs (Zpos m * 2 ^ t * 10000 - Zpos a * (D * 2 ^ t)));
        [exact Herr|].
      rewrite <- (Z.abs_eq (2 ^ t)) at 3 by lia. rewrite <- Z.abs_mul. f_equal. ring. }
    nia. }
  assert (Hprod : Z.abs (10 * k - Zpos a) * D <= 5 * D + 20000).
  { replace (Z.abs (10 * k - Zpos a) * D) with (Z.abs ((10 * k - Zpos a) * D))
      by (rewrite Z.abs_mul, (Z.abs_eq D) by lia; reflexivity).
    replace ((10 * k - Zpos a) * D)
      with (10 * (k * D - Zpos m * 1000) + (Zpos m * 10000 - Zpos a * D)) by ring.
    lia. }
  destruct (Z_le_gt_dec (Z.abs (10 * k - Zpos a)) 5) as [|Hgt]; [assumption|].
  exfalso. assert (6 * D <= Z.abs (10 * k - Zpos a) * D) by nia. lia.
Qed.

Lemma price_is_nearest_thousandth_witness :
  0 <= 1234567 < 2 ^ 32 /\
  (exists k, Z.abs (10 * k - 1234567) <= 5 /\ price_of 1234567 = int_truediv k 1000) /\
  price_of 5 = int_truediv 1 1000 /\
  price_of 10005 = int_truediv 1000 1000.
Proof.
  split; [split; [discriminate|reflexivity]|].
  apply (price_is_nearest_thousandth 1234567). split; [discriminate|reflexivity].
Defined.

(** ** Exact floats *)

(** A mantissa of exactly 53 bits within the exponent range is not
    rounded. *)
Lemma binary_round_aux_exact sx (mx : positive) ex :
  2 ^ 52 <= Zpos mx < 2 ^ 53 -> -1074 <= ex <= 971 ->
  binary_round_aux prec emax sx (Zpos mx) ex loc_Exact = S754_finite sx mx ex.
Proof.
  intros Hm He. unfold binary_round_aux, shr_fexp.
  rewrite (Zdigits2_unique (Zpos mx) 53) by (change (53 - 1) with 52; lia).
  rewrite fexp_normal by lia.
  replace (53 + ex - 53 - ex) with 0 by lia.
  cbn [shr shr_record_of_loc shr_m loc_of_shr_record round_nearest_even].
  rewrite (Zdigits2_unique (Zpos mx) 53) by (change (53 - 1) with 52; lia).
  rewrite fexp_normal by lia.
  replace (53 + ex - 53 - ex) with 0 by lia.
  cbn [shr shr_record_of_loc shr_m].
  replace (ex <=? emax - prec) with true
    by (symmetry; apply Z.leb_le; unfold emax, prec; lia).
  reflexivity.
Qed.

(** An integer of at most 53 bits, scaled by a power of two, is a float:
    its mantissa is shifted to 53 bits. *)
Lemma binary_round_exact (r : positive) e :
  Zdigits2 (Zpos r) <= 53 -> -1021 <= Zdigits2 (Zpos r) + e <= 1024 ->
  exists m,
    binary_round prec emax false r e
      = S754_finite false m (e - (53 - Zdigits2 (Zpos r))) /\
    Zpos m = Zpos r * 2 ^ (53 - Zdigits2 (Zpos r)) /\
    2 ^ 52 <= Zpos m < 2 ^ 53.
Proof.
  intros Hd He. unfold binary_round.
  pose proof (Zdigits2_bounds (Zpos r) ltac:(lia)) as [Hlo Hup].
  cbn [Zdigits2] in *. set (d := Zpos (digits2_pos r)) in *.
  assert (Hd0 : 0 < d) by (unfold d; lia).
  rewrite fexp_normal by lia. unfold shl_align.
  assert (H2 : 2 ^ (d - 1) * 2 ^ (53 - d) = 2 ^ 52)
    by (rewrite <- Z.pow_add_r by lia; f_equal; lia).
  assert (H3 : 2 ^ d * 2 ^ (53 - d) = 2 ^ 53)
    by (rewrite <- Z.pow_add_r by lia; f_equal; lia).
  assert (Hp2 : 0 < 2 ^ (53 - d)) by (apply Z.pow_pos_nonneg; lia).
  destruct (d + e - 53 - e) as [|q|q] eqn:Eq.
  - assert (Hd53 : d = 53) by lia. rewrite Hd53 in *.
    change (2 ^ (53 - 53)) with 1 in *. change (53 - 1) with 52 in *.
    exists r. rewrite binary_round_aux_exact by lia.
    split; [f_equal; lia|]. split; lia.
  - lia.
  - assert (Hq : Zpos q = 53 - d) by lia.
    assert (Hmz : Zpos (Pos.iter xO r q) = Zpos r * 2 ^ (53 - d))
      by (rewrite iter_xO_pow, Hq; reflexivity).
    assert (Hr : 2 ^ 52 <= Zpos (Pos.iter xO r q) < 2 ^ 53) by (rewrite Hmz; nia).
    exists (Pos.iter xO r q). rewrite binary_round_aux_exact by lia.
    split; [f_equal; lia|]. split; [exact Hmz|exact Hr].
Qed.

Lemma Zdigits2_le m d : 0 < m < 2 ^ d -> 0 <= d -> 0 < Zdigits2 m <= d.
Proof.
  intros Hm Hd. pose proof (Zdigits2_bounds m ltac:(lia)) as [Hlo Hup].
  split; [destruct m; cbn; lia|].
  destruct (Z_lt_le_dec d (Zdigits2 m)) as [Hlt|]; [|lia].
  assert (2 ^ d <= 2 ^ (Zdigits2 m - 1)) by (apply Z.pow_le_mono_r; lia). lia.
Qed.

(** [float(n)] is [n] itself for a positive integer below [2^53]. *)
Lemma float_of_Z_exact n :
  0 < n < 2 ^ 53 ->
  exists m,
    float_of_Z n = S754_finite false m (Zdigits2 n - 53) /\
    Zpos m = n * 2 ^ (53 - Zdigits2 n) /\
    2 ^ 52 <= Zpos m < 2 ^ 53.
Proof.
  intros Hn. destruct n as [|p|p]; [lia| |lia].
  pose proof (Zdigits2_le (Zpos p) 53 Hn ltac:(lia)) as Hd.
  unfold float_of_Z, binary_normalize.
  destruct (binary_round_exact p 0) as (m & -> & Hm & Hr); [lia|lia|].
  exists m. split; [f_equal; lia|]. split; assumption.
Qed.

(** The quotient of two floats with mantissas of 53 bits, away from
    underflow and overflow: the mantissa [m] and the exponent of the
    result satisfy [|m * 2^t * m2 - m1 * 2^53| <= (2^t + 1) * m2], where
    [t <= 2] is the exponent less [e1 - e2 - 53]. *)
Lemma fdiv_normal (m1 m2 : positive) e1 e2 :
  2 ^ 52 <= Zpos m1 < 2 ^ 53 -> 2 ^ 52 <= Zpos m2 < 2 ^ 53 ->
  -900 <= e1 - e2 <= 900 ->
  exists m t,
    fdiv (S754_finite false m1 e1) (S754_finite false m2 e2)
      = S754_finite false m (e1 - e2 - 53 + t) /\
    2 ^ 52 <= Zpos m < 2 ^ 53 /\
    0 <= t <= 2 /\
    Z.abs (Zpos m * 2 ^ t * Zpos m2 - Zpos m1 * 2 ^ 53) <= (2 ^ t + 1) * Zpos m2.
Proof.
  intros H1 H2 He.
  unfold fdiv, SFdiv, SFdiv_core_binary.
  rewrite !(Zdigits2_unique _ 53) by (change (53 - 1) with 52; lia).
  rewrite fexp_normal by lia.
  replace (IntDef.Z.min (53 + e1 - (53 + e2) - 53) (e1 - e2)) with (e1 - e2 - 53)
    by (change IntDef.Z.min with Z.min; lia).
  replace (e1 - e2 - (e1 - e2 - 53)) with 53 by lia.
  change IntDef.Z.shiftl with Z.shiftl. rewrite Z.shiftl_mul_pow2 by lia.
  change IntDef.Z.div_eucl with Z.div_eucl.
  pose proof (Z_div_mod (Zpos m1 * 2 ^ 53) (Zpos m2) ltac:(lia)) as Hdm.
  destruct (Z.div_eucl (Zpos m1 * 2 ^ 53) (Zpos m2)) as [q r].
  destruct Hdm as [Hq Hr].
  assert (P52 : 2 ^ 52 = 4503599627370496) by reflexivity.
  assert (P53 : 2 ^ 53 = 9007199254740992) by reflexivity.
  assert (P54 : 2 ^ 54 = 18014398509481984) by reflexivity.
  assert (Hq52 : 2 ^ 52 <= q).
  { destruct (Z_lt_le_dec q (2 ^ 52)) as [Hlt|]; [|assumption]. exfalso.
    assert (Zpos m2 * q + r < Zpos m2 * 2 ^ 52) by nia. nia. }
  assert (Hq54 : q < 2 ^ 54).
  { destruct (Z_lt_le_dec q (2 ^ 54)) as [|Hge]; [assumption|]. exfalso.
    assert (Zpos m2 * 2 ^ 54 <= Zpos m2 * q) by nia. nia. }
  assert (Hdq : 53 <= Zdigits2 q <= 54).
  { pose proof (Zdigits2_bounds q ltac:(lia)) as [Hlq Huq].
    split.
    - destruct (Z_lt_le_dec (Zdigits2 q) 53) as [Hlt|]; [|assumption].
      assert (2 ^ Zdigits2 q <= 2 ^ 52) by (apply Z.pow_le_mono_r; lia). lia.
    - destruct (Z_lt_le_dec 54 (Zdigits2 q)) as [Hlt|]; [|lia].
      assert (2 ^ 54 <= 2 ^ (Zdigits2 q - 1)) by (apply Z.pow_le_mono_r; lia). lia. }
  destruct (binary_round_aux_normal false q (e1 - e2 - 53) (new_location (Zpos m2) r))
    as (m & e & Hm & Hmr & Hee & Herr); [lia|lia|lia|].
  cbn [xorb]. rewrite Hm.
  exists m, (e - (e1 - e2 - 53)).
  split; [f_equal; lia|]. split; [assumption|]. split; [lia|].
  set (t := e - (e1 - e2 - 53)) in *.
  assert (H2t : 0 < 2 ^ t) by (apply Z.pow_pos_nonneg; lia).
  clear P52 P53 P54. nia.
Qed.

(** ** A timestamp as a [timedelta] *)

Lemma float_of_Z_million :
  float_of_Z 1000000 = S754_finite false 8589934592000000 (-33).
Proof. reflexivity. Qed.

Lemma float_of_Z_billion :
  float_of_Z 1000000000 = S754_finite false 8388608000000000 (-23).
Proof. reflexivity. Qed.

Lemma abs_scale a c : 0 <= c -> Z.abs a * c = Z.abs (a * c).
Proof. intros Hc. rewrite Z.abs_mul, (Z.abs_eq c) by exact Hc. reflexivity. Qed.

(** The microseconds [timedelta] makes of the fraction of a second: the
    fraction [r / 2^N] of the float [m / 2^N] is scaled by [10^6] in
    floating point and rounded to an integer [U], which is within
    [1/2 + 1/4096] of [r * 10^6 / 2^N]. *)
Lemma microseconds_of_fraction (m : positive) (N : Z) :
  2 ^ 52 <= Zpos m < 2 ^ 53 -> 33 <= N <= 82 ->
  let r := Zpos m mod 2 ^ N in
  let U := py_round_int (fadd (float_of_Z 0)
             (fmul (modf_frac (S754_finite false m (- N))) (float_of_Z 1000000))) in
  0 <= U /\ 4096 * Z.abs (U * 2 ^ N - r * 1000000) <= 2049 * 2 ^ N.
Proof.
  intros Hm HN. cbv zeta.
  set (P := 2 ^ N).
  assert (HP : 0 < P) by (apply Z.pow_pos_nonneg; lia).
  pose proof (Z.mod_pos_bound (Zpos m) P HP) as Hr.
  pose proof (Z.mod_le (Zpos m) P ltac:(lia) HP) as Hle.
  unfold modf_frac.
  replace (0 <=? - N) with false by (symmetry; apply Z.leb_gt; lia).
  replace (- - N) with N by lia. fold P.
  rewrite float_of_Z_million.
  destruct (Zpos m mod P) as [|r|r] eqn:Er; [| |lia].
  { cbn. lia. }
  unfold binary_normalize.
  assert (Hdr : 0 < Zdigits2 (Zpos r) <= 53) by (apply Zdigits2_le; lia).
  assert (HdN : Zdigits2 (Zpos r) <= N) by (apply Zdigits2_le; [fold P|]; lia).
  destruct (binary_round_exact r (- N)) as (mf & -> & Hmf & Hmfr); [lia|lia|].
  set (sh := 53 - Zdigits2 (Zpos r)) in *.
  unfold fmul, SFmul. cbn [xorb].
  set (ex := - N - sh + -33).
  assert (P52 : 2 ^ 52 = 4503599627370496) by reflexivity.
  assert (P53 : 2 ^ 53 = 9007199254740992) by reflexivity.
  assert (Hprod : 2 ^ 104 <= Zpos (mf * 8589934592000000) < 2 ^ 106).
  { rewrite Pos2Z.inj_mul.
    change (2 ^ 104) with (4503599627370496 * 4503599627370496).
    change (2 ^ 106) with (9007199254740992 * 9007199254740992). nia. }
  assert (Hdp : 105 <= Zdigits2 (Zpos (mf * 8589934592000000)) <= 106).
  { pose proof (Zdigits2_bounds (Zpos (mf * 8589934592000000)) ltac:(lia)) as [Hl Hu].
    set (dp := Zdigits2 (Zpos (mf * 8589934592000000))) in *. split.
    - destruct (Z_lt_le_dec dp 105) as [Hlt|]; [|lia].
      assert (2 ^ dp <= 2 ^ 104) by (apply Z.pow_le_mono_r; lia). lia.
    - destruct (Z_lt_le_dec 106 dp) as [Hlt|]; [|lia].
      assert (2 ^ 106 <= 2 ^ (dp - 1)) by (apply Z.pow_le_mono_r; lia). lia. }
  destruct (binary_round_aux_normal false (Zpos (mf * 8589934592000000)) ex loc_Exact)
    as (mu & eu & -> & Hmu & Heu & Herr).
  { assert (2 ^ 52 <= 2 ^ 104) by (apply Z.pow_le_mono_r; lia). lia. }
  { unfold ex, sh. lia. }
  { unfold ex, sh. lia. }
  change (float_of_Z 0) with (S754_zero false). unfold fadd, SFadd.
  unfold py_round_int.
  set (g := eu - ex) in *.
  assert (Hg : 52 <= g <= 54) by (unfold g; lia).
  assert (Heu' : - eu = N + sh + 33 - g) by (unfold g, ex; lia).
  replace (0 <=? eu) with false by (symmetry; apply Z.leb_gt; unfold sh in *; lia).
  rewrite Heu'.
  set (Du := 2 ^ (N + sh + 33 - g)).
  assert (HDu : 0 < Du) by (apply Z.pow_pos_nonneg; unfold sh in *; lia).
  assert (HDu12 : 4096 <= Du).
  { change 4096 with (2 ^ 12). apply Z.pow_le_mono_r; unfold sh in *; lia. }
  pose proof (rne_div_half (Zpos mu) Du HDu) as Hhalf.
  pose proof (rne_div_range (Zpos mu) Du HDu ltac:(lia)) as [HU0 _].
  set (U := rne_div (Zpos mu) Du) in *.
  split; [exact HU0|].
  (* the product of the two mantissas, in terms of [r] *)
  assert (H2g : 0 < 2 ^ g) by (apply Z.pow_pos_nonneg; lia).
  assert (H2s : 0 < 2 ^ (sh + 33)) by (apply Z.pow_pos_nonneg; unfold sh; lia).
  set (W := 2 ^ (N + sh + 33)).
  assert (HW : 0 < W) by (apply Z.pow_pos_nonneg; unfold sh; lia).
  assert (HW1 : Du * 2 ^ g = W)
    by (unfold Du, W; rewrite <- Z.pow_add_r by (unfold sh in *; lia); f_equal; lia).
  assert (HW2 : P * 2 ^ (sh + 33) = W)
    by (unfold P, W; rewrite <- Z.pow_add_r by (unfold sh in *; lia); f_equal; lia).
  assert (Hmm : Zpos (mf * 8589934592000000) = Zpos r * 1000000 * 2 ^ (sh + 33)).
  { rewrite Pos2Z.inj_mul, Hmf. rewrite Z.pow_add_r by (unfold sh; lia).
    change (2 ^ 33) with 8589934592. lia. }
  rewrite Hmm in Herr.
  (* [mu / Du] is within [1 / Du] of [r * 10^6 / P] *)
  assert (HB : Z.abs (Zpos mu * P - Zpos r * 1000000 * Du) <= P).
  { assert (Hscaled : Z.abs (Zpos mu * P - Zpos r * 1000000 * Du) * W <= P * W).
    { replace (Z.abs (Zpos mu * P - Zpos r * 1000000 * Du) * W)
        with (Z.abs (Zpos mu * 2 ^ g - Zpos r * 1000000 * 2 ^ (sh + 33)) * (P * Du)).
      - replace (P * W) with (2 ^ g * (P * Du)) by (rewrite <- HW1; ring).
        apply Z.mul_le_mono_nonneg_r; [nia|exact Herr].
      - rewrite !abs_scale by nia. f_equal.
        transitivity (Zpos mu * P * (Du * 2 ^ g)
                      - Zpos r * 1000000 * Du * (P * 2 ^ (sh + 33))); [ring|].
        rewrite HW1, HW2. ring. }
    apply Z.mul_le_mono_pos_r with W; [exact HW|exact Hscaled]. }
  (* together with the rounding to an integer *)
  assert (HC : Z.abs (U * P - Zpos r * 1000000) * Du <= P * Du + 2 * P - Z.abs (U * P - Zpos r * 1000000) * Du).
  { replace (Z.abs (U * P - Zpos r * 1000000) * Du)
      with (Z.abs (P * (U * Du - Zpos mu) + (Zpos mu * P - Zpos r * 1000000 * Du))).
    - assert (Z.abs (P * (U * Du - Zpos mu)) = P * Z.abs (U * Du - Zpos mu))
        by (rewrite Z.abs_mul, (Z.abs_eq P) by lia; reflexivity).
      assert (P * (2 * Z.abs (U * Du - Zpos mu)) <= P * Du)
        by (apply Z.mul_le_mono_nonneg_l; lia).
      lia.
    - symmetry. rewrite abs_scale by lia. f_equal. ring. }
  set (V := Z.abs (U * P - Zpos r * 1000000)) in *.
  assert (HV : 0 <= V) by apply Z.abs_nonneg.
  assert (2 * V * Du <= P * Du + 2 * P) by lia.
  assert (4096 * P <= P * Du)
    by (rewrite (Z.mul_comm P Du); apply Z.mul_le_mono_nonneg_r; lia).
  destruct (Z_le_gt_dec (4096 * V) (2049 * P)) as [|Hgt]; [assumption|exfalso].
  assert ((2049 * P + 1) * Du <= 4096 * V * Du)
    by (apply Z.mul_le_mono_nonneg_r; lia).
  lia.
Qed.

(** [timedelta(seconds = ts / 1e9)] for a timestamp of 48 bits: the
    timestamp rounded to a nearest microsecond [T], as days, seconds and
    microseconds. *)
Lemma timedelta_of_timestamp ts :
  0 <= ts < 2 ^ 48 ->
  exists T,
    Z.abs (1000 * T - ts) <= 500 /\ 0 <= T /\
    timedelta_of_seconds (fdiv (float_of_Z ts) (float_of_Z 1000000000))
    = Ok {| td_days := T / 1000000 / 86400;
            td_seconds := (T / 1000000) mod 86400;
            td_microseconds := T mod 1000000 |}.
Proof.
  intros Hts. destruct (Z.eq_dec ts 0) as [->|Hnz].
  { exists 0. split; [cbn; lia|]. split; [lia|]. vm_compute. reflexivity. }
  assert (P48 : 2 ^ 48 = 281474976710656) by reflexivity.
  assert (Hd1 : 0 < Zdigits2 ts <= 48) by (apply Zdigits2_le; lia).
  destruct (float_of_Z_exact ts) as (m1 & -> & Hm1 & Hm1r).
  { assert (2 ^ 48 < 2 ^ 53) by reflexivity. lia. }
  rewrite float_of_Z_billion.
  set (d1 := Zdigits2 ts) in *.
  destruct (fdiv_normal m1 8388608000000000 (d1 - 53) (-23))
    as (m & t & -> & Hm & Ht & Herr);
    [exact Hm1r|split; [discriminate|reflexivity]|lia|].
  set (N := 83 - d1 - t).
  replace (d1 - 53 - -23 - 53 + t) with (- N) by (unfold N; lia).
  assert (HN : 33 <= N <= 82) by (unfold N; lia).
  set (P := 2 ^ N).
  assert (HP : 0 < P) by (apply Z.pow_pos_nonneg; lia).
  assert (HP33 : 8589934592 <= P).
  { change 8589934592 with (2 ^ 33). apply Z.pow_le_mono_r; lia. }
  (* the quotient against the timestamp *)
  assert (HA : Z.abs (Zpos m * 1000000000 - ts * P) <= 2000000000).
  { set (K := 2 ^ (23 + t)).
    assert (HK : 0 < K) by (apply Z.pow_pos_nonneg; lia).
    assert (HK' : K = 8388608 * 2 ^ t)
      by (unfold K; rewrite Z.pow_add_r by lia; reflexivity).
    assert (H2t : 0 < 2 ^ t) by (apply Z.pow_pos_nonneg; lia).
    assert (Hpow : 2 ^ (53 - d1) * 2 ^ 53 = P * K).
    { unfold P, K. rewrite <- !Z.pow_add_r by lia. f_equal. unfold N. lia. }
    assert (Hscaled : Z.abs (Zpos m * 1000000000 - ts * P) * K <= 2000000000 * K).
    { rewrite abs_scale by lia.
      replace ((Zpos m * 1000000000 - ts * P) * K)
        with (Zpos m * 2 ^ t * 8388608000000000 - Zpos m1 * 2 ^ 53).
      - etrans; [exact Herr|]. rewrite HK'. lia.
      - rewrite Hm1. fold d1.
        transitivity (Zpos m * 1000000000 * (8388608 * 2 ^ t)
                      - ts * (2 ^ (53 - d1) * 2 ^ 53)); [ring|].
        rewrite Hpow, HK'. ring. }
    apply Z.mul_le_mono_pos_r with K; assumption. }
  destruct (microseconds_of_fraction m N Hm HN) as [HU0 HU].
  unfold timedelta_of_seconds. cbv zeta.
  set (U := py_round_int _) in *.
  unfold modf_int.
  replace (0 <=? - N) with false by (symmetry; apply Z.leb_gt; lia).
  replace (- - N) with N by lia. fold P in HU |- *.
  set (S0 := Zpos m / P) in *.
  pose proof (Z.div_mod (Zpos m) P ltac:(lia)) as Hdm. fold S0 in Hdm.
  set (r := Zpos m mod P) in *.
  assert (HS0 : 0 <= S0) by (apply Z.div_pos; lia).
  exists (S0 * 1000000 + U).
  (* the rounding to a microsecond is within half a microsecond *)
  assert (Hnear : Z.abs (1000 * (S0 * 1000000 + U) - ts) <= 500).
  { set (X := 1000 * (S0 * 1000000 + U) - ts).
    assert (HX : X * P = 1000 * (U * P - r * 1000000) + (Zpos m * 1000000000 - ts * P))
      by (unfold X; rewrite Hdm; ring).
    assert (HXP : 4096 * (Z.abs X * P) <= 2049000 * P + 8192000000000).
    { rewrite abs_scale by lia. rewrite HX.
      set (A := U * P - r * 1000000) in *.
      set (B := Zpos m * 1000000000 - ts * P) in *.
      assert (Z.abs (1000 * A + B) <= 1000 * Z.abs A + Z.abs B) by lia.
      lia. }
    destruct (Z_le_gt_dec (Z.abs X) 500) as [|Hgt]; [assumption|exfalso].
    assert (501 * P <= Z.abs X * P) by (apply Z.mul_le_mono_nonneg_r; lia).
    lia. }
  split; [exact Hnear|]. split; [lia|].
  assert (HT1 : (S0 * 1000000 + U) / 1000000 = S0 + U / 1000000)
    by (apply Z.div_add_l; lia).
  assert (HT2 : (S0 * 1000000 + U) mod 1000000 = U mod 1000000)
    by (rewrite Z.add_comm; apply Z.mod_add; lia).
  rewrite HT1, HT2. change (24 * 3600) with 86400.
  set (u := U / 1000000) in *.
  assert (Hu : 0 <= u) by (apply Z.div_pos; lia).
  assert (Hdays : S0 / 86400 + (S0 mod 86400 + u) / 86400 = (S0 + u) / 86400).
  { rewrite (Z.div_mod S0 86400) at 3 by lia.
    rewrite <- Z.add_assoc, (Z.mul_comm 86400), Z.div_add_l by lia. reflexivity. }
  assert (Hsecs : (S0 mod 86400 + u) mod 86400 = (S0 + u) mod 86400)
    by (apply Z.add_mod_idemp_l; lia).
  rewrite Hdays, Hsecs.
  assert (Hsmall : 0 <= (S0 + u) / 86400 <= 999999999).
  { split; [apply Z.div_pos; lia|].
    assert (HTs : (S0 + u) * 1000000 <= S0 * 1000000 + U).
    { pose proof (Z.div_mod U 1000000 ltac:(lia)) as HdU. fold u in HdU.
      pose proof (Z.mod_pos_bound U 1000000 ltac:(lia)). lia. }
    assert ((S0 + u) / 86400 <= S0 + u) by (apply Z.div_le_upper_bound; lia).
    lia. }
  replace (999999999 <? Z.abs ((S0 + u) / 86400)) with false
    by (symmetry; apply Z.ltb_ge; lia).
  reflexivity.
Qed.

(** ** The hour bucket of a timestamp *)

(** The time string and the hour bucket, from the microsecond [T]
    [timedelta] rounds the timestamp to. *)
Lemma hour_bucket_of_timestamp ts :
  0 <= ts < 2 ^ 48 ->
  exists T,
    Z.abs (1000 * T - ts) <= 500 /\ 0 <= T /\
    hour_bucket_of ts =
      if T <? 86400000000
      then Ok (clock (T / 1000000), T / 3600000000 + 1)
      else Err ValueError.
Proof.
  intros Hts. destruct (timedelta_of_timestamp ts Hts) as (T & Hnear & HT & Htd).
  exists T. split; [exact Hnear|]. split; [exact HT|].
  set (td := {| td_days := T / 1000000 / 86400;
                td_seconds := (T / 1000000) mod 86400;
                td_microseconds := T mod 1000000 |}) in *.
  assert (Hs : 0 <= T / 1000000) by (apply Z.div_pos; lia).
  destruct (T <? 86400000000) eqn:Elt.
  - apply Z.ltb_lt in Elt.
    assert (Hlt : T / 1000000 < 86400) by (apply Z.div_lt_upper_bound; lia).
    assert (Hd : td_days td = 0) by (cbn; apply Z.div_small; lia).
    assert (Hsec : td_seconds td = T / 1000000) by (cbn; apply Z.mod_small; lia).
    rewrite (hour_bucket_within_day ts td Htd Hd).
    rewrite time_str_within_day by (rewrite ?Hsec; assumption).
    rewrite Hsec, Z.div_div by lia. reflexivity.
  - apply Z.ltb_ge in Elt.
    assert (Hd : td_days td <> 0).
    { cbn. assert (86400 <= T / 1000000) by (apply Z.div_le_lower_bound; lia).
      assert (1 <= T / 1000000 / 86400) by (apply Z.div_le_lower_bound; lia). lia. }
    unfold hour_bucket_of, time_str_of. rewrite Htd. cbn [mbind result_bind].
    rewrite end_time_hour_of_days by exact Hd. reflexivity.
Qed.

(** X16. What the decoders make of a timestamp of 48 bits: the
    conversion through [float] and [timedelta] rounds the nanoseconds to
    a nearest microsecond [T], and the sub-second part is then cut off.
    Before 24:00:00 the time string is the clock text of the whole
    seconds of [T] and [end_time_hour] is the hour of [T] plus one; from
    24:00:00 on the text starts with the days and [int] raises
    [ValueError]. *)
Theorem timestamp_rounds_to_microsecond (ts : Z) :
  0 <= ts < 2 ^ 48 ->
  exists T,
    Z.abs (1000 * T - ts) <= 500 /\
    hour_bucket_of ts =
      if T <? 86400000000
      then Ok (clock (T / 1000000), T / 3600000000 + 1)
      else Err ValueError.
Proof.
  intros Hts. destruct (hour_bucket_of_timestamp ts Hts) as (T & Hnear & _ & Hb).
  exists T. auto.
Qed.

Lemma timestamp_rounds_to_microsecond_witness :
  0 <= 34200123456789 < 2 ^ 48 /\
  exists T,
    Z.abs (1000 * T - 34200123456789) <= 500 /\
    hour_bucket_of 34200123456789 =
      if T <? 86400000000
      then Ok (clock (T / 1000000), T / 3600000000 + 1)
      else Err ValueError.
Proof.
  split; [split; [discriminate|reflexivity]|].
  apply (timestamp_rounds_to_microsecond 34200123456789).
  split; [discriminate|reflexivity].
Defined.

(** X17. The hour bucket of a timestamp in hour [h] of the day.  A
    timestamp on a whole second decodes to the clock text of that second
    and to bucket [h + 1].  Up to 501 nanoseconds before the end of the
    hour the bucket is [h + 1] and the time string is that of the second
    of the timestamp or of the next one.  In the last 499 nanoseconds of
    the hour the timestamp is rounded up to the full hour: it gets the
    bucket [h + 2] of the next hour, and in the last hour of the day no
    bucket at all but a [ValueError]. *)
Theorem hour_bucket_by_hour (ts h : Z) :
  0 <= h < 24 ->
  h * 3600000000000 <= ts < (h + 1) * 3600000000000 ->
  (ts mod 1000000000 = 0 ->
     hour_bucket_of ts = Ok (clock (ts / 1000000000), h + 1)) /\
  (ts <= (h + 1) * 3600000000000 - 501 ->
     exists s, hour_bucket_of ts = Ok (clock s, h + 1) /\ s / 3600 = h /\
               (s = ts / 1000000000 \/ s = ts / 1000000000 + 1)) /\
  ((h + 1) * 3600000000000 - 499 <= ts ->
     hour_bucket_of ts =
       if h <? 23 then Ok (clock ((h + 1) * 3600), h + 2) else Err ValueError).
Proof.
  intros Hh Hts.
  assert (P48 : 2 ^ 48 = 281474976710656) by reflexivity.
  destruct (hour_bucket_of_timestamp ts ltac:(lia)) as (T & Hnear & HT & Hb).
  pose proof (Z.div_mod ts 1000000000 ltac:(lia)) as Hdm.
  pose proof (Z.mod_pos_bound ts 1000000000 ltac:(lia)) as Hmod.
  set (k := ts / 1000000000) in *.
  split; [|split].
  - intros Hz.
    assert (HTk : T = k * 1000000) by lia.
    assert (Hk : T / 1000000 = k) by (rewrite HTk; apply Z.div_mul; lia).
    assert (Hkh : T / 3600000000 = h)
      by (symmetry; apply (Z.div_unique T 3600000000 h (T - 3600000000 * h)); lia).
    rewrite Hb, Hk, Hkh.
    replace (T <? 86400000000) with true by (symmetry; apply Z.ltb_lt; lia).
    reflexivity.
  - intros Hbefore.
    assert (Hkh : T / 3600000000 = h)
      by (symmetry; apply (Z.div_unique T 3600000000 h (T - 3600000000 * h)); lia).
    exists (T / 1000000). rewrite Hb, Hkh.
    replace (T <? 86400000000) with true by (symmetry; apply Z.ltb_lt; lia).
    split; [reflexivity|]. split.
    + rewrite Z.div_div by lia. exact Hkh.
    + pose proof (Z.div_mod T 1000000 ltac:(lia)) as HdT.
      pose proof (Z.mod_pos_bound T 1000000 ltac:(lia)) as HmT.
      set (s := T / 1000000) in *. lia.
  - intros Hlast.
    assert (HTh : T = (h + 1) * 3600000000) by lia.
    rewrite Hb. destruct (h <? 23) eqn:E23.
    + apply Z.ltb_lt in E23.
      replace (T <? 86400000000) with true by (symmetry; apply Z.ltb_lt; lia).
      assert (H1 : T / 1000000 = (h + 1) * 3600)
        by (symmetry; apply (Z.div_unique T 1000000 ((h + 1) * 3600) 0); lia).
      assert (H2 : T / 3600000000 = h + 1)
        by (symmetry; apply (Z.div_unique T 3600000000 (h + 1) 0); lia).
      rewrite H1, H2. f_equal. f_equal. lia.
    + apply Z.ltb_ge in E23.
      replace (T <? 86400000000) with false by (symmetry; apply Z.ltb_ge; lia).
      reflexivity.
Qed.

Lemma hour_bucket_by_hour_witness :
  let ts := 3599999999600 in
  (ts mod 1000000000 = 0 ->
     hour_bucket_of ts = Ok (clock (ts / 1000000000), 0 + 1)) /\
  (ts <= (0 + 1) * 3600000000000 - 501 ->
     exists s, hour_bucket_of ts = Ok (clock s, 0 + 1) /\ s / 3600 = 0 /\
               (s = ts / 1000000000 \/ s = ts / 1000000000 + 1)) /\
  ((0 + 1) * 3600000000000 - 499 <= ts ->
     hour_bucket_of ts =
       if 0 <? 23 then Ok (clock ((0 + 1) * 3600), 0 + 2) else Err ValueError).
Proof.
  apply (hour_bucket_by_hour 3599999999600 0).
  - split; [discriminate|reflexivity].
  - split; [discriminate|reflexivity].
Defined.

(** ** The exceptions of the parser *)









(** ** Decoding what was encoded *)

Lemma be_encode_length w v : length (be_encode w v) = w.
Proof.
  revert v. induction w as [|w IH]; intros v; [reflexivity|].
  cbn [be_encode]. rewrite length_app, IH. cbn. lia.
Qed.

Lemma byte_val_of_Z z : 0 <= z < 256 -> byte_val (byte_of_Z z) = z.
Proof.
  intros Hz. unfold byte_of_Z, byte_val.
  destruct (Byte.of_N (Z.to_N z)) as [b|] eqn:E.
  - apply Byte.to_of_N in E. rewrite E. lia.
  - apply Byte.of_N_None_iff in E. lia.
Qed.

(** Encoding an integer that fits [w] bytes and decoding it gives the
    integer back. *)
Lemma be_decode_encode w : forall v,
  0 <= v < 256 ^ Z.of_nat w -> be_decode (be_encode w v) = v.
Proof.
  induction w as [|w IH]; intros v Hv.
  - cbn in *. lia.
  - cbn [be_encode]. rewrite be_decode_snoc.
    rewrite Nat2Z.inj_succ, Z.pow_succ_r in Hv by lia.
    pose proof (Z.div_mod v 256 ltac:(lia)) as Hdm.
    pose proof (Z.mod_pos_bound v 256 ltac:(lia)) as Hmod.
    rewrite IH, byte_val_of_Z by
      (try split; try apply Z.div_pos; try apply Z.div_lt_upper_bound; lia).
    lia.
Qed.

Lemma slice_middle {A} (pre mid post : list A) (i j : nat) :
  length pre = i -> (i + length mid)%nat = j ->
  slice i j (pre ++ mid ++ post) = mid.
Proof.
  intros Hi Hj. unfold slice. subst i.
  rewrite drop_app_length. replace (j - length pre)%nat with (length mid) by lia.
  apply take_app_length.
Qed.

Lemma encode_P_length locate tracking ts ref side n sym p match_number :
  length sym = 8%nat ->
  length (encode_P locate tracking ts ref side n sym p match_number) = 43%nat.
Proof.
  intros Hsym. unfold encode_P. rewrite !length_app, !be_encode_length, Hsym.
  reflexivity.
Qed.

Lemma encode_Q_length locate tracking ts n sym p match_number cross :
  length sym = 8%nat ->
  length (encode_Q locate tracking ts n sym p match_number cross) = 39%nat.
Proof.
  intros Hsym. unfold encode_Q. rewrite !length_app, !be_encode_length, Hsym.
  reflexivity.
Qed.

(** X19. The decoders give back what an ITCH 5.0 message holds.  From
    the payload built of the fields of a [P] message, [trade_message]
    returns the time and hour bucket of the timestamp, the side, the
    shares, the stock without the whitespace around it and the price of
    the price integer; the stock locate, the tracking number, the order
    reference and the match number do not matter.  Likewise
    [cross_trade_message] for the fields of a [Q] message. *)
Theorem decoders_recover_fields (locate tracking ts ref n p match_number : Z)
    (side cross : byte) (sym : bytes) :
  0 <= ts < 2 ^ 48 -> 0 <= p < 2 ^ 32 -> length sym = 8%nat ->
  (0 <= n < 2 ^ 32 ->
   trade_message (encode_P locate tracking ts ref side n sym p match_number) =
     (tb ← hour_bucket_of ts;
      type ← decode_ascii [side];
      stock ← decode_ascii sym;
      Ok {| time := tb.1; end_time_hour := tb.2; type := type; shares := n;
            stock := strip stock; price := price_of p |})) /\
  (0 <= n < 2 ^ 64 ->
   cross_trade_message (encode_Q locate tracking ts n sym p match_number cross) =
     (tb ← hour_bucket_of ts;
      type ← decode_ascii [cross];
      stock ← decode_ascii sym;
      Ok {| time := tb.1; end_time_hour := tb.2; type := type; shares := n;
            stock := strip stock; price := price_of p |})).
Proof.
  intros Hts Hp Hsym. split; intros Hn.
  - rewrite trade_message_eq, encode_P_length by exact Hsym. cbn [Nat.eqb].
    set (A := be_encode 2 locate). set (B := be_encode 2 tracking).
    set (C := be_encode 6 ts). set (D := be_encode 8 ref).
    set (F := be_encode 4 n). set (G := be_encode 4 p).
    set (H := be_encode 8 match_number).
    assert (HA : length A = 2%nat) by apply be_encode_length.
    assert (HB : length B = 2%nat) by apply be_encode_length.
    assert (HC : length C = 6%nat) by apply be_encode_length.
    assert (HD : length D = 8%nat) by apply be_encode_length.
    assert (HF : length F = 4%nat) by apply be_encode_length.
    assert (HG : length G = 4%nat) by apply be_encode_length.
    unfold encode_P. fold A B C D F G H.
    assert (E1 : slice 4 10 (A ++ B ++ C ++ D ++ [side] ++ F ++ sym ++ G ++ H) = C).
    { rewrite (app_assoc A B). apply slice_middle; rewrite ?length_app; lia. }
    assert (E2 : slice 18 19 (A ++ B ++ C ++ D ++ [side] ++ F ++ sym ++ G ++ H) = [side]).
    { rewrite (app_assoc A B), (app_assoc (A ++ B) C), (app_assoc _ D).
      apply slice_middle; rewrite ?length_app; cbn [length]; lia. }
    assert (E3 : slice 19 23 (A ++ B ++ C ++ D ++ [side] ++ F ++ sym ++ G ++ H) = F).
    { rewrite (app_assoc A B), (app_assoc (A ++ B) C), (app_assoc _ D),
        (app_assoc _ [side]).
      apply slice_middle; rewrite ?length_app; cbn [length]; lia. }
    assert (E4 : slice 23 31 (A ++ B ++ C ++ D ++ [side] ++ F ++ sym ++ G ++ H) = sym).
    { rewrite (app_assoc A B), (app_assoc (A ++ B) C), (app_assoc _ D),
        (app_assoc _ [side]), (app_assoc _ F).
      apply slice_middle; rewrite ?length_app; cbn [length]; lia. }
    assert (E5 : slice 31 35 (A ++ B ++ C ++ D ++ [side] ++ F ++ sym ++ G ++ H) = G).
    { rewrite (app_assoc A B), (app_assoc (A ++ B) C), (app_assoc _ D),
        (app_assoc _ [side]), (app_assoc _ F), (app_assoc _ sym).
      apply slice_middle; rewrite ?length_app; cbn [length]; lia. }
    rewrite E1, E2, E3, E4, E5. unfold C, F, G.
    rewrite !be_decode_encode by assumption. reflexivity.
  - rewrite cross_trade_message_eq, encode_Q_length by exact Hsym. cbn [Nat.eqb].
    set (A := be_encode 2 locate). set (B := be_encode 2 tracking).
    set (C := be_encode 6 ts). set (F := be_encode 8 n).
    set (G := be_encode 4 p). set (H := be_encode 8 match_number).
    assert (HA : length A = 2%nat) by apply be_encode_length.
    assert (HB : length B = 2%nat) by apply be_encode_length.
    assert (HC : length C = 6%nat) by apply be_encode_length.
    assert (HF : length F = 8%nat) by apply be_encode_length.
    assert (HG : length G = 4%nat) by apply be_encode_length.
    assert (HH : length H = 8%nat) by apply be_encode_length.
    unfold encode_Q. fold A B C F G H.
    assert (E1 : slice 4 10 (A ++ B ++ C ++ F ++ sym ++ G ++ H ++ [cross]) = C).
    { rewrite (app_assoc A B). apply slice_middle; rewrite ?length_app; lia. }
    assert (E2 : slice 10 18 (A ++ B ++ C ++ F ++ sym ++ G ++ H ++ [cross]) = F).
    { rewrite (app_assoc A B), (app_assoc (A ++ B) C).
      apply slice_middle; rewrite ?length_app; lia. }
    assert (E3 : slice 18 26 (A ++ B ++ C ++ F ++ sym ++ G ++ H ++ [cross]) = sym).
    { rewrite (app_assoc A B), (app_assoc (A ++ B) C), (app_assoc _ F).
      apply slice_middle; rewrite ?length_app; lia. }
    assert (E4 : slice 26 30 (A ++ B ++ C ++ F ++ sym ++ G ++ H ++ [cross]) = G).
    { rewrite (app_assoc A B), (app_assoc (A ++ B) C), (app_assoc _ F),
        (app_assoc _ sym).
      apply slice_middle; rewrite ?length_app; lia. }
    assert (E5 : slice 38 39 (A ++ B ++ C ++ F ++ sym ++ G ++ H ++ [cross]) = [cross]).
    { rewrite (app_assoc A B), (app_assoc (A ++ B) C), (app_assoc _ F),
        (app_assoc _ sym), (app_assoc _ G), (app_assoc _ H).
      rewrite <- (app_nil_r [cross]) at 1.
      apply slice_middle; rewrite ?length_app; cbn [length]; lia. }
    rewrite E1, E2, E3, E4, E5. unfold C, F, G.
    rewrite !be_decode_encode by assumption. reflexivity.
Qed.

Lemma decoders_recover_fields_witness :
  trade_message (encode_P 1 2 34200000000000 77 "B" 100 AAPL 1000000 5) =
    Ok {| time := "9:30:00"; end_time_hour := 10; type := "B"; shares := 100;
          stock := "AAPL"; price := price_of 1000000 |} /\
  cross_trade_message (encode_Q 1 2 34200000000000 100 AAPL 1000000 5 "O") =
    Ok {| time := "9:30:00"; end_time_hour := 10; type := "O"; shares := 100;
          stock := "AAPL"; price := price_of 1000000 |}.
Proof.
  assert (Hts : 0 <= 34200000000000 < 2 ^ 48) by (split; [discriminate|reflexivity]).
  assert (Hp : 0 <= 1000000 < 2 ^ 32) by (split; [discriminate|reflexivity]).
  assert (Hn : 0 <= 100 < 2 ^ 32) by (split; [discriminate|reflexivity]).
  assert (Hn' : 0 <= 100 < 2 ^ 64) by (split; [discriminate|reflexivity]).
  destruct (decoders_recover_fields 1 2 34200000000000 77 100 1000000 5 "B" "O" AAPL
              Hts Hp eq_refl) as [HP HQ].
  split.
  - rewrite (HP Hn). vm_compute. reflexivity.
  - rewrite (HQ Hn'). vm_compute. reflexivity.
Defined.

(** ** The columns [calculate_VWAP] reads *)

Lemma keyed_rows_columns (trades trades' : list TradeRecord) :
  map (fun t => (end_time_hour t, stock t, shares t, price t)) trades
  = map (fun t => (end_time_hour t, stock t, shares t, price t)) trades' ->
  keyed_rows trades = keyed_rows trades'.
Proof.
  revert trades'. induction trades as [|t ts IH]; intros [|t' ts'] H;
    try discriminate; [reflexivity|].
  cbn [map] in H. injection H as Hh Hs Hn Hp Hrest.
  unfold keyed_rows. cbn [map]. fold (keyed_rows ts) (keyed_rows ts').
  rewrite (IH ts' Hrest). unfold trade_key, trade_value.
  rewrite Hh, Hs, Hn, Hp. reflexivity.
Qed.

Lemma vwap_rows_of_keyed_rows trades :
  vwap_rows trades =
  let sorted :=
    sort_values (map (fun g => (g, vwap_of (g_total_value g) (g_shares g)))
                   (groupby_sum (keyed_rows trades))) in
  zip_with make_row sorted
    (zip (group_cumsum_float ∅ (map (fun x => ((g_key x.1).2, g_total_value x.1)) sorted))
         (group_cumsum_int ∅ (map (fun x => ((g_key x.1).2, g_shares x.1)) sorted))).
Proof. apply vwap_rows_unfold. Qed.

(** X20. [calculate_VWAP] reads four columns only: [end_time_hour],
    [stock], [shares] and [price].  Two DataFrames whose rows agree on
    these give the same table, whatever their [time] and [type] columns
    hold: buys and sells, and the kinds of cross, are not told apart, and
    within the hour the time of a trade plays no part. *)
Theorem calculate_VWAP_ignores_time_and_type (w w' : world) (l l' : nat)
    (df df' : DataFrame) :
  heap w !! l = Some df -> heap w' !! l' = Some df' ->
  map (fun t => (end_time_hour t, stock t, shares t, price t)) (df_rows df)
  = map (fun t => (end_time_hour t, stock t, shares t, price t)) (df_rows df') ->
  (calculate_VWAP l w).1 = (calculate_VWAP l' w').1.
Proof.
  intros Hdf Hdf' Hcols.
  rewrite (calculate_VWAP_run w l df Hdf), (calculate_VWAP_run w' l' df' Hdf').
  cbn [fst]. f_equal. rewrite !vwap_rows_of_keyed_rows.
  rewrite (keyed_rows_columns _ _ Hcols). reflexivity.
Qed.

Lemma calculate_VWAP_ignores_time_and_type_witness :
  let buy := {| time := "9:30:00"; end_time_hour := 10; type := "B"; shares := 100;
                stock := "AAPL"; price := price_of 1000000 |} in
  let sell := {| time := "9:59:59"; end_time_hour := 10; type := "S"; shares := 100;
                 stock := "AAPL"; price := price_of 1000000 |} in
  let w := set_heap [frame [buy]] (fresh_world []) in
  let w' := set_heap [frame [sell]] (fresh_world []) in
  buy <> sell /\ (calculate_VWAP 0 w).1 = (calculate_VWAP 0 w').1.
Proof.
  cbv zeta. split; [discriminate|].
  eapply (calculate_VWAP_ignores_time_and_type _ _ 0 0); reflexivity.
Defined.

(** ** The first bucket of a stock *)

Lemma fadd_zero_l x : nonneg x = true -> fadd fzero x = x.
Proof. destruct x as [[]|[]| |[] m e]; cbn; try discriminate; reflexivity. Qed.

Lemma day_to_date_first (out : list VWAPRow) r :
  StronglySorted key_lt (map row_key out) ->
  r ∈ out ->
  (forall r', r' ∈ out -> row_stock r' = row_stock r ->
     row_end_time_hour r <= row_end_time_hour r') ->
  day_to_date r out = [r].
Proof.
  intros Hs [i Hi]%list_elem_of_lookup Hfirst.
  rewrite (day_to_date_prefix out i r Hs Hi), (take_S_r out i r Hi), filter_app.
  pose proof (take_drop_middle out i r Hi) as Hsplit.
  rewrite <- Hsplit in Hs. rewrite map_app in Hs. cbn [map] in Hs.
  apply strongly_sorted_middle in Hs as [Hpre _]. rewrite Forall_forall in Hpre.
  rewrite filter_none.
  - rewrite filter_cons_True by reflexivity. reflexivity.
  - intros r' Hr' Hst.
    assert (Hlt : key_lt (row_key r') (row_key r))
      by (apply Hpre, list_elem_of_fmap_2, Hr').
    apply key_lt_hour in Hlt; [|cbn; congruence]. cbn in Hlt.
    assert (Hin : r' ∈ out)
      by (rewrite <- Hsplit; apply elem_of_app; left; exact Hr').
    specialize (Hfirst r' Hin Hst). lia.
Qed.

(** X21. The cumulative columns start with the first hour of a stock:
    in the row of a stock that has no row of an earlier hour,
    [cum_shares], [cum_total_value] and [cum_vwap] are the [shares],
    [total_value] and [vwap] of the row itself. *)
Theorem first_bucket_starts_the_cumulative_columns (w : world) (trade_df : nat)
    (df : DataFrame) :
  heap w !! trade_df = Some df ->
  Forall decoded (df_rows df) ->
  exists out,
    (calculate_VWAP trade_df w).1 = Ok out /\
    forall r, In r out ->
      (forall r', In r' out -> row_stock r' = row_stock r ->
         row_end_time_hour r <= row_end_time_hour r') ->
      row_cum_shares r = row_shares r /\
      row_cum_total_value r = row_total_value r /\
      row_cum_vwap r = row_vwap r.
Proof.
  intros Hdf Hdec. rewrite (calculate_VWAP_run w trade_df df Hdf). cbn [fst].
  eexists. split; [reflexivity|]. intros r Hr%list_elem_of_In Hfirst.
  set (trades := df_rows df) in *.
  destruct (decoded_rows_row trades r Hdec Hr) as (Htv & Hsh & Hv & Hctv & Hcsh & Hcv).
  assert (HD : day_to_date r (vwap_rows trades) = [r]).
  { apply day_to_date_first; [apply vwap_rows_sorted|exact Hr|].
    intros r' Hr'. apply Hfirst, list_elem_of_In, Hr'. }
  rewrite HD in Hctv, Hcsh. cbn in Hcsh.
  assert (Hc1 : row_cum_shares r = row_shares r) by lia.
  assert (Hc2 : row_cum_total_value r = row_total_value r).
  { rewrite Hctv. unfold fsum. cbn [map foldl]. apply fadd_zero_l.
    rewrite Htv. apply decoded_totals_nonneg, Hdec. }
  split; [exact Hc1|]. split; [exact Hc2|]. rewrite Hcv, Hv, Hc1, Hc2. reflexivity.
Qed.

Lemma first_bucket_starts_the_cumulative_columns_witness :
  exists out,
    (calculate_VWAP 0 example_world).1 = Ok out /\
    forall r, In r out ->
      (forall r', In r' out -> row_stock r' = row_stock r ->
         row_end_time_hour r <= row_end_time_hour r') ->
      row_cum_shares r = row_shares r /\
      row_cum_total_value r = row_total_value r /\
      row_cum_vwap r = row_vwap r.
Proof.
  apply (first_bucket_starts_the_cumulative_columns example_world 0
           (frame (records_of example_messages).1)).
  - rewrite example_world_eq. reflexivity.
  - exact (proj1 (records_of_decoded example_messages)).
Defined.
